(** * Canvas2D layout engines (babylon.canvas2dLayoutEngine.ts)

    A shallow embedding of the three layout engines of Canvas2D
    (CanvasLayoutEngine, StackPanelLayoutEngine, GridPanelLayoutEngine), of
    their common base class LayoutEngineBase and of the grid dimension parser,
    followed by the properties of the layout specification that were checked
    against them.

    Primitives and Size objects are objects that the engines reach through
    references and mutate in place, so they live in two stores indexed by
    object identity; a method is a computation in a state-and-exception
    monad over these stores and the engine instance [this]. *)

From Stdlib Require Import ZArith QArith Ascii String List Bool.
From stdpp Require Import gmap strings list.
Close Scope Q_scope.
Local Open Scope Z_scope.

(** ** JavaScript numbers

    A JS number is NaN, an infinity, or a finite binary64 value. A finite
    value is kept as the rational it is; the results of parsing and of
    addition are rounded to binary64, to nearest with ties to even, and
    overflow to an infinity. The sign of zero is not represented. *)

Inductive number : Type :=
  | NaN
  | Infinity (negative : bool)
  | Finite (q : Q).

(** [floor (log2 (n / d))]. *)
Definition floor_log2 (n d : positive) : Z :=
  let k := Z.log2 (Zpos n) - Z.log2 (Zpos d) in
  let above :=
    if 0 <=? k then Zpos d * 2 ^ k <=? Zpos n
    else Zpos d <=? Zpos n * 2 ^ (- k) in
  if above then k else k - 1.

(** [a / b] rounded to the nearest integer, ties to even; [0 <= a], [0 < b]. *)
Definition round_half_even (a b : Z) : Z :=
  let t := a / b in
  let r := a mod b in
  match 2 * r ?= b with
  | Lt => t
  | Gt => t + 1
  | Eq => if Z.even t then t else t + 1
  end.

(** The binary64 value of the positive rational [n / d]: a significand of
    at most 53 bits at the exponent of the value, no lower than the
    exponent of the subnormals; [None] on overflow. *)
Definition round64_pos (n d : positive) : option Q :=
  let e := Z.max (floor_log2 n d - 52) (-1074) in
  let m :=
    if 0 <=? e then round_half_even (Zpos n) (Zpos d * 2 ^ e)
    else round_half_even (Zpos n * 2 ^ (- e)) (Zpos d) in
  if (971 <? e) || ((e =? 971) && (m =? 2 ^ 53)) then None
  else Some (if 0 <=? e then inject_Z (m * 2 ^ e)
             else Qred (Qmake m (Z.to_pos (2 ^ (- e))))).

(** The Number value of a rational. *)
Definition round64 (q : Q) : number :=
  match Qnum q with
  | 0 => Finite 0
  | Zpos n =>
      match round64_pos n (Qden q) with
      | Some v => Finite v
      | None => Infinity false
      end
  | Zneg n =>
      match round64_pos n (Qden q) with
      | Some v => Finite (Qred (Qopp v))
      | None => Infinity true
      end
  end.

(** The Number value of an integer. *)
Definition num (z : Z) : number := round64 (inject_Z z).

(** [a + b] on numbers. *)
Definition add (a b : number) : number :=
  match a, b with
  | NaN, _ | _, NaN => NaN
  | Infinity s, Infinity t => if eqb s t then Infinity s else NaN
  | Infinity s, Finite _ | Finite _, Infinity s => Infinity s
  | Finite p, Finite q => round64 (p + q)
  end.

(** [Math.max(a, b)]. *)
Definition Math_max (a b : number) : number :=
  match a, b with
  | NaN, _ | _, NaN => NaN
  | Infinity false, _ | _, Infinity false => Infinity false
  | Infinity true, r | r, Infinity true => r
  | Finite p, Finite q => if Qle_bool p q then Finite q else Finite p
  end.

(** A value of type [number] that may be [null]; [null] converts to [0]
    when it is an operand of [+]. *)
Definition ToNumber (v : option number) : number :=
  match v with
  | Some n => n
  | None => num 0
  end.

(** Truthiness of a possibly undefined boolean. *)
Definition ToBoolean (v : option bool) : bool :=
  match v with
  | Some b => b
  | None => false
  end.

(** ** JavaScript strings

    Strings are sequences of code units below 256 (Latin-1). *)

Definition code (c : ascii) : N := N_of_ascii c.

(** WhiteSpace and LineTerminator code units: TAB, LF, VT, FF, CR, SP, NBSP. *)
Definition isWhiteSpace (c : ascii) : bool :=
  let n := code c in
  ((9 <=? n) && (n <=? 13) || (n =? 32) || (n =? 160))%N.

Definition isDigit (c : ascii) : bool :=
  let n := code c in ((48 <=? n) && (n <=? 57))%N.

Definition digitValue (c : ascii) : Z := Z.of_N (code c) - 48.

(** Lower-casing of one code unit: A-Z, and the Latin-1 capitals
    U+00C0..U+00DE except the multiplication sign U+00D7. *)
Definition toLowerChar (c : ascii) : ascii :=
  let n := code c in
  if ((65 <=? n) && (n <=? 90) ||
      (192 <=? n) && (n <=? 222) && negb (n =? 215))%N
  then ascii_of_N (n + 32) else c.

Fixpoint toLocaleLowerCase (s : string) : string :=
  match s with
  | EmptyString => EmptyString
  | String c r => String (toLowerChar c) (toLocaleLowerCase r)
  end.

Fixpoint trimStart (s : string) : string :=
  match s with
  | EmptyString => EmptyString
  | String c r => if isWhiteSpace c then trimStart r else s
  end.

Fixpoint trimEnd (s : string) : string :=
  match s with
  | EmptyString => EmptyString
  | String c r =>
      match trimEnd r with
      | EmptyString => if isWhiteSpace c then EmptyString else String c EmptyString
      | r' => String c r'
      end
  end.

Definition trim (s : string) : string := trimEnd (trimStart s).

(** A string made of white space only. *)
Fixpoint blank (s : string) : bool :=
  match s with
  | EmptyString => true
  | String c r => isWhiteSpace c && blank r
  end.

Fixpoint startsWith (pat s : string) : bool :=
  match pat, s with
  | EmptyString, _ => true
  | String p pat', String c s' => if Ascii.eqb p c then startsWith pat' s' else false
  | String _ _, EmptyString => false
  end.

(** [s.indexOf(pat)], scanning from position [i]; [-1] when absent. *)
Fixpoint indexOf_from (pat s : string) (i : Z) : Z :=
  if startsWith pat s then i
  else match s with
       | EmptyString => -1
       | String _ s' => indexOf_from pat s' (i + 1)
       end.

Definition indexOf (s pat : string) : Z := indexOf_from pat s 0.

(** [s.substr(start, len)] for non-negative arguments. *)
Definition substr (s : string) (start len : Z) : string :=
  String.substring (Z.to_nat start) (Z.to_nat len) s.

(** *** parseFloat *)

(** Reads the longest run of decimal digits at the head of [s]; [acc] is the
    value read so far and [n] the number of digits read. *)
Fixpoint takeDigits (s : string) (acc : Z) (n : Z) : Z * Z * string :=
  match s with
  | String c r => if isDigit c then takeDigits r (10 * acc + digitValue c) (n + 1)
                  else (acc, n, s)
  | EmptyString => (acc, n, s)
  end.

(** The exponent part [e], [e+] or [e-] followed by at least one digit; [0]
    when the text at [s] is not a well-formed exponent part. *)
Definition exponentPart (s : string) : Z :=
  match s with
  | String c r =>
      if (Ascii.eqb c "e" || Ascii.eqb c "E")%bool then
        let '(neg, r) :=
          match r with
          | String "-" r' => (true, r')
          | String "+" r' => (false, r')
          | _ => (false, r)
          end in
        let '(e, n, _) := takeDigits r 0 0 in
        if n =? 0 then 0 else if neg : bool then - e else e
      else 0
  | EmptyString => 0
  end.

(** [m * 10^e] as a rational. *)
Definition decimal (m e : Z) : Q :=
  if 0 <=? e then inject_Z (m * 10 ^ e)
  else Qmake m (Z.to_pos (10 ^ (- e))).

Definition parseFloat (s : string) : number :=
  let s := trimStart s in
  let '(neg, s) :=
    match s with
    | String "-" r => (true, r)
    | String "+" r => (false, r)
    | _ => (false, s)
    end in
  if startsWith "Infinity" s then Infinity neg
  else
    let '(ip, ni, s1) := takeDigits s 0 0 in
    let '(m, nf, s2) :=
      match s1 with
      | String "." r => takeDigits r ip 0
      | _ => (ip, 0, s1)
      end in
    if ni + nf =? 0 then NaN
    else
      let q := decimal m (exponentPart s2 - nf) in
      round64 (if neg : bool then Qopp q else q).

(** ** Sizes and vectors *)

Module Size.
Record t : Type := new { width : number; height : number }.
End Size.

Module Vector2.
Record t : Type := new { x : number; y : number }.
End Vector2.

(** ** GridDimensionDefinition *)

Module GridDimensionDefinition.

Definition Pixels : Z := 1.
Definition Stars : Z := 2.
Definition Auto : Z := 3.

(** [_parse(value, res)]: the callback [res] receives the value, the value
    in pixels and the unit type; [None] stands for [null]. *)
Definition _parse {A : Type} (value : string)
    (res : option number -> option number -> Z -> A) : A :=
  let v := trim (toLocaleLowerCase value) in
  if indexOf v "auto" =? 0 then
    res None None Auto
  else if negb (indexOf v "*" =? -1) then
    let i := indexOf v "*" in
    let w := parseFloat (substr v 0 i) in
    res (Some w) None Stars
  else
    let w := parseFloat v in
    res (Some w) (Some w) Pixels.

End GridDimensionDefinition.

Module RowDefinition.
Record t : Type :=
  { widthPixels : option number; width : option number; widthType : Z }.
End RowDefinition.

Module ColumnDefinition.
Record t : Type :=
  { heightPixels : option number; height : option number; heightType : Z }.
End ColumnDefinition.

Module PrimitiveGridInfo.
Record t : Type :=
  { row : Z; column : Z; rowSpan : Z; columnSpan : Z }.

(** The constructor; an omitted span is [1]. *)
Definition new (row column : Z) (rowSpan columnSpan : option Z) : t :=
  {| row := row;
     column := column;
     rowSpan := match rowSpan with None => 1 | Some v => v end;
     columnSpan := match columnSpan with None => 1 | Some v => v end |}.
End PrimitiveGridInfo.

Inductive CellInfo : Type := new_CellInfo.

(** ** Completions, and the state-and-exception monad of method bodies *)

Inductive JSError : Type := TypeError.

Inductive completion (A : Type) : Type :=
  | Normal (a : A)
  | Throw (e : JSError).
Arguments Normal {A} a.
Arguments Throw {A} e.

(** A method body over a mutable state [S]: the state reached is returned
    with the completion, so what was written before a throw stays written. *)
Definition M (S A : Type) : Type := S -> completion A * S.

Definition ret {S A : Type} (a : A) : M S A := fun s => (Normal a, s).

Definition bind {S A B : Type} (m : M S A) (f : A -> M S B) : M S B :=
  fun s =>
    match m s with
    | (Normal a, s') => f a s'
    | (Throw e, s') => (Throw e, s')
    end.

Definition throw {S A : Type} (e : JSError) : M S A := fun s => (Throw e, s).
Definition get {S : Type} : M S S := fun s => (Normal s, s).
Definition put {S : Type} (s : S) : M S unit := fun _ => (Normal tt, s).

Declare Scope js_scope.
Delimit Scope js_scope with js.
Notation "x <- c1 ;; c2" := (bind c1 (fun x => c2))
  (at level 100, c1 at next level, right associativity) : js_scope.
Notation "c1 ;; c2" := (bind c1 (fun _ => c2))
  (at level 100, right associativity) : js_scope.
Local Open Scope js_scope.

(** [for (let a of l) body], with the locals that the body updates threaded
    through as [b]. *)
Fixpoint foldM {S A B : Type} (body : B -> A -> M S B) (b : B) (l : list A) : M S B :=
  match l with
  | [] => ret b
  | a :: l' => b' <- body b a ;; foldM body b' l'
  end.

Definition forM_ {S A : Type} (l : list A) (body : A -> M S unit) : M S unit :=
  foldM (fun _ a => body a) tt l.

(** ** JavaScript arrays: a slot is [None] when it is a hole or undefined *)

Definition array_get {A : Type} (l : list (option A)) (i : Z) : option A :=
  if i <? 0 then None else mjoin (l !! Z.to_nat i).

(** [l[i] = v], which extends the array when [i] is at or past its end. *)
Definition array_set {A : Type} (l : list (option A)) (i : nat) (v : A) : list (option A) :=
  if Nat.ltb i (length l) then <[i := Some v]> l
  else l ++ replicate (i - length l)%nat None ++ [Some v].

(** ** The host library

    What the engines use of the classes around them: the constants of
    SmartPropertyPrim and Prim2DBase that they read, and the method of
    PrimitiveThickness that they call. *)

(** Modelled from the spec: PrimitiveThickness is an external collaborator,
    a spacing descriptor capable of computing an adjusted area given an
    intrinsic size and an outer area. A thickness is an object of the host,
    known here by its identity. *)
Definition PrimitiveThickness : Type := nat.

(** [computeArea margin sourceArea area] is the content that the call
    [margin.computeArea(sourceArea, area)] leaves in the [area] object it
    was handed, given the contents of the two objects when it is called. *)
Class Host : Type :=
  { flagLayoutDirty : Z;
    sizeProperty_flagId : Z;
    computeArea : PrimitiveThickness -> Size.t -> Size.t -> Size.t }.

(** ** Primitives *)

(** Modelled from the spec: Prim2DBase is an external collaborator; the
    fields are the node state the engines read and write. [isCanvas2D] is
    [prim instanceof Canvas2D]; [_flags] is the flag word of
    SmartPropertyPrim, of which the layout-dirty flag is one bit;
    [_externalData] is the store behind [getExternalData]. References to
    primitives are object identities, and so are [actualSize],
    [contentArea] and [layoutArea]: each designates a Size object, reading
    the property hands that object out and assigning it stores the
    reference given, so that two nodes may hold the same Size object.
    [margin] designates a PrimitiveThickness object. [layoutAreaPos] is
    only ever assigned a Vector2 made for it, and is kept by value. *)
Record Prim2DBase : Type :=
  { isCanvas2D : bool;
    parent : option nat;
    owner : option nat;
    children : list nat;
    actualSize : nat;
    contentArea : nat;
    margin : PrimitiveThickness;
    layoutArea : nat;
    layoutAreaPos : Vector2.t;
    _flags : Z;
    _externalData : gmap string PrimitiveGridInfo.t }.

(** Modelled from the spec: the engine has write access to [layoutArea],
    [layoutAreaPos] and the dirty flag of a node. A write of [layoutArea]
    or of [layoutAreaPos] stores what it is given and changes nothing else
    of the node. *)
Definition set_layoutArea (v : nat) (p : Prim2DBase) : Prim2DBase :=
  {| isCanvas2D := isCanvas2D p; parent := parent p; owner := owner p;
     children := children p; actualSize := actualSize p;
     contentArea := contentArea p; margin := margin p;
     layoutArea := v; layoutAreaPos := layoutAreaPos p;
     _flags := _flags p; _externalData := _externalData p |}.

Definition set_layoutAreaPos (v : Vector2.t) (p : Prim2DBase) : Prim2DBase :=
  {| isCanvas2D := isCanvas2D p; parent := parent p; owner := owner p;
     children := children p; actualSize := actualSize p;
     contentArea := contentArea p; margin := margin p;
     layoutArea := layoutArea p; layoutAreaPos := v;
     _flags := _flags p; _externalData := _externalData p |}.

Definition set_flags (v : Z) (p : Prim2DBase) : Prim2DBase :=
  {| isCanvas2D := isCanvas2D p; parent := parent p; owner := owner p;
     children := children p; actualSize := actualSize p;
     contentArea := contentArea p; margin := margin p;
     layoutArea := layoutArea p; layoutAreaPos := layoutAreaPos p;
     _flags := v; _externalData := _externalData p |}.

(** The state a method of an engine of class [E] runs in: the engine
    instance [this], the primitives, and the Size objects, each at the
    index that is its identity. *)
Record State (E : Type) : Type :=
  { this : E; prims : gmap nat Prim2DBase; sizes : list Size.t }.
Arguments this {E} _.
Arguments prims {E} _.
Arguments sizes {E} _.
Arguments Build_State {E} _ _ _.

Section PrimitiveAccess.
Context {E : Type}.

Definition get_this : M (State E) E := s <- get ;; ret (this s).

Definition set_this (e : E) : M (State E) unit :=
  s <- get ;; put {| this := e; prims := prims s; sizes := sizes s |}.

(** Reaching an object through a reference; a reference that designates
    no object is [undefined], and reading a property of it throws. *)
Definition deref (r : nat) : M (State E) Prim2DBase :=
  s <- get ;;
  match prims s !! r with
  | Some p => ret p
  | None => throw TypeError
  end.

(** The same through a nullable reference. *)
Definition deref_opt (o : option nat) : M (State E) Prim2DBase :=
  match o with
  | Some r => deref r
  | None => throw TypeError
  end.

(** Writing properties of the object behind [r]. *)
Definition assign (r : nat) (f : Prim2DBase -> Prim2DBase) : M (State E) unit :=
  p <- deref r ;;
  s <- get ;;
  put {| this := this s; prims := <[r := f p]> (prims s); sizes := sizes s |}.

(** Reading the [width] and [height] of the Size object behind [r]. *)
Definition size_of (r : nat) : M (State E) Size.t :=
  s <- get ;;
  match sizes s !! r with
  | Some a => ret a
  | None => throw TypeError
  end.

(** Writing the [width] and [height] of the Size object behind [r], in
    place. *)
Definition write_size (r : nat) (a : Size.t) : M (State E) unit :=
  _ <- size_of r ;;
  s <- get ;;
  put {| this := this s; prims := prims s; sizes := <[r := a]> (sizes s) |}.

(** [new Size(width, height)]: a new object, whose reference is returned. *)
Definition new_Size (a : Size.t) : M (State E) nat :=
  s <- get ;;
  put {| this := this s; prims := prims s; sizes := sizes s ++ [a] |} ;;
  ret (length (sizes s)).

(** [o instanceof Canvas2D]; false for null and undefined. *)
Definition instanceof_Canvas2D (o : option nat) : M (State E) bool :=
  s <- get ;;
  ret (match o with
       | Some r => match prims s !! r with
                   | Some p => isCanvas2D p
                   | None => false
                   end
       | None => false
       end).

(** Modelled from the spec: SmartPropertyPrim._isFlagSet, the dirty-flag
    query, as a test of the flag's bits in the flag word. *)
Definition _isFlagSet (prim : nat) (flag : Z) : M (State E) bool :=
  p <- deref prim ;;
  ret (negb (Z.land (_flags p) flag =? 0)).

(** Modelled from the spec: SmartPropertyPrim._clearFlags, the dirty-flag
    clear, which resets the flag's bits in the flag word. *)
Definition _clearFlags (prim : nat) (flag : Z) : M (State E) unit :=
  assign prim (fun p => set_flags (Z.land (_flags p) (Z.lnot flag)) p).

(** Modelled from the spec: [getExternalData(key)] reads the node's
    external data store; a missing entry gives no object. *)
Definition getExternalData (prim : nat) (key : string)
  : M (State E) (option PrimitiveGridInfo.t) :=
  p <- deref prim ;;
  ret (_externalData p !! key).

(** Modelled from the spec: [margin.computeArea(sourceArea, area)], which
    reads the two Size objects and writes the adjusted area into the
    second. *)
Definition call_computeArea `{Host} (margin : PrimitiveThickness) (sourceArea area : nat)
  : M (State E) unit :=
  src <- size_of sourceArea ;;
  dst <- size_of area ;;
  write_size area (computeArea margin src dst).

End PrimitiveAccess.

(** ** LayoutEngineBase *)

Module LayoutEngineBase.

(** [_isLocked] is declared without an initialiser and the constructor
    does not assign it: it is undefined ([None]) until [lock] runs. *)
Record t : Type :=
  { layoutDirtyOnPropertyChangedMask : Z;
    _isLocked : option bool }.

Definition new : t :=
  {| layoutDirtyOnPropertyChangedMask := 0; _isLocked := None |}.

Definition updateLayout {S : Type} (prim : nat) : M S unit := ret tt.

Definition isChildPositionAllowed (this : t) : bool := false.

Definition isLocked (this : t) : option bool := _isLocked this.

Definition lock (this : t) : bool * t :=
  if ToBoolean (_isLocked this) then (false, this)
  else (true,
        {| layoutDirtyOnPropertyChangedMask := layoutDirtyOnPropertyChangedMask this;
           _isLocked := Some true |}).

End LayoutEngineBase.

(** ** CanvasLayoutEngine *)

Module CanvasLayoutEngine.

Record t : Type := { super : LayoutEngineBase.t }.

Definition new : t := {| super := LayoutEngineBase.new |}.

Definition Singleton : t := new.

Definition _doUpdate (prim : nat) : M (State t) unit :=
  p <- deref prim ;;
  if isCanvas2D p then
    assign prim (set_layoutArea (actualSize p))
  else
    direct <- instanceof_Canvas2D (parent p) ;;
    if direct : bool then
      o <- deref_opt (owner p) ;;
      assign prim (set_layoutArea (actualSize o))
    else
      q <- deref_opt (parent p) ;;
      assign prim (set_layoutArea (contentArea q)).

Definition updateLayout `{Host} (prim : nat) : M (State t) unit :=
  dirty <- _isFlagSet prim flagLayoutDirty ;;
  if dirty : bool then
    p <- deref prim ;;
    forM_ (children p) _doUpdate ;;
    _clearFlags prim flagLayoutDirty
  else ret tt.

Definition isChildPositionAllowed (this : t) : bool := true.

End CanvasLayoutEngine.

(** ** StackPanelLayoutEngine *)

Module StackPanelLayoutEngine.

Record t : Type :=
  { super : LayoutEngineBase.t;
    _isHorizontal : bool }.

Definition new `{Host} : t :=
  {| super :=
       {| LayoutEngineBase.layoutDirtyOnPropertyChangedMask := sizeProperty_flagId;
          LayoutEngineBase._isLocked := LayoutEngineBase._isLocked LayoutEngineBase.new |};
     _isHorizontal := true |}.

(** Inherited from LayoutEngineBase. *)
Definition isLocked (this : t) : option bool := LayoutEngineBase.isLocked (super this).

Definition lock (this : t) : bool * t :=
  let '(r, b) := LayoutEngineBase.lock (super this) in
  (r, {| super := b; _isHorizontal := _isHorizontal this |}).

Definition isHorizontal (this : t) : bool := _isHorizontal this.

(** The setter of [isHorizontal]. *)
Definition set_isHorizontal (val : bool) (this : t) : unit * t :=
  if ToBoolean (isLocked this) then (tt, this)
  else (tt, {| super := super this; _isHorizontal := val |}).

Definition updateLayout `{Host} (prim : nat) : M (State t) unit :=
  dirty <- _isFlagSet prim flagLayoutDirty ;;
  if dirty : bool then
    let x := num 0 in
    let y := num 0 in
    e <- get_this ;;
    let h := isHorizontal e in
    let max := num 0 in
    p <- deref prim ;;
    max <- foldM (fun max child =>
                    c <- deref child ;;
                    let layoutArea := layoutArea c in
                    call_computeArea (margin c) (actualSize c) layoutArea ;;
                    a <- size_of layoutArea ;;
                    ret (Math_max max (if h then Size.height a else Size.width a)))
                 max (children p) ;;
    p <- deref prim ;;
    foldM (fun '(x, y) child =>
             assign child (set_layoutAreaPos (Vector2.new x y)) ;;
             c <- deref child ;;
             let layoutArea := layoutArea c in
             a <- size_of layoutArea ;;
             if h then
               let x := add x (Size.width a) in
               r <- new_Size (Size.new (Size.width a) max) ;;
               assign child (set_layoutArea r) ;;
               ret (x, y)
             else
               let y := add y (Size.height a) in
               r <- new_Size (Size.new max (Size.height a)) ;;
               assign child (set_layoutArea r) ;;
               ret (x, y))
          (x, y) (children p) ;;
    _clearFlags prim flagLayoutDirty
  else ret tt.

Definition isChildPositionAllowed (this : t) : bool := false.

(** *** The static side of the class

    The two private static fields, and the instances of the class that
    exist, indexed by object identity. *)
Record class : Type :=
  { _horizontal : option nat;
    _vertical : option nat;
    instances : list t }.

(** When the class is loaded both static fields are [null]. *)
Definition loaded : class :=
  {| _horizontal := None; _vertical := None; instances := [] |}.

(** [new StackPanelLayoutEngine()]: a fresh object. *)
Definition construct `{Host} : M class nat :=
  c <- get ;;
  put {| _horizontal := _horizontal c; _vertical := _vertical c;
         instances := instances c ++ [new] |} ;;
  ret (length (instances c)).

(** A method call or property assignment through a nullable reference. *)
Definition invoke {A : Type} (o : option nat) (method : t -> A * t) : M class A :=
  c <- get ;;
  match o ≫= (fun r => instances c !! r) with
  | Some e =>
      let '(a, e') := method e in
      put {| _horizontal := _horizontal c; _vertical := _vertical c;
             instances := match o with
                          | Some r => <[r := e']> (instances c)
                          | None => instances c
                          end |} ;;
      ret a
  | None => throw TypeError
  end.

Definition Horizontal `{Host} : M class (option nat) :=
  c <- get ;;
  (if negb (bool_decide (is_Some (_horizontal c))) then
     r <- construct ;;
     c <- get ;;
     put {| _horizontal := Some r; _vertical := _vertical c;
            instances := instances c |} ;;
     c <- get ;;
     invoke (_horizontal c) (set_isHorizontal true) ;;
     c <- get ;;
     invoke (_horizontal c) lock ;;
     ret tt
   else ret tt) ;;
  c <- get ;;
  ret (_horizontal c).

Definition Vertical `{Host} : M class (option nat) :=
  c <- get ;;
  (if negb (bool_decide (is_Some (_vertical c))) then
     r <- construct ;;
     c <- get ;;
     put {| _horizontal := _horizontal c; _vertical := Some r;
            instances := instances c |} ;;
     c <- get ;;
     invoke (_vertical c) (set_isHorizontal false) ;;
     c <- get ;;
     invoke (_vertical c) lock ;;
     ret tt
   else ret tt) ;;
  c <- get ;;
  ret (_vertical c).

End StackPanelLayoutEngine.

(** ** GridPanelLayoutEngine *)

Module GridPanelLayoutEngine.

Import GridDimensionDefinition.

(** The constructor's argument [{rows: [{height}], columns: [{width}]}];
    a row is given by its [height] string, a column by its [width]
    string, and either array may be missing. *)
Record settings : Type :=
  { rows : option (list string);
    columns : option (list string) }.

Record t : Type :=
  { super : LayoutEngineBase.t;
    _rows : list RowDefinition.t;
    _columns : list ColumnDefinition.t;
    _cells : option (list (option (list (option CellInfo)))) }.

Definition set_cells (v : option (list (option (list (option CellInfo))))) (e : t) : t :=
  {| super := super e; _rows := _rows e; _columns := _columns e; _cells := v |}.

Definition new `{Host} (settings : settings) : t :=
  {| super :=
       {| LayoutEngineBase.layoutDirtyOnPropertyChangedMask := sizeProperty_flagId;
          LayoutEngineBase._isLocked := LayoutEngineBase._isLocked LayoutEngineBase.new |};
     _cells := None;
     _rows :=
       match rows settings with
       | Some rs =>
           map (fun height =>
                  _parse height (fun v vp t =>
                    {| RowDefinition.width := v;
                       RowDefinition.widthPixels := vp;
                       RowDefinition.widthType := t |})) rs
       | None => []
       end;
     _columns :=
       match columns settings with
       | Some cs =>
           map (fun width =>
                  _parse width (fun v vp t =>
                    {| ColumnDefinition.height := v;
                       ColumnDefinition.heightPixels := vp;
                       ColumnDefinition.heightType := t |})) cs
       | None => []
       end |}.

Definition isChildPositionAllowed (this : t) : bool := false.

(** Reading [this._cells] in order to index it; indexing [null] throws. *)
Definition cells : M (State t) (list (option (list (option CellInfo)))) :=
  e <- get_this ;;
  match _cells e with
  | Some cells => ret cells
  | None => throw TypeError
  end.

Definition _updateCellsList (prim : nat) : M (State t) unit :=
  e <- get_this ;;
  match _cells e with
  | Some _ => ret tt
  | None =>
      set_this (set_cells (Some []) e) ;;
      e <- get_this ;;
      let rl := length (_rows e) in
      forM_ (seq 0 rl) (fun i =>
        cs <- cells ;;
        e <- get_this ;;
        set_this (set_cells (Some (array_set cs i [])) e) ;;
        e <- get_this ;;
        let cl := length (_columns e) in
        forM_ (seq 0 cl) (fun j =>
          let cell := new_CellInfo in
          cs <- cells ;;
          match array_get cs (Z.of_nat i) with
          | Some r =>
              e <- get_this ;;
              set_this (set_cells (Some (array_set cs i (array_set r j cell))) e)
          | None => throw TypeError
          end)) ;;
      p <- deref prim ;;
      forM_ (children p) (fun child =>
        pgi <- getExternalData child "grid" ;;
        match pgi with
        | Some pgi =>
            cs <- cells ;;
            match array_get cs (PrimitiveGridInfo.row pgi) with
            | Some r =>
                let cell := array_get r (PrimitiveGridInfo.column pgi) in
                ret tt
            | None => throw TypeError
            end
        | None => throw TypeError
        end)
  end.

(** The totals [(totalStars, totalPixels)] that the first pass of
    [_updateConstants] accumulates over the row definitions. *)
Definition rowTotals (rows : list RowDefinition.t) : number * number :=
  fold_left
    (fun '(totalStars, totalPixels) row =>
       if RowDefinition.widthType row =? Stars then
         (add totalStars (ToNumber (RowDefinition.width row)), totalPixels)
       else if RowDefinition.widthType row =? Pixels then
         (totalStars, add totalPixels (ToNumber (RowDefinition.widthPixels row)))
       else if RowDefinition.widthType row =? Auto then
         (totalStars, add totalPixels (ToNumber (RowDefinition.widthPixels row)))
       else (totalStars, totalPixels))
    rows (num 0, num 0).

(** The totals are locals of the method and are dropped when it returns. *)
Definition _updateConstants (prim : nat) : M (State t) unit :=
  p <- deref prim ;;
  let area := contentArea p in
  e <- get_this ;;
  let '(totalStars, totalPixels) := rowTotals (_rows e) in
  ret tt.

Definition updateLayout `{Host} (prim : nat) : M (State t) unit :=
  dirty <- _isFlagSet prim flagLayoutDirty ;;
  if dirty : bool then
    _updateCellsList prim ;;
    _updateConstants prim ;;
    _clearFlags prim flagLayoutDirty
  else ret tt.

End GridPanelLayoutEngine.

(** ** Notions used to state the properties *)

(** The layout-dirty flag of a node, as [_isFlagSet] reads it. *)
Definition layoutDirty `{Host} (p : Prim2DBase) : bool :=
  negb (Z.land (_flags p) flagLayoutDirty =? 0).

(** The node behind [prim] exists and its layout-dirty flag is clear. *)
Definition clean `{Host} (s : gmap nat Prim2DBase) (prim : nat) : Prop :=
  ∃ p, s !! prim = Some p ∧ layoutDirty p = false.

(** The node behind [prim] exists and its layout-dirty flag is set. *)
Definition dirty `{Host} (s : gmap nat Prim2DBase) (prim : nat) : Prop :=
  ∃ p, s !! prim = Some p ∧ layoutDirty p = true.

(** A caller that runs [m] [n] times in a row. *)
Fixpoint repeatM {S : Type} (n : nat) (m : M S unit) : M S unit :=
  match n with
  | O => ret tt
  | S n' => m ;; repeatM n' m
  end.

(** A caller that calls [lock()] [n] times in a row on one instance and
    collects what the calls return. *)
Fixpoint lock_times (n : nat) (e : LayoutEngineBase.t) : list bool * LayoutEngineBase.t :=
  match n with
  | O => ([], e)
  | S n' =>
      let '(r, e') := LayoutEngineBase.lock e in
      let '(rs, e'') := lock_times n' e' in
      (r :: rs, e'')
  end.

(** What an [updateLayout] method guarantees about the dirty flag: a call
    that completes normally leaves the flag of its node clear, and on a node
    whose flag is clear the call completes normally and changes nothing,
    neither in the nodes nor in the engine. *)
Definition clears_dirty_flag `{Host} {E : Type} (updateLayout : nat -> M (State E) unit) : Prop :=
  ∀ prim s s', updateLayout prim s = (Normal tt, s') → clean (prims s') prim.

Definition noop_when_clean `{Host} {E : Type} (updateLayout : nat -> M (State E) unit) : Prop :=
  ∀ prim s, clean (prims s) prim → updateLayout prim s = (Normal tt, s).

(** What the rest of the program can do with the StackPanelLayoutEngine
    class: read one of the two static accessors, construct an instance, and
    call [lock()] or assign [isHorizontal] through any reference it holds.
    The static fields themselves are private. *)
Inductive action : Type :=
  | ReadHorizontal
  | ReadVertical
  | Construct
  | CallLock (o : option nat)
  | AssignIsHorizontal (o : option nat) (val : bool).

Definition perform `{Host} (a : action) : M StackPanelLayoutEngine.class unit :=
  match a with
  | ReadHorizontal => StackPanelLayoutEngine.Horizontal ;; ret tt
  | ReadVertical => StackPanelLayoutEngine.Vertical ;; ret tt
  | Construct => StackPanelLayoutEngine.construct ;; ret tt
  | CallLock o =>
      StackPanelLayoutEngine.invoke o StackPanelLayoutEngine.lock ;; ret tt
  | AssignIsHorizontal o val =>
      StackPanelLayoutEngine.invoke o (StackPanelLayoutEngine.set_isHorizontal val)
  end.

(** The class after a sequence of such actions; an action that throws is
    caught by its caller and the sequence goes on. *)
Fixpoint after `{Host} (l : list action) (c : StackPanelLayoutEngine.class)
  : StackPanelLayoutEngine.class :=
  match l with
  | [] => c
  | a :: l' => after l' (perform a c).2
  end.

(** The instance that an accessor builds: constructed, given its
    orientation, then locked. *)
Definition singleton `{Host} (horizontal : bool) : StackPanelLayoutEngine.t :=
  {| StackPanelLayoutEngine.super :=
       {| LayoutEngineBase.layoutDirtyOnPropertyChangedMask := sizeProperty_flagId;
          LayoutEngineBase._isLocked := Some true |};
     StackPanelLayoutEngine._isHorizontal := horizontal |}.

(** A static field that is set designates a locked instance of the
    orientation [horizontal]. *)
Definition designates (field : option nat) (horizontal : bool)
    (c : StackPanelLayoutEngine.class) : Prop :=
  ∀ r, field = Some r →
    ∃ e, StackPanelLayoutEngine.instances c !! r = Some e ∧
         StackPanelLayoutEngine.isLocked e = Some true ∧
         StackPanelLayoutEngine.isHorizontal e = horizontal.

Definition singletons_ok (c : StackPanelLayoutEngine.class) : Prop :=
  designates (StackPanelLayoutEngine._horizontal c) true c ∧
  designates (StackPanelLayoutEngine._vertical c) false c.

(** The static fields are written once. *)
Definition fields_kept (c c' : StackPanelLayoutEngine.class) : Prop :=
  (∀ r, StackPanelLayoutEngine._horizontal c = Some r →
        StackPanelLayoutEngine._horizontal c' = Some r) ∧
  (∀ r, StackPanelLayoutEngine._vertical c = Some r →
        StackPanelLayoutEngine._vertical c' = Some r).

(** *** Stack layout *)

(** The margin-adjusted layout area of a child among the Size objects
    [zs]: what the measure pass of the stack panel leaves in the object
    behind [child.layoutArea]; [None] where one of the two references
    designates no object. *)
Definition adjustedArea `{Host} (zs : list Size.t) (c : Prim2DBase) : option Size.t :=
  src ← zs !! actualSize c;
  dst ← zs !! layoutArea c;
  Some (computeArea (margin c) src dst).

(** The extent of an area across the stacking direction. *)
Definition crossExtent (h : bool) (a : Size.t) : number :=
  if h then Size.height a else Size.width a.

(** The cursor [(x, y)] once it has moved past an area. *)
Definition advance (h : bool) (cursor : number * number) (a : Size.t) : number * number :=
  if h then (add cursor.1 (Size.width a), cursor.2)
  else (cursor.1, add cursor.2 (Size.height a)).

(** The Size that the place pass makes for a child of area [a] when the
    cross extent is [max], and the child once the pass has put it at
    [cursor] and handed it the new object [r]. *)
Definition stretched (h : bool) (max : number) (a : Size.t) : Size.t :=
  if h then Size.new (Size.width a) max else Size.new max (Size.height a).

Definition placed (cursor : number * number) (r : nat) (c : Prim2DBase) : Prim2DBase :=
  set_layoutArea r (set_layoutAreaPos (Vector2.new cursor.1 cursor.2) c).

(** The bodies of the two loops of [StackPanelLayoutEngine.updateLayout]. *)
Definition measure_body `{Host} {E : Type} (h : bool) (max : number) (child : nat)
  : M (State E) number :=
  c <- deref child ;;
  let layoutArea := layoutArea c in
  call_computeArea (margin c) (actualSize c) layoutArea ;;
  a <- size_of layoutArea ;;
  ret (Math_max max (if h then Size.height a else Size.width a)).

Definition place_body {E : Type} (h : bool) (max : number)
    (cursor : number * number) : nat -> M (State E) (number * number) :=
  let '(x, y) := cursor in
  fun child =>
  assign child (set_layoutAreaPos (Vector2.new x y)) ;;
  c <- deref child ;;
  let layoutArea := layoutArea c in
  a <- size_of layoutArea ;;
  if h then
    let x := add x (Size.width a) in
    r <- new_Size (Size.new (Size.width a) max) ;;
    assign child (set_layoutArea r) ;;
    ret (x, y)
  else
    let y := add y (Size.height a) in
    r <- new_Size (Size.new max (Size.height a)) ;;
    assign child (set_layoutArea r) ;;
    ret (x, y).

(** The nodes behind the references [cs], the layout areas of nodes, and
    the margin-adjusted areas of the nodes behind [cs]. *)
Definition nodes {E : Type} (s : State E) (cs : list nat) : list Prim2DBase :=
  omap (prims s !!.) cs.

Definition areas (zs : list Size.t) (ns : list Prim2DBase) : list Size.t :=
  omap (fun n => zs !! layoutArea n) ns.

Definition adjustedAreas `{Host} {E : Type} (s : State E) (cs : list nat) : list Size.t :=
  omap (adjustedArea (sizes s)) (nodes s cs).

(** [max(h0..hN-1)] of a list of numbers, with [Math.max]. *)
Definition maximum (l : list number) : number :=
  match l with
  | [] => num 0
  | h :: t => fold_left Math_max t h
  end.

(** The children [cs] have layout areas of their own: every child exists,
    its actualSize and its layoutArea are Size objects, the layoutArea
    objects of the children are pairwise distinct, and none of them is the
    actualSize object of a child. *)
Definition unshared {E : Type} (s : State E) (cs : list nat) : Prop :=
  ∃ ns, Forall2 (fun c n => prims s !! c = Some n) cs ns ∧
        NoDup (layoutArea <$> ns) ∧
        (∀ r, r ∈ (actualSize <$> ns) → r ∉ (layoutArea <$> ns)) ∧
        (∀ r, r ∈ (actualSize <$> ns) ++ (layoutArea <$> ns) → is_Some (sizes s !! r)).

(** What the measure pass needs of the nodes as it meets them, one after
    the other, and what [unshared] provides: the layoutArea object of a
    node is not its own actualSize object, and is neither the layoutArea
    object nor the actualSize object of a node that comes after it. *)
Fixpoint separate (ns : list Prim2DBase) : Prop :=
  match ns with
  | [] => True
  | n :: rest =>
      actualSize n ≠ layoutArea n ∧
      (∀ n', n' ∈ rest → layoutArea n' ≠ layoutArea n ∧ actualSize n' ≠ layoutArea n) ∧
      separate rest
  end.

(** The outcome of a horizontal stack layout of the children [cs], from the
    state [before] to the state [after], when the common height that the
    children receive is [cross]: the first child is at x = 0, every other
    child is at the x of the child before it plus that child's width, every
    child is at y = 0, has the height [cross] and keeps its margin-adjusted
    width. *)
Definition horizontal_stack_layout `{Host} {E : Type} (cross : number)
    (before after : State E) (cs : list nat) : Prop :=
  ∀ i c, cs !! i = Some c →
    ∃ old adjusted new area,
      prims before !! c = Some old ∧
      adjustedArea (sizes before) old = Some adjusted ∧
      prims after !! c = Some new ∧
      sizes after !! layoutArea new = Some area ∧
      Vector2.y (layoutAreaPos new) = num 0 ∧
      Size.width area = Size.width adjusted ∧
      Size.height area = cross ∧
      match i with
      | O => Vector2.x (layoutAreaPos new) = num 0
      | S j =>
          ∃ c' prev width,
            cs !! j = Some c' ∧ prims after !! c' = Some prev ∧
            Size.width <$> sizes after !! layoutArea prev = Some width ∧
            Vector2.x (layoutAreaPos new) = add (Vector2.x (layoutAreaPos prev)) width
      end.

(** The inputs on which [StackPanelLayoutEngine.updateLayout] is bound to
    complete: the node exists, and so do its children, their actualSize
    objects and their layoutArea objects. *)
Definition stack_ready (s : State StackPanelLayoutEngine.t) (prim : nat) : Prop :=
  ∃ p, prims s !! prim = Some p ∧
       ∀ c, c ∈ children p →
         ∃ n, prims s !! c = Some n ∧
              is_Some (sizes s !! actualSize n) ∧ is_Some (sizes s !! layoutArea n).

(** *** Grid layout *)

(** A method body that leaves a part [f] of the state as it was, whether
    it completes normally or throws; so for the primitives, and for the
    Size objects. *)
Definition keeps {E A B : Type} (f : State E -> B) (m : M (State E) A) : Prop :=
  ∀ s, f (m s).2 = f s.

Definition keeps_prims {E A : Type} (m : M (State E) A) : Prop := keeps prims m.

Definition keeps_sizes {E A : Type} (m : M (State E) A) : Prop := keeps sizes m.

(** A method body that writes no Size object that exists, and may make new
    ones. *)
Definition appends_sizes {E A : Type} (m : M (State E) A) : Prop :=
  ∀ s, ∃ l, sizes (m s).2 = sizes s ++ l.

(** Following the specification of the grid placement pass ("assign each
    child's layoutArea and layoutAreaPos from its cell's resolved row/column
    extents and cumulative offsets"): the extent of the cell that [pgi]
    designates and the offset of that cell, when the lengths involved are
    resolved. A row definition keeps its resolved length in [widthPixels], a
    column definition in [heightPixels]. *)
Definition cell_rectangle (e : GridPanelLayoutEngine.t) (pgi : PrimitiveGridInfo.t)
  : option (Size.t * Vector2.t) :=
  let i := Z.to_nat (PrimitiveGridInfo.row pgi) in
  let j := Z.to_nat (PrimitiveGridInfo.column pgi) in
  row ← GridPanelLayoutEngine._rows e !! i;
  col ← GridPanelLayoutEngine._columns e !! j;
  h ← RowDefinition.widthPixels row;
  w ← ColumnDefinition.heightPixels col;
  let y := fold_left add
             (ToNumber ∘ RowDefinition.widthPixels <$> take i (GridPanelLayoutEngine._rows e))
             (num 0) in
  let x := fold_left add
             (ToNumber ∘ ColumnDefinition.heightPixels <$> take j (GridPanelLayoutEngine._columns e))
             (num 0) in
  Some (Size.new w h, Vector2.new x y).

(** The grid placement as the specification words it: after the call every
    child [c] of [cs] has the extent and the offset of its cell. *)
Definition grid_cells_assigned (before after : State GridPanelLayoutEngine.t)
    (cs : list nat) : Prop :=
  ∀ c, c ∈ cs →
    ∃ old pgi new area,
      prims before !! c = Some old ∧ _externalData old !! "grid" = Some pgi ∧
      prims after !! c = Some new ∧ sizes after !! layoutArea new = Some area ∧
      cell_rectangle (this before) pgi = Some (area, layoutAreaPos new).

(** The containment of failures as the specification words it: no call of
    [GridPanelLayoutEngine.updateLayout] lets an error escape as a throw. *)
Definition grid_failures_contained `{Host} : Prop :=
  ∀ (s : State GridPanelLayoutEngine.t) prim err,
    (GridPanelLayoutEngine.updateLayout prim s).1 ≠ Throw err.

(** The bodies of the loops of [GridPanelLayoutEngine._updateCellsList]:
    the cell loop, the row loop around it, and the loop over the children. *)
Definition cell_body (i j : nat) : M (State GridPanelLayoutEngine.t) unit :=
  let cell := new_CellInfo in
  cs <- GridPanelLayoutEngine.cells ;;
  match array_get cs (Z.of_nat i) with
  | Some r =>
      e <- get_this ;;
      set_this (GridPanelLayoutEngine.set_cells (Some (array_set cs i (array_set r j cell))) e)
  | None => throw TypeError
  end.

Definition row_body (i : nat) : M (State GridPanelLayoutEngine.t) unit :=
  cs <- GridPanelLayoutEngine.cells ;;
  e <- get_this ;;
  set_this (GridPanelLayoutEngine.set_cells (Some (array_set cs i [])) e) ;;
  e <- get_this ;;
  let cl := length (GridPanelLayoutEngine._columns e) in
  forM_ (seq 0 cl) (cell_body i).

Definition placement_body (child : nat) : M (State GridPanelLayoutEngine.t) unit :=
  pgi <- getExternalData child "grid" ;;
  match pgi with
  | Some pgi =>
      cs <- GridPanelLayoutEngine.cells ;;
      match array_get cs (PrimitiveGridInfo.row pgi) with
      | Some r =>
          let cell := array_get r (PrimitiveGridInfo.column pgi) in
          ret tt
      | None => throw TypeError
      end
  | None => throw TypeError
  end.

(** The cell table has [n] rows. *)
Definition rows_built (n : nat) (s : State GridPanelLayoutEngine.t) : Prop :=
  ∃ cs, GridPanelLayoutEngine._cells (this s) = Some cs ∧ length cs = n.

(** The cell table has [i + 1] rows, the last of which is an array. *)
Definition row_open (i : nat) (s : State GridPanelLayoutEngine.t) : Prop :=
  ∃ cs r, GridPanelLayoutEngine._cells (this s) = Some cs ∧
          length cs = S i ∧ cs !! i = Some (Some r).

(** The cell table of [rl] rows of [cl] cells each. *)
Definition full_table (rl cl : nat) : list (option (list (option CellInfo))) :=
  replicate rl (Some (replicate cl (Some new_CellInfo))).

(** A child that the placement loop of the grid accepts: it exists, it has
    a ["grid"] entry, and the row of that entry is one of the [rl] rows. *)
Definition placeable (s : gmap nat Prim2DBase) (rl : nat) (c : nat) : Prop :=
  ∃ n pgi, s !! c = Some n ∧ _externalData n !! "grid" = Some pgi ∧
           0 ≤ PrimitiveGridInfo.row pgi < Z.of_nat rl.

(** The state while the engine [e0] builds its cell table: the table so
    far is [table], the nodes are [ps], the Size objects [zs]. *)
Definition building (e0 : GridPanelLayoutEngine.t) (ps : gmap nat Prim2DBase)
    (zs : list Size.t) (table : list (option (list (option CellInfo))))
  : State GridPanelLayoutEngine.t :=
  {| this := GridPanelLayoutEngine.set_cells (Some table) e0; prims := ps; sizes := zs |}.

(** The engine [e] with its cell table built. *)
Definition with_table (e : GridPanelLayoutEngine.t) : GridPanelLayoutEngine.t :=
  GridPanelLayoutEngine.set_cells
    (Some (full_table (length (GridPanelLayoutEngine._rows e))
                      (length (GridPanelLayoutEngine._columns e)))) e.

(** The inputs on which [GridPanelLayoutEngine.updateLayout] is bound to
    complete: the node exists, and either the cell table is built already
    or the placement loop accepts every child. *)
Definition grid_ready (s : State GridPanelLayoutEngine.t) (prim : nat) : Prop :=
  ∃ p, prims s !! prim = Some p ∧
       (is_Some (GridPanelLayoutEngine._cells (this s)) ∨
        ∀ c, c ∈ children p →
          placeable (prims s) (length (GridPanelLayoutEngine._rows (this s))) c).

(** *** Canvas layout *)

(** A method body that writes no primitive outside of the set [P]. *)
Definition writes_within {E A : Type} (P : nat -> Prop) (m : M (State E) A) : Prop :=
  ∀ s r, ¬ P r → prims (m s).2 !! r = prims s !! r.

(** The Size object that [_doUpdate] assigns to a node [c] among the nodes
    [s]: its own actualSize for a Canvas2D, the actualSize of its owner for
    a direct child of a Canvas2D, the contentArea of its parent otherwise;
    [None] where the reference to read through is null or dangling. *)
Definition canvas_area (s : gmap nat Prim2DBase) (c : Prim2DBase) : option nat :=
  if isCanvas2D c then Some (actualSize c)
  else if default false (isCanvas2D <$> (parent c ≫= (s !!.)))
       then actualSize <$> (owner c ≫= (s !!.))
       else contentArea <$> (parent c ≫= (s !!.)).

(** A node with its layoutArea forgotten, and two stores that differ in the
    layoutArea of their nodes at most. *)
Definition without_area (c : Prim2DBase) : Prim2DBase :=
  set_layoutArea 0%nat c.

Definition same_but_areas (s1 s2 : gmap nat Prim2DBase) : Prop :=
  ∀ r, without_area <$> s1 !! r = without_area <$> s2 !! r.

(** The inputs on which [CanvasLayoutEngine.updateLayout] is bound to
    complete: the node exists, and so does each of its children, with the
    node it has to read its area from. *)
Definition canvas_ready (s : State CanvasLayoutEngine.t) (prim : nat) : Prop :=
  ∃ p, prims s !! prim = Some p ∧
       ∀ c, c ∈ children p →
         ∃ n, prims s !! c = Some n ∧ is_Some (canvas_area (prims s) n).

(** *** Completion *)

(** An [updateLayout] method that completes normally on every input that
    is [ready] for it. *)
Definition completes_when {E : Type} (ready : State E -> nat -> Prop)
    (updateLayout : nat -> M (State E) unit) : Prop :=
  ∀ prim s, ready s prim → ∃ s', updateLayout prim s = (Normal tt, s').

(** ** Concrete scenes *)

Module Scene.

Definition size (w h : Z) : Size.t := Size.new (num w) (num h).

(** The thicknesses of the scenes are of fixed pixel amounts: the
    adjusted area is the source area grown by them. The thickness that is
    object [0] has no margin at all; the thickness that is object [1] has a
    top margin of -7. *)
Definition grown (left top right bottom : Z) (sourceArea : Size.t) : Size.t :=
  Size.new (add (add (num left) (Size.width sourceArea)) (num right))
           (add (add (num bottom) (Size.height sourceArea)) (num top)).

Definition no_margin : PrimitiveThickness := 0%nat.

Definition negative_top : PrimitiveThickness := 1%nat.

Definition host : Host :=
  {| flagLayoutDirty := 8;
     sizeProperty_flagId := 1;
     computeArea := fun margin sourceArea _ =>
       match margin with
       | O => grown 0 0 0 0 sourceArea
       | _ => grown 0 (-7) 0 0 sourceArea
       end |}.

(** The node that is object [id]: its actualSize, contentArea and
    layoutArea are the Size objects [3 id], [3 id + 1] and [3 id + 2]. *)
Definition prim (id : nat) (canvas : bool) (parent : option nat) (children : list nat)
    (margin : PrimitiveThickness) (flags : Z) (data : gmap string PrimitiveGridInfo.t)
  : Prim2DBase :=
  {| isCanvas2D := canvas; parent := parent; owner := Some 0%nat;
     children := children; actualSize := 3 * id;
     contentArea := 3 * id + 1; margin := margin;
     layoutArea := 3 * id + 2; layoutAreaPos := Vector2.new (num 0) (num 0);
     _flags := flags; _externalData := data |}.

(** A canvas (object 0) of 800 x 600 with one group (object 1) of
    400 x 300, content area 380 x 280, that holds two children (objects 2
    and 3) of 50 x 20 and 30 x 40, placed in the cells (0, 0) and (0, 1) of
    a grid. Every layoutArea is a Size object of its own, 0 x 0. The canvas
    and the group are layout-dirty. *)
Definition canvas : Prim2DBase :=
  prim 0 true None [1%nat] no_margin 8 ∅.

Definition group : Prim2DBase :=
  prim 1 false (Some 0%nat) [2%nat; 3%nat] no_margin 12 ∅.

Definition first : Prim2DBase :=
  prim 2 false (Some 1%nat) [] no_margin 0
    {[ "grid" := PrimitiveGridInfo.new 0 0 None None ]}.

Definition second : Prim2DBase :=
  prim 3 false (Some 1%nat) [] no_margin 0
    {[ "grid" := PrimitiveGridInfo.new 0 1 None None ]}.

Definition tree : gmap nat Prim2DBase :=
  <[0%nat := canvas]> (<[1%nat := group]> (<[2%nat := first]> (<[3%nat := second]> ∅))).

Definition tree_sizes : list Size.t :=
  [ size 800 600; size 800 600; size 0 0;
    size 400 300; size 380 280; size 0 0;
    size 50 20; size 50 20; size 0 0;
    size 30 40; size 30 40; size 0 0 ].

(** The same tree where the second child carries no ["grid"] entry. *)
Definition bare : Prim2DBase :=
  prim 3 false (Some 1%nat) [] no_margin 0 ∅.

Definition tree_without_grid : gmap nat Prim2DBase := <[3%nat := bare]> tree.

(** A dirty panel (object 0) whose only child (object 1) is 50 x 2 with
    a top margin of -7, hence a margin-adjusted height of -5. *)
Definition panel : Prim2DBase :=
  prim 0 false None [1%nat] no_margin 8 ∅.

Definition sunk : Prim2DBase :=
  prim 1 false (Some 0%nat) [] negative_top 0 ∅.

Definition negative : gmap nat Prim2DBase :=
  <[0%nat := panel]> (<[1%nat := sunk]> ∅).

Definition negative_sizes : list Size.t :=
  [ size 100 100; size 100 100; size 0 0;
    size 50 2; size 50 2; size 0 0 ].

(** A grid of one row of 100 pixels and two columns of 50 and 30 pixels. *)
Definition grid : GridPanelLayoutEngine.t :=
  @GridPanelLayoutEngine.new host
    {| GridPanelLayoutEngine.rows := Some ["100"];
       GridPanelLayoutEngine.columns := Some ["50"; "30"] |}.

Definition horizontal : StackPanelLayoutEngine.t :=
  (StackPanelLayoutEngine.lock (@StackPanelLayoutEngine.new host)).2.

Definition vertical : StackPanelLayoutEngine.t :=
  (StackPanelLayoutEngine.lock
     (StackPanelLayoutEngine.set_isHorizontal false
        (@StackPanelLayoutEngine.new host)).2).2.

(** The tree, and the tree without the ["grid"] entry, in the hands of an
    engine [e]. *)
Definition start {E : Type} (e : E) : State E :=
  {| this := e; prims := tree; sizes := tree_sizes |}.

Definition start_without_grid {E : Type} (e : E) : State E :=
  {| this := e; prims := tree_without_grid; sizes := tree_sizes |}.

(** The tree as [CanvasLayoutEngine.updateLayout] on the group leaves it,
    with the group marked layout-dirty again: the two children hold the
    contentArea object of the group as their layoutArea. *)
Definition shared : State StackPanelLayoutEngine.t :=
  let out := (CanvasLayoutEngine.updateLayout (H := host) 1%nat
                (start CanvasLayoutEngine.Singleton)).2 in
  {| this := horizontal;
     prims := alter (set_flags 12) 1%nat (prims out);
     sizes := sizes out |}.

End Scene.

(** ** Further notions *)

(** A method body that leaves the observation [f] of every primitive as it
    was, whether it completes normally or throws. *)
Definition preserves {E A B : Type} (f : Prim2DBase -> B) (m : M (State E) A) : Prop :=
  ∀ s r, f <$> prims (m s).2 !! r = f <$> prims s !! r.

(** What a node is apart from its layout and its flags: its class, its tree
    relations, the Size objects that are its actualSize and its
    contentArea, its margin and its external data. *)
Definition skeleton (p : Prim2DBase)
  : bool * option nat * option nat * list nat * nat * nat
    * PrimitiveThickness * gmap string PrimitiveGridInfo.t :=
  (isCanvas2D p, parent p, owner p, children p, actualSize p, contentArea p,
   margin p, _externalData p).

(** The outcome of a vertical stack layout of the children [cs], from the
    state [before] to the state [after], when the common width that the
    children receive is [cross]: the first child is at y = 0, every other
    child is at the y of the child before it plus that child's height,
    every child is at x = 0, has the width [cross] and keeps its
    margin-adjusted height. *)
Definition vertical_stack_layout `{Host} {E : Type} (cross : number)
    (before after : State E) (cs : list nat) : Prop :=
  ∀ i c, cs !! i = Some c →
    ∃ old adjusted new area,
      prims before !! c = Some old ∧
      adjustedArea (sizes before) old = Some adjusted ∧
      prims after !! c = Some new ∧
      sizes after !! layoutArea new = Some area ∧
      Vector2.x (layoutAreaPos new) = num 0 ∧
      Size.height area = Size.height adjusted ∧
      Size.width area = cross ∧
      match i with
      | O => Vector2.y (layoutAreaPos new) = num 0
      | S j =>
          ∃ c' prev height,
            cs !! j = Some c' ∧ prims after !! c' = Some prev ∧
            Size.height <$> sizes after !! layoutArea prev = Some height ∧
            Vector2.y (layoutAreaPos new) = add (Vector2.y (layoutAreaPos prev)) height
      end.

(** A node with its layout-dirty flag cleared, as [_clearFlags] leaves it. *)
Definition cleared `{Host} (p : Prim2DBase) : Prim2DBase :=
  set_flags (Z.land (_flags p) (Z.lnot flagLayoutDirty)) p.

(** *** Dimension strings *)

(** A string of decimal digits only, and a string free of white space. *)
Fixpoint digits (s : string) : bool :=
  match s with
  | EmptyString => true
  | String c r => isDigit c && digits r
  end.

Fixpoint solid (s : string) : bool :=
  match s with
  | EmptyString => true
  | String c r => negb (isWhiteSpace c) && solid r
  end.

(** The number that a string of decimal digits denotes. *)
Fixpoint decimalValue (s : string) : Z :=
  match s with
  | EmptyString => 0
  | String c r => digitValue c * 10 ^ Z.of_nat (String.length r) + decimalValue r
  end.

(** The optional sign that [parseFloat] reads first. *)
Definition sign_split (s : string) : bool * string :=
  match s with
  | String "-" r => (true, r)
  | String "+" r => (false, r)
  | _ => (false, s)
  end.

(** The three shapes of a parsed dimension: Auto with no value, Stars with
    a weight and no pixels, Pixels with a length that is also the pixels. *)
Definition dimension_shape (v vp : option number) (t : Z) : Prop :=
  (t = GridDimensionDefinition.Auto ∧ v = None ∧ vp = None) ∨
  (t = GridDimensionDefinition.Stars ∧ is_Some v ∧ vp = None) ∨
  (t = GridDimensionDefinition.Pixels ∧ is_Some v ∧ vp = v).

(** *** Configuring a stack panel *)

(** What a holder of a StackPanelLayoutEngine can call on it to configure
    it, and the instance after a sequence of such calls. *)
Inductive method : Type :=
  | Lock
  | SetIsHorizontal (val : bool).

Definition call (m : method) (e : StackPanelLayoutEngine.t) : StackPanelLayoutEngine.t :=
  match m with
  | Lock => (StackPanelLayoutEngine.lock e).2
  | SetIsHorizontal val => (StackPanelLayoutEngine.set_isHorizontal val e).2
  end.

Definition calls (ms : list method) (e : StackPanelLayoutEngine.t) : StackPanelLayoutEngine.t :=
  fold_left (fun e m => call m e) ms e.

(** * Properties *)

(** ** Reasoning about method bodies *)

Lemma bind_Normal {S A B : Type} (m : M S A) (f : A -> M S B) s b s' :
  bind m f s = (Normal b, s') →
  ∃ a s1, m s = (Normal a, s1) ∧ f a s1 = (Normal b, s').
Proof.
  unfold bind. destruct (m s) as [[a|e] s1]; intros Hm.
  - by exists a, s1.
  - discriminate.
Qed.

Lemma bind_Throw {S A B : Type} (m : M S A) (f : A -> M S B) s e s' :
  bind m f s = (Throw e, s') →
  m s = (Throw e, s') ∨ ∃ a s1, m s = (Normal a, s1) ∧ f a s1 = (Throw e, s').
Proof.
  unfold bind. destruct (m s) as [[a|e'] s1]; intros Hm.
  - right. by exists a, s1.
  - left. by injection Hm as -> ->.
Qed.

Lemma bind_run {S A B : Type} (m : M S A) (f : A -> M S B) s a s1 :
  m s = (Normal a, s1) → bind m f s = f a s1.
Proof. unfold bind. by intros ->. Qed.

Lemma bind_throws {S A B : Type} (m : M S A) (f : A -> M S B) s e s' :
  m s = (Throw e, s') → bind m f s = (Throw e, s').
Proof. unfold bind. by intros ->. Qed.

Section Access.
Context {E : Type}.
Implicit Types (s : State E) (p : Prim2DBase).

Lemma State_eta s : {| this := this s; prims := prims s; sizes := sizes s |} = s.
Proof. by destruct s. Qed.

Lemma get_this_run s : get_this s = (Normal (this s), s).
Proof. reflexivity. Qed.

Lemma set_this_run (e : E) s :
  set_this e s = (Normal tt, {| this := e; prims := prims s; sizes := sizes s |}).
Proof. reflexivity. Qed.

Lemma deref_Some r s p : prims s !! r = Some p → deref r s = (Normal p, s).
Proof. unfold deref, bind, get, ret. by intros ->. Qed.

Lemma deref_None r s : prims s !! r = None → deref r s = (Throw TypeError, s).
Proof. unfold deref, bind, get, throw. by intros ->. Qed.

Lemma deref_Normal r s p s' :
  deref r s = (Normal p, s') → s' = s ∧ prims s !! r = Some p.
Proof.
  unfold deref, bind, get, ret, throw.
  destruct (prims s !! r) as [q|]; [|discriminate]. by intros [= -> ->].
Qed.

Lemma deref_Throw r s e s' :
  deref r s = (Throw e, s') → s' = s ∧ prims s !! r = None.
Proof.
  unfold deref, bind, get, ret, throw.
  destruct (prims s !! r) as [q|]; [discriminate|]. by intros [= _ <-].
Qed.

Lemma deref_state r s : (deref r s).2 = s.
Proof. unfold deref, bind, get, ret, throw. simpl. by destruct (prims s !! r). Qed.

Lemma assign_Some r f s p :
  prims s !! r = Some p →
  assign r f s =
    (Normal tt, {| this := this s; prims := <[r := f p]> (prims s); sizes := sizes s |}).
Proof. intros Hp. unfold assign. by rewrite (bind_run _ _ _ _ _ (deref_Some _ _ _ Hp)). Qed.

Lemma assign_Normal r f s u s' :
  assign r f s = (Normal u, s') →
  ∃ p, prims s !! r = Some p ∧
       s' = {| this := this s; prims := <[r := f p]> (prims s); sizes := sizes s |}.
Proof.
  destruct (prims s !! r) as [p|] eqn:Hp.
  - rewrite (assign_Some _ _ _ _ Hp). intros [= <- <-]. by exists p.
  - unfold assign, bind. by rewrite (deref_None _ _ Hp).
Qed.

Lemma assign_Throw r f s e s' : assign r f s = (Throw e, s') → s' = s.
Proof.
  destruct (prims s !! r) as [p|] eqn:Hp.
  - by rewrite (assign_Some _ _ _ _ Hp).
  - unfold assign, bind. rewrite (deref_None _ _ Hp). by intros [= _ ->].
Qed.

Lemma size_of_Some r s a : sizes s !! r = Some a → size_of r s = (Normal a, s).
Proof. unfold size_of, bind, get, ret. by intros ->. Qed.

Lemma size_of_None r s : sizes s !! r = None → size_of r s = (Throw TypeError, s).
Proof. unfold size_of, bind, get, throw. by intros ->. Qed.

Lemma size_of_state r s : (size_of r s).2 = s.
Proof. unfold size_of, bind, get, ret, throw. simpl. by destruct (sizes s !! r). Qed.

Lemma write_size_Some r a s old :
  sizes s !! r = Some old →
  write_size r a s =
    (Normal tt, {| this := this s; prims := prims s; sizes := <[r := a]> (sizes s) |}).
Proof. intros Hr. unfold write_size. by rewrite (bind_run _ _ _ _ _ (size_of_Some _ _ _ Hr)). Qed.

Lemma write_size_None r a s :
  sizes s !! r = None → write_size r a s = (Throw TypeError, s).
Proof. intros Hr. unfold write_size. by rewrite (bind_throws _ _ _ _ _ (size_of_None _ _ Hr)). Qed.

Lemma new_Size_run a s :
  new_Size a s =
    (Normal (length (sizes s)),
     {| this := this s; prims := prims s; sizes := sizes s ++ [a] |}).
Proof. reflexivity. Qed.

(** [margin.computeArea] on two Size objects that exist rewrites the
    second; on a reference that designates none it throws and writes
    nothing. *)
Lemma call_computeArea_Some `{Host} margin sourceArea area s src dst :
  sizes s !! sourceArea = Some src → sizes s !! area = Some dst →
  call_computeArea margin sourceArea area s =
    (Normal tt, {| this := this s; prims := prims s;
                   sizes := <[area := computeArea margin src dst]> (sizes s) |}).
Proof.
  intros Hsrc Hdst. unfold call_computeArea.
  rewrite (bind_run _ _ _ _ _ (size_of_Some _ _ _ Hsrc)).
  rewrite (bind_run _ _ _ _ _ (size_of_Some _ _ _ Hdst)).
  by apply write_size_Some with dst.
Qed.

Lemma call_computeArea_cases `{Host} margin sourceArea area s :
  (∃ src dst, sizes s !! sourceArea = Some src ∧ sizes s !! area = Some dst ∧
     call_computeArea margin sourceArea area s =
       (Normal tt, {| this := this s; prims := prims s;
                      sizes := <[area := computeArea margin src dst]> (sizes s) |})) ∨
  call_computeArea margin sourceArea area s = (Throw TypeError, s).
Proof.
  destruct (sizes s !! sourceArea) as [src|] eqn:Hsrc.
  - destruct (sizes s !! area) as [dst|] eqn:Hdst.
    + left. exists src, dst. split; [done|]. split; [done|].
      by apply call_computeArea_Some.
    + right. unfold call_computeArea.
      rewrite (bind_run _ _ _ _ _ (size_of_Some _ _ _ Hsrc)).
      by rewrite (bind_throws _ _ _ _ _ (size_of_None _ _ Hdst)).
  - right. unfold call_computeArea.
    by rewrite (bind_throws _ _ _ _ _ (size_of_None _ _ Hsrc)).
Qed.

Lemma _isFlagSet_Some prim flag s p :
  prims s !! prim = Some p →
  _isFlagSet prim flag s = (Normal (negb (Z.land (_flags p) flag =? 0)), s).
Proof. intros Hp. unfold _isFlagSet. by rewrite (bind_run _ _ _ _ _ (deref_Some _ _ _ Hp)). Qed.

Lemma _isFlagSet_None prim flag s :
  prims s !! prim = None → _isFlagSet prim flag s = (Throw TypeError, s).
Proof. intros Hp. unfold _isFlagSet. by rewrite (bind_throws _ _ _ _ _ (deref_None _ _ Hp)). Qed.

Lemma _isFlagSet_Normal prim flag s b s' :
  _isFlagSet prim flag s = (Normal b, s') →
  s' = s ∧ ∃ p, prims s !! prim = Some p ∧ b = negb (Z.land (_flags p) flag =? 0).
Proof.
  destruct (prims s !! prim) as [p|] eqn:Hp.
  - rewrite (_isFlagSet_Some _ _ _ _ Hp). intros [= <- <-]. eauto.
  - by rewrite (_isFlagSet_None _ _ _ Hp).
Qed.

Lemma _isFlagSet_Throw prim flag s e s' :
  _isFlagSet prim flag s = (Throw e, s') → s' = s.
Proof.
  destruct (prims s !! prim) as [p|] eqn:Hp.
  - by rewrite (_isFlagSet_Some _ _ _ _ Hp).
  - rewrite (_isFlagSet_None _ _ _ Hp). by intros [= _ ->].
Qed.

(** Clearing a flag leaves its bits reset, whatever the mask. *)
Lemma cleared_flag_is_clear (flags flag : Z) :
  Z.land (Z.land flags (Z.lnot flag)) flag = 0.
Proof.
  rewrite <- Z.land_assoc, (Z.land_comm (Z.lnot flag)), Z.land_lnot_diag.
  apply Z.land_0_r.
Qed.

Lemma _clearFlags_Normal `{Host} prim s u s' :
  _clearFlags prim flagLayoutDirty s = (Normal u, s') → clean (prims s') prim.
Proof.
  intros (p & Hp & ->)%assign_Normal. eexists. split.
  - simpl. apply lookup_insert_eq.
  - unfold layoutDirty. simpl. by rewrite cleared_flag_is_clear.
Qed.

Lemma _clearFlags_Some `{Host} prim s p :
  prims s !! prim = Some p →
  _clearFlags prim flagLayoutDirty s =
    (Normal tt, {| this := this s; prims := <[prim := cleared p]> (prims s);
                   sizes := sizes s |}).
Proof. intros Hp. unfold _clearFlags. by rewrite (assign_Some _ _ _ _ Hp). Qed.

Lemma getExternalData_Some child key s n :
  prims s !! child = Some n →
  getExternalData child key s = (Normal (_externalData n !! key), s).
Proof. intros Hn. unfold getExternalData. by rewrite (bind_run _ _ _ _ _ (deref_Some _ _ _ Hn)). Qed.

Lemma getExternalData_None child key s :
  prims s !! child = None → getExternalData child key s = (Throw TypeError, s).
Proof. intros Hn. unfold getExternalData. by rewrite (bind_throws _ _ _ _ _ (deref_None _ _ Hn)). Qed.

Lemma deref_opt_Some o s n :
  o ≫= (prims s !!.) = Some n → deref_opt o s = (Normal n, s).
Proof. destruct o as [r|]; [|done]. simpl. apply deref_Some. Qed.

Lemma instanceof_Canvas2D_run o s :
  instanceof_Canvas2D o s
    = (Normal (default false (isCanvas2D <$> (o ≫= (prims s !!.)))), s).
Proof.
  unfold instanceof_Canvas2D, bind, get, ret. do 2 f_equal.
  destruct o as [r|]; simpl; [|done]. by destruct (prims s !! r).
Qed.

End Access.

(** Splits a hypothesis that a method body completed normally into one
    hypothesis per statement of the body. *)
Ltac step_Normal H :=
  let a := fresh "a" in
  let s1 := fresh "s" in
  let H1 := fresh "Hstep" in
  apply bind_Normal in H as (a & s1 & H1 & H).

(** A counting loop whose body completes normally and takes the invariant
    from one index to the next completes normally. *)
Lemma forM_seq_Normal {S : Type} (Q : nat -> S -> Prop) (body : nat -> M S unit) n :
  (∀ i s, Q i s → ∃ s', body i s = (Normal tt, s') ∧ Q (Datatypes.S i) s') →
  ∀ start s, Q start s →
    ∃ s', forM_ (seq start n) body s = (Normal tt, s') ∧ Q (start + n)%nat s'.
Proof.
  intros Hbody. induction n as [|n IH]; intros start s HQ.
  - exists s. by rewrite Nat.add_0_r.
  - destruct (Hbody _ _ HQ) as (s1 & Hrun & HQ1).
    destruct (IH _ _ HQ1) as (s2 & Hrun2 & HQ2).
    exists s2. split.
    + unfold forM_. cbn [seq foldM]. by rewrite (bind_run _ _ _ _ _ Hrun).
    + by rewrite Nat.add_succ_r.
Qed.

(** A loop over a list whose body completes normally on every element and
    keeps the invariant completes normally and keeps it. *)
Lemma foldM_Normal {S A B : Type} (Q : S -> Prop) (body : B -> A -> M S B) (l : list A) :
  (∀ b a s, a ∈ l → Q s → ∃ b' s', body b a s = (Normal b', s') ∧ Q s') →
  ∀ b s, Q s → ∃ b' s', foldM body b l s = (Normal b', s') ∧ Q s'.
Proof.
  induction l as [|a l IH]; intros Hbody b s HQ.
  - by exists b, s.
  - destruct (Hbody b a s) as (b1 & s1 & Hrun & HQ1); [by left | done |].
    destruct (IH (fun b a s Ha => Hbody b a s (list_elem_of_further _ _ _ Ha)) b1 s1 HQ1)
      as (b2 & s2 & Hrun2 & HQ2).
    exists b2, s2. split; [|done]. cbn [foldM]. by rewrite (bind_run _ _ _ _ _ Hrun).
Qed.

(** *** What a method body leaves alone *)

Section Frame.
Context {E B : Type} (f : State E -> B).

Lemma keeps_ret {A : Type} (a : A) : keeps f (ret a).
Proof. by intros s. Qed.

Lemma keeps_throw {A : Type} e : keeps f (A := A) (throw e).
Proof. by intros s. Qed.

Lemma keeps_bind {A C : Type} (m : M (State E) A) (k : A -> M (State E) C) :
  keeps f m → (∀ a, keeps f (k a)) → keeps f (bind m k).
Proof.
  intros Hm Hk s. unfold bind. specialize (Hm s).
  destruct (m s) as [[a|e] s1]; simpl in *; [|done].
  by rewrite Hk.
Qed.

Lemma keeps_foldM {A C : Type} (body : C -> A -> M (State E) C) (l : list A) :
  (∀ b a, keeps f (body b a)) → ∀ b, keeps f (foldM body b l).
Proof.
  intros Hbody. induction l as [|a l IH]; intros b; simpl.
  - apply keeps_ret.
  - by apply keeps_bind.
Qed.

Lemma keeps_forM_ {A : Type} (l : list A) (body : A -> M (State E) unit) :
  (∀ a, keeps f (body a)) → keeps f (forM_ l body).
Proof. intros Hbody. by apply keeps_foldM. Qed.

Lemma keeps_run {A : Type} (m : M (State E) A) s c s' :
  keeps f m → m s = (c, s') → f s' = f s.
Proof. intros Hm Hrun. specialize (Hm s). by rewrite Hrun in Hm. Qed.

Lemma keeps_deref r : keeps f (deref r).
Proof. intros s. by rewrite deref_state. Qed.

Lemma keeps_deref_opt o : keeps f (deref_opt o).
Proof. destruct o; [apply keeps_deref | apply keeps_throw]. Qed.

Lemma keeps_size_of r : keeps f (size_of r).
Proof. intros s. by rewrite size_of_state. Qed.

Lemma keeps_get_this : keeps f get_this.
Proof. by intros s. Qed.

Lemma keeps_instanceof_Canvas2D o : keeps f (instanceof_Canvas2D o).
Proof. by intros s. Qed.

Lemma keeps__isFlagSet r flag : keeps f (_isFlagSet r flag).
Proof. apply keeps_bind; [apply keeps_deref|]. intros p. apply keeps_ret. Qed.

Lemma keeps_getExternalData r key : keeps f (getExternalData r key).
Proof. apply keeps_bind; [apply keeps_deref|]. intros p. apply keeps_ret. Qed.

End Frame.

Section Writes.
Context {E : Type}.

Lemma keeps_set_this {B : Type} (f : State E -> B) (e : E) :
  (∀ s, f {| this := e; prims := prims s; sizes := sizes s |} = f s) → keeps f (set_this e).
Proof. intros Hf s. apply Hf. Qed.

Lemma keeps_prims_write_size r a : keeps_prims (E := E) (write_size r a).
Proof.
  apply keeps_bind; [apply keeps_size_of|]. intros _. by intros s.
Qed.

Lemma keeps_prims_new_Size a : keeps_prims (E := E) (new_Size a).
Proof. by intros s. Qed.

Lemma keeps_prims_call_computeArea `{Host} margin sourceArea area :
  keeps_prims (E := E) (call_computeArea margin sourceArea area).
Proof.
  apply keeps_bind; [apply keeps_size_of|]. intros src.
  apply keeps_bind; [apply keeps_size_of|]. intros dst.
  apply keeps_prims_write_size.
Qed.

Lemma keeps_sizes_assign r g : keeps_sizes (E := E) (assign r g).
Proof.
  apply keeps_bind; [apply keeps_deref|]. intros p. by intros s.
Qed.

Lemma keeps_this_assign r g : keeps this (E := E) (assign r g).
Proof.
  apply keeps_bind; [apply keeps_deref|]. intros p. by intros s.
Qed.

Lemma keeps_this_write_size r a : keeps this (E := E) (write_size r a).
Proof.
  apply keeps_bind; [apply keeps_size_of|]. intros _. by intros s.
Qed.

Lemma keeps_this_new_Size a : keeps this (E := E) (new_Size a).
Proof. by intros s. Qed.

(** Making and not writing *)

Lemma appends_keeps {A : Type} (m : M (State E) A) : keeps_sizes m → appends_sizes m.
Proof. intros Hm s. exists []. by rewrite Hm, app_nil_r. Qed.

Lemma appends_bind {A C : Type} (m : M (State E) A) (k : A -> M (State E) C) :
  appends_sizes m → (∀ a, appends_sizes (k a)) → appends_sizes (bind m k).
Proof.
  intros Hm Hk s. unfold bind. destruct (Hm s) as [l Hl].
  destruct (m s) as [[a|e] s1]; simpl in *; [|by exists l].
  destruct (Hk a s1) as [l' Hl']. exists (l ++ l'). by rewrite Hl', Hl, app_assoc.
Qed.

Lemma appends_foldM {A C : Type} (body : C -> A -> M (State E) C) (l : list A) :
  (∀ b a, appends_sizes (body b a)) → ∀ b, appends_sizes (foldM body b l).
Proof.
  intros Hbody. induction l as [|a l IH]; intros b; simpl.
  - apply appends_keeps, keeps_ret.
  - by apply appends_bind.
Qed.

Lemma appends_new_Size a : appends_sizes (E := E) (new_Size a).
Proof. intros s. by exists [a]. Qed.

End Writes.

Section Within.
Context {E : Type} (P : nat -> Prop).

Lemma within_keeps {A : Type} (m : M (State E) A) : keeps_prims m → writes_within P m.
Proof. intros Hm s r _. by rewrite Hm. Qed.

Lemma within_bind {A B : Type} (m : M (State E) A) (f : A -> M (State E) B) :
  writes_within P m → (∀ a, writes_within P (f a)) → writes_within P (bind m f).
Proof.
  intros Hm Hf s r Hr. unfold bind. specialize (Hm s r Hr).
  destruct (m s) as [[a|e] s1]; simpl in *; [|done].
  by rewrite Hf.
Qed.

Lemma within_assign r f : P r → writes_within P (E := E) (assign r f).
Proof.
  intros HP s r' Hr'. destruct (assign r f s) as [[u|e] s'] eqn:Hrun; simpl.
  - apply assign_Normal in Hrun as (p & Hp & ->). simpl.
    apply lookup_insert_ne. by intros ->.
  - by apply assign_Throw in Hrun as ->.
Qed.

Lemma within_foldM {A B : Type} (body : B -> A -> M (State E) B) (l : list A) :
  (∀ b a, a ∈ l → writes_within P (body b a)) → ∀ b, writes_within P (foldM body b l).
Proof.
  induction l as [|a l IH]; intros Hbody b; simpl.
  - apply within_keeps, keeps_ret.
  - apply within_bind; [apply Hbody; by left|].
    intros b'. apply IH. intros b'' a' Ha'. apply Hbody. by right.
Qed.

End Within.

Section Preserves.
Context {E B : Type} (f : Prim2DBase -> B).

Lemma preserves_keeps {A : Type} (m : M (State E) A) : keeps_prims m → preserves f m.
Proof. intros Hm s r. by rewrite Hm. Qed.

Lemma preserves_bind {A C : Type} (m : M (State E) A) (k : A -> M (State E) C) :
  preserves f m → (∀ a, preserves f (k a)) → preserves f (bind m k).
Proof.
  intros Hm Hk s r. unfold bind. specialize (Hm s r).
  destruct (m s) as [[a|e] s1]; simpl in *; [|done].
  by rewrite Hk.
Qed.

Lemma preserves_foldM {A C : Type} (body : C -> A -> M (State E) C) (l : list A) :
  (∀ c a, preserves f (body c a)) → ∀ c, preserves f (foldM body c l).
Proof.
  intros Hbody. induction l as [|a l IH]; intros c; simpl.
  - apply preserves_keeps, keeps_ret.
  - by apply preserves_bind.
Qed.

Lemma preserves_assign r (g : Prim2DBase -> Prim2DBase) :
  (∀ p, f (g p) = f p) → preserves f (E := E) (assign r g).
Proof.
  intros Hg s r'. destruct (assign r g s) as [[u|e] s'] eqn:Hrun; simpl.
  - apply assign_Normal in Hrun as (p & Hp & ->). simpl.
    destruct (decide (r = r')) as [<-|Hne].
    + by rewrite lookup_insert_eq, Hp; simpl; rewrite Hg.
    + by rewrite lookup_insert_ne.
  - by apply assign_Throw in Hrun as ->.
Qed.

End Preserves.

Section Properties.
Context `{Host}.

(** *** The dirty-flag protocol of the three engines *)

Lemma clean_not_set {E : Type} prim (s : State E) :
  clean (prims s) prim → _isFlagSet prim flagLayoutDirty s = (Normal false, s).
Proof. intros (p & Hp & Hc). by rewrite (_isFlagSet_Some _ _ _ _ Hp), <- Hc. Qed.

Lemma Canvas_clears : clears_dirty_flag CanvasLayoutEngine.updateLayout.
Proof.
  intros prim s s' Hrun. unfold CanvasLayoutEngine.updateLayout in Hrun.
  step_Normal Hrun. apply _isFlagSet_Normal in Hstep as (-> & p & Hp & ->).
  destruct (negb _) eqn:Hd.
  - do 2 step_Normal Hrun. by eapply _clearFlags_Normal.
  - injection Hrun as <-. exists p. by split.
Qed.

Lemma Stack_clears : clears_dirty_flag StackPanelLayoutEngine.updateLayout.
Proof.
  intros prim s s' Hrun. unfold StackPanelLayoutEngine.updateLayout in Hrun.
  step_Normal Hrun. apply _isFlagSet_Normal in Hstep as (-> & p & Hp & ->).
  destruct (negb _) eqn:Hd.
  - do 5 step_Normal Hrun. by eapply _clearFlags_Normal.
  - injection Hrun as <-. exists p. by split.
Qed.

Lemma Grid_clears : clears_dirty_flag GridPanelLayoutEngine.updateLayout.
Proof.
  intros prim s s' Hrun. unfold GridPanelLayoutEngine.updateLayout in Hrun.
  step_Normal Hrun. apply _isFlagSet_Normal in Hstep as (-> & p & Hp & ->).
  destruct (negb _) eqn:Hd.
  - do 2 step_Normal Hrun. by eapply _clearFlags_Normal.
  - injection Hrun as <-. exists p. by split.
Qed.

(** *** Locking *)

Lemma lock_locked (e : LayoutEngineBase.t) :
  LayoutEngineBase.isLocked e = Some true → LayoutEngineBase.lock e = (false, e).
Proof. unfold LayoutEngineBase.isLocked, LayoutEngineBase.lock. by intros ->. Qed.

Lemma lock_times_locked n (e : LayoutEngineBase.t) :
  LayoutEngineBase.isLocked e = Some true → lock_times n e = (replicate n false, e).
Proof.
  intros He. induction n as [|n IH]; simpl; [done|].
  by rewrite (lock_locked _ He), IH.
Qed.

(** C4. On an instance as its constructor leaves it (whatever dirty mask
    the subclass stores), [isLocked()] does not report true; of [n + 1]
    calls of [lock()] in a row the first returns true and the [n] next
    return false; the first call leaves the instance locked with nothing
    else changed, and the later calls leave it exactly as the first did;
    so after [k] calls [isLocked()] reports true exactly when [k >= 1]. *)
Theorem lock_is_one_way (mask : Z) (n k : nat) :
  let fresh :=
    {| LayoutEngineBase.layoutDirtyOnPropertyChangedMask := mask;
       LayoutEngineBase._isLocked := LayoutEngineBase._isLocked LayoutEngineBase.new |} in
  let locked :=
    {| LayoutEngineBase.layoutDirtyOnPropertyChangedMask := mask;
       LayoutEngineBase._isLocked := Some true |} in
  LayoutEngineBase.isLocked fresh ≠ Some true ∧
  LayoutEngineBase.lock fresh = (true, locked) ∧
  lock_times (S n) fresh = (true :: replicate n false, locked) ∧
  LayoutEngineBase.lock locked = (false, locked) ∧
  (LayoutEngineBase.isLocked (lock_times k fresh).2 = Some true ↔ (1 ≤ k)%nat).
Proof.
  intros fresh locked.
  assert (Hl : LayoutEngineBase.isLocked locked = Some true) by done.
  assert (Hs : ∀ m, lock_times (S m) fresh = (true :: replicate m false, locked)).
  { intros m. pose proof (lock_times_locked m locked Hl) as Hm.
    subst fresh locked. simpl in *. by rewrite Hm. }
  repeat split; try done.
  - destruct k as [|k]; [done | lia].
  - destruct k as [|k]; [lia | intros _]. by rewrite Hs.
Qed.

(** C5. Assigning [isHorizontal] on a locked StackPanelLayoutEngine
    returns normally and leaves the instance, hence the stored value, as
    it was; on an instance that is not locked it stores the new value and
    changes nothing else. *)
Theorem isHorizontal_setter_respects_lock (e : StackPanelLayoutEngine.t) (val : bool) :
  (StackPanelLayoutEngine.isLocked e = Some true →
   StackPanelLayoutEngine.set_isHorizontal val e = (tt, e)) ∧
  (StackPanelLayoutEngine.isLocked e ≠ Some true →
   ∃ e', StackPanelLayoutEngine.set_isHorizontal val e = (tt, e') ∧
         StackPanelLayoutEngine.isHorizontal e' = val ∧
         StackPanelLayoutEngine.super e' = StackPanelLayoutEngine.super e).
Proof.
  unfold StackPanelLayoutEngine.set_isHorizontal. split.
  - by intros ->.
  - intros Hn. destruct (StackPanelLayoutEngine.isLocked e) as [[|]|]; [done | | ];
      by eexists.
Qed.

(** *** The base class *)

(** C10. Any number of calls of the base-class [updateLayout] complete
    normally and leave the state as it was: no child's layoutArea or
    layoutAreaPos is written, and a node whose dirty flag was set still
    has it set. *)
Theorem base_updateLayout_changes_nothing {E : Type} (n : nat) (prim : nat) (s : State E) :
  repeatM n (LayoutEngineBase.updateLayout prim) s = (Normal tt, s) ∧
  (dirty (prims s) prim →
   dirty (prims (repeatM n (LayoutEngineBase.updateLayout prim) s).2) prim).
Proof.
  assert (Hrun : repeatM n (LayoutEngineBase.updateLayout prim) s = (Normal tt, s)).
  { induction n as [|n IH]; [done|]. simpl.
    by rewrite (bind_run _ _ s tt s). }
  split; [done|]. by rewrite Hrun.
Qed.

(** *** The singletons of StackPanelLayoutEngine *)

Lemma Horizontal_first c :
  StackPanelLayoutEngine._horizontal c = None →
  StackPanelLayoutEngine.Horizontal c =
    (Normal (Some (length (StackPanelLayoutEngine.instances c))),
     {| StackPanelLayoutEngine._horizontal := Some (length (StackPanelLayoutEngine.instances c));
        StackPanelLayoutEngine._vertical := StackPanelLayoutEngine._vertical c;
        StackPanelLayoutEngine.instances :=
          StackPanelLayoutEngine.instances c ++ [singleton true] |}).
Proof.
  intros Hn. unfold StackPanelLayoutEngine.Horizontal, StackPanelLayoutEngine.construct,
    StackPanelLayoutEngine.invoke, bind, get, put, ret. simpl. rewrite Hn. simpl.
  repeat first [ rewrite list_lookup_middle by done
               | rewrite insert_app_r_alt by done
               | rewrite Nat.sub_diag
               | progress simpl ].
  done.
Qed.

Lemma Vertical_first c :
  StackPanelLayoutEngine._vertical c = None →
  StackPanelLayoutEngine.Vertical c =
    (Normal (Some (length (StackPanelLayoutEngine.instances c))),
     {| StackPanelLayoutEngine._horizontal := StackPanelLayoutEngine._horizontal c;
        StackPanelLayoutEngine._vertical := Some (length (StackPanelLayoutEngine.instances c));
        StackPanelLayoutEngine.instances :=
          StackPanelLayoutEngine.instances c ++ [singleton false] |}).
Proof.
  intros Hn. unfold StackPanelLayoutEngine.Vertical, StackPanelLayoutEngine.construct,
    StackPanelLayoutEngine.invoke, bind, get, put, ret. simpl. rewrite Hn. simpl.
  repeat first [ rewrite list_lookup_middle by done
               | rewrite insert_app_r_alt by done
               | rewrite Nat.sub_diag
               | progress simpl ].
  done.
Qed.

Lemma Horizontal_again c r :
  StackPanelLayoutEngine._horizontal c = Some r →
  StackPanelLayoutEngine.Horizontal c = (Normal (Some r), c).
Proof.
  intros Hr. unfold StackPanelLayoutEngine.Horizontal, bind, get, ret.
  rewrite Hr. rewrite bool_decide_eq_true_2 by eauto. simpl. by rewrite Hr.
Qed.

Lemma Vertical_again c r :
  StackPanelLayoutEngine._vertical c = Some r →
  StackPanelLayoutEngine.Vertical c = (Normal (Some r), c).
Proof.
  intros Hr. unfold StackPanelLayoutEngine.Vertical, bind, get, ret.
  rewrite Hr. rewrite bool_decide_eq_true_2 by eauto. simpl. by rewrite Hr.
Qed.

Lemma designates_grow field horizontal c hf vf e :
  designates field horizontal c →
  designates field horizontal
    {| StackPanelLayoutEngine._horizontal := hf;
       StackPanelLayoutEngine._vertical := vf;
       StackPanelLayoutEngine.instances := StackPanelLayoutEngine.instances c ++ [e] |}.
Proof.
  intros Hd r Hr. destruct (Hd r Hr) as (e0 & He0 & Hl & Ho).
  exists e0. split; [|done]. simpl. by apply lookup_app_l_Some.
Qed.

Lemma designates_new horizontal c hf vf :
  designates (Some (length (StackPanelLayoutEngine.instances c))) horizontal
    {| StackPanelLayoutEngine._horizontal := hf;
       StackPanelLayoutEngine._vertical := vf;
       StackPanelLayoutEngine.instances :=
         StackPanelLayoutEngine.instances c ++ [singleton horizontal] |}.
Proof.
  intros r [= <-]. exists (singleton horizontal). split; [|done].
  simpl. by apply list_lookup_middle.
Qed.

Lemma Horizontal_ok c :
  singletons_ok c →
  ∃ r c', StackPanelLayoutEngine.Horizontal c = (Normal (Some r), c') ∧
          StackPanelLayoutEngine._horizontal c' = Some r ∧
          singletons_ok c' ∧ fields_kept c c'.
Proof.
  intros [Hh Hv]. destruct (StackPanelLayoutEngine._horizontal c) as [r|] eqn:Hr.
  - exists r, c. rewrite (Horizontal_again _ _ Hr). repeat split; try done.
    by rewrite Hr.
  - eexists _, _. rewrite (Horizontal_first _ Hr). repeat split; simpl; try done.
    + apply designates_new.
    + by apply designates_grow.
    + by rewrite Hr.
Qed.

Lemma Vertical_ok c :
  singletons_ok c →
  ∃ r c', StackPanelLayoutEngine.Vertical c = (Normal (Some r), c') ∧
          StackPanelLayoutEngine._vertical c' = Some r ∧
          singletons_ok c' ∧ fields_kept c c'.
Proof.
  intros [Hh Hv]. destruct (StackPanelLayoutEngine._vertical c) as [r|] eqn:Hr.
  - exists r, c. rewrite (Vertical_again _ _ Hr). repeat split; try done.
    by rewrite Hr.
  - eexists _, _. rewrite (Vertical_first _ Hr). repeat split; simpl; try done.
    + by apply designates_grow.
    + apply designates_new.
    + by rewrite Hr.
Qed.

(** A method that leaves locked instances alone cannot disturb what the
    static fields designate. *)
Lemma invoke_ok {A : Type} o (method : StackPanelLayoutEngine.t -> A * StackPanelLayoutEngine.t) c :
  (∀ e, StackPanelLayoutEngine.isLocked e = Some true → (method e).2 = e) →
  singletons_ok c →
  singletons_ok (StackPanelLayoutEngine.invoke o method c).2 ∧
  fields_kept c (StackPanelLayoutEngine.invoke o method c).2.
Proof.
  intros Hm Hok. unfold StackPanelLayoutEngine.invoke, bind, get, put, ret, throw.
  destruct o as [r'|]; simpl; [|by split].
  destruct (StackPanelLayoutEngine.instances c !! r') as [e|] eqn:He; simpl; [|by split].
  destruct (method e) as [a e'] eqn:Hme. simpl. split; [|by split].
  assert (Hkeep : ∀ field horizontal, designates field horizontal c →
    designates field horizontal
      {| StackPanelLayoutEngine._horizontal := StackPanelLayoutEngine._horizontal c;
         StackPanelLayoutEngine._vertical := StackPanelLayoutEngine._vertical c;
         StackPanelLayoutEngine.instances := <[r':=e']> (StackPanelLayoutEngine.instances c) |}).
  { intros field horizontal Hd r Hr. destruct (Hd r Hr) as (e0 & He0 & Hl & Ho).
    exists e0. split; [|done]. simpl. destruct (decide (r' = r)) as [->|Hne].
    - assert (e0 = e) as -> by congruence.
      assert (e' = e) as -> by (rewrite <- (Hm e Hl); by rewrite Hme).
      rewrite list_lookup_insert_eq; [done|]. by eapply lookup_lt_Some.
    - by rewrite list_lookup_insert_ne. }
  destruct Hok as [Hh Hv]. split; by apply Hkeep.
Qed.

Lemma perform_ok a c :
  singletons_ok c → singletons_ok (perform a c).2 ∧ fields_kept c (perform a c).2.
Proof.
  intros Hok. destruct a as [| | |o|o val]; simpl.
  - destruct (Horizontal_ok c Hok) as (r & c' & Hrun & _ & Hok' & Hk).
    unfold bind. by rewrite Hrun.
  - destruct (Vertical_ok c Hok) as (r & c' & Hrun & _ & Hok' & Hk).
    unfold bind. by rewrite Hrun.
  - destruct Hok as [Hh Hv]. unfold bind. simpl.
    repeat split; try done; by apply designates_grow.
  - pose proof (invoke_ok o StackPanelLayoutEngine.lock c) as Hi.
    unfold bind. destruct (StackPanelLayoutEngine.invoke _ _ c) as [[b|err] c'];
      apply Hi; try done.
    all: intros e He; unfold StackPanelLayoutEngine.lock;
      rewrite (lock_locked _ He); by destruct e.
  - apply invoke_ok; [|done]. intros e He.
    unfold StackPanelLayoutEngine.set_isHorizontal. by rewrite He.
Qed.

Lemma after_ok l c :
  singletons_ok c → singletons_ok (after l c) ∧ fields_kept c (after l c).
Proof.
  revert c. induction l as [|a l IH]; intros c Hok; simpl; [done|].
  destruct (perform_ok a c Hok) as [Hok' [Hkh Hkv]].
  destruct (IH _ Hok') as [Hok'' [Hkh' Hkv']].
  repeat split; [apply Hok'' ..| |]; eauto.
Qed.

(** C9. In any state the class can be in, reading [Horizontal] returns a
    reference to an instance; whatever the program does next, reading it
    again returns the same reference and changes nothing, and the instance
    it designates reports [isLocked()] true and [isHorizontal] true. The
    same holds of [Vertical], with [isHorizontal] false. *)
Theorem singleton_accessors (before between : list action) :
  let c := after before StackPanelLayoutEngine.loaded in
  (∃ r c1,
     StackPanelLayoutEngine.Horizontal c = (Normal (Some r), c1) ∧
     let c2 := after between c1 in
     StackPanelLayoutEngine.Horizontal c2 = (Normal (Some r), c2) ∧
     ∃ e, StackPanelLayoutEngine.instances c2 !! r = Some e ∧
          StackPanelLayoutEngine.isLocked e = Some true ∧
          StackPanelLayoutEngine.isHorizontal e = true) ∧
  (∃ r c1,
     StackPanelLayoutEngine.Vertical c = (Normal (Some r), c1) ∧
     let c2 := after between c1 in
     StackPanelLayoutEngine.Vertical c2 = (Normal (Some r), c2) ∧
     ∃ e, StackPanelLayoutEngine.instances c2 !! r = Some e ∧
          StackPanelLayoutEngine.isLocked e = Some true ∧
          StackPanelLayoutEngine.isHorizontal e = false).
Proof.
  intros c.
  assert (Hok : singletons_ok c).
  { apply after_ok. split; by intros r. }
  split.
  - destruct (Horizontal_ok c Hok) as (r & c1 & Hrun & Hr & Hok1 & _).
    exists r, c1. split; [done|]. intros c2.
    destruct (after_ok between c1 Hok1) as [[Hh _] [Hkh _]].
    split; [by apply Horizontal_again, Hkh|]. by apply Hh, Hkh.
  - destruct (Vertical_ok c Hok) as (r & c1 & Hrun & Hr & Hok1 & _).
    exists r, c1. split; [done|]. intros c2.
    destruct (after_ok between c1 Hok1) as [[_ Hv] [_ Hkv]].
    split; [by apply Vertical_again, Hkv|]. by apply Hv, Hkv.
Qed.

(** *** Parsing a grid dimension *)

Lemma toLowerChar_space c : isWhiteSpace (toLowerChar c) = isWhiteSpace c.
Proof. by destruct c as [[] [] [] [] [] [] [] []]. Qed.

Lemma toLowerChar_idem c : toLowerChar (toLowerChar c) = toLowerChar c.
Proof. by destruct c as [[] [] [] [] [] [] [] []]. Qed.

Lemma lower_idem s : toLocaleLowerCase (toLocaleLowerCase s) = toLocaleLowerCase s.
Proof. induction s as [|c r IH]; simpl; [done|]. by rewrite toLowerChar_idem, IH. Qed.

Lemma lower_app s t :
  toLocaleLowerCase (s +:+ t) = toLocaleLowerCase s +:+ toLocaleLowerCase t.
Proof. induction s as [|c r IH]; simpl; [done|]. by rewrite IH. Qed.

Lemma lower_blank s : blank (toLocaleLowerCase s) = blank s.
Proof. induction s as [|c r IH]; simpl; [done|]. by rewrite toLowerChar_space, IH. Qed.

Lemma lower_trimStart s :
  toLocaleLowerCase (trimStart s) = trimStart (toLocaleLowerCase s).
Proof.
  induction s as [|c r IH]; simpl; [done|]. rewrite toLowerChar_space.
  by destruct (isWhiteSpace c).
Qed.

Lemma lower_trimEnd s :
  toLocaleLowerCase (trimEnd s) = trimEnd (toLocaleLowerCase s).
Proof.
  induction s as [|c r IH]; simpl; [done|]. rewrite <- IH, toLowerChar_space.
  destruct (trimEnd r); simpl; [|done]. by destruct (isWhiteSpace c).
Qed.

Lemma lower_trim s : toLocaleLowerCase (trim s) = trim (toLocaleLowerCase s).
Proof. unfold trim. by rewrite lower_trimEnd, lower_trimStart. Qed.

Lemma trimStart_idem s : trimStart (trimStart s) = trimStart s.
Proof.
  induction s as [|c r IH]; simpl; [done|].
  destruct (isWhiteSpace c) eqn:Hc; [done|]. simpl. by rewrite Hc.
Qed.

Lemma trimEnd_idem s : trimEnd (trimEnd s) = trimEnd s.
Proof.
  induction s as [|c r IH]; simpl; [done|].
  destruct (trimEnd r) as [|c' r'] eqn:Hr.
  - destruct (isWhiteSpace c) eqn:Hc; simpl; [done|]. by rewrite Hc.
  - change (trimEnd (String c (String c' r')) = String c (String c' r')).
    cbn [trimEnd] in *. by rewrite IH.
Qed.

Lemma trimStart_trimEnd s : trimStart (trimEnd s) = trimEnd (trimStart s).
Proof.
  induction s as [|c r IH]; simpl; [done|].
  destruct (isWhiteSpace c) eqn:Hc.
  - rewrite <- IH. destruct (trimEnd r); simpl; [done|]. by rewrite Hc.
  - cbn [trimEnd]. destruct (trimEnd r); simpl; by rewrite Hc.
Qed.

Lemma trim_idem s : trim (trim s) = trim s.
Proof.
  unfold trim. by rewrite trimStart_trimEnd, trimStart_idem, trimEnd_idem.
Qed.

Lemma trimStart_blank l s : blank l = true → trimStart (l +:+ s) = trimStart s.
Proof.
  induction l as [|c r IH]; simpl; [done|].
  intros [-> Hr]%andb_prop. by apply IH.
Qed.

Lemma trimEnd_blank r : blank r = true → trimEnd r = EmptyString.
Proof.
  induction r as [|c r IH]; simpl; [done|].
  intros [-> Hr]%andb_prop. by rewrite IH.
Qed.

Lemma trimEnd_app_blank s r : blank r = true → trimEnd (s +:+ r) = trimEnd s.
Proof.
  intros Hr. induction s as [|c s IH]; simpl.
  - by apply trimEnd_blank.
  - by rewrite IH.
Qed.

Lemma trim_pad l s r :
  blank l = true → blank r = true → trim (l +:+ s +:+ r) = trim s.
Proof.
  intros Hl Hr. unfold trim. rewrite (trimStart_blank _ _ Hl).
  induction s as [|c s IH]; simpl.
  - change (EmptyString +:+ r) with r.
    by rewrite <- trimStart_trimEnd, (trimEnd_blank _ Hr).
  - destruct (isWhiteSpace c); [done|].
    change (trimEnd (String c s +:+ r) = trimEnd (String c s)).
    by apply trimEnd_app_blank.
Qed.

(** C3. ["100"] parses to Pixels with value 100 and 100 resolved pixels,
    ["2*"] to Stars with value 2, ["Auto"] to Auto; and any string, in any
    mix of upper and lower case and with any white space around it,
    parses to what its trimmed lower-case form parses to. *)
Theorem _parse_dimension :
  ∀ (A : Type) (res : option number -> option number -> Z -> A),
    GridDimensionDefinition._parse "100" res
      = res (Some (num 100)) (Some (num 100)) GridDimensionDefinition.Pixels ∧
    GridDimensionDefinition._parse "2*" res
      = res (Some (num 2)) None GridDimensionDefinition.Stars ∧
    GridDimensionDefinition._parse "Auto" res
      = res None None GridDimensionDefinition.Auto ∧
    GridDimensionDefinition._parse "  AUTO " res
      = GridDimensionDefinition._parse "auto" res ∧
    ∀ l r s s' : string,
      blank l = true → blank r = true →
      toLocaleLowerCase s' = toLocaleLowerCase s →
      GridDimensionDefinition._parse (l +:+ s' +:+ r) res
        = GridDimensionDefinition._parse (trim (toLocaleLowerCase s)) res.
Proof.
  intros A res. repeat split; try reflexivity.
  intros l r s s' Hl Hr Hs. unfold GridDimensionDefinition._parse.
  rewrite <- lower_blank in Hl, Hr.
  rewrite !lower_app, (trim_pad _ _ _ Hl Hr), lower_trim, lower_idem, trim_idem.
  by rewrite Hs.
Qed.

(** *** Stack layout *)

Lemma Stack_updateLayout_loops prim :
  StackPanelLayoutEngine.updateLayout prim =
    (dirty <- _isFlagSet prim flagLayoutDirty ;;
     if dirty : bool then
       e <- get_this ;;
       let h := StackPanelLayoutEngine.isHorizontal e in
       p <- deref prim ;;
       max <- foldM (measure_body h) (num 0) (children p) ;;
       p <- deref prim ;;
       foldM (place_body h max) (num 0, num 0) (children p) ;;
       _clearFlags prim flagLayoutDirty
     else ret tt).
Proof. reflexivity. Qed.

Lemma omap_agree {A B : Type} (f g : A -> option B) (l : list A) :
  (∀ x, x ∈ l → f x = g x) → omap f l = omap g l.
Proof.
  induction l as [|x l IH]; intros Hfg; csimpl; [done|].
  rewrite (Hfg x) by (by left). rewrite IH; [done|].
  intros y Hy. apply Hfg. by right.
Qed.

Lemma nodes_Forall2 {E : Type} (s : State E) cs ns :
  Forall2 (fun c n => prims s !! c = Some n) cs ns → nodes s cs = ns.
Proof.
  unfold nodes. induction 1 as [|c n cs ns Hn _ IH]; csimpl; [done|].
  by rewrite Hn, IH.
Qed.

Lemma areas_grow (zs l : list Size.t) ns :
  (∀ n, n ∈ ns → is_Some (zs !! layoutArea n)) → areas (zs ++ l) ns = areas zs ns.
Proof.
  intros Hv. apply omap_agree. intros n Hn.
  apply lookup_app_l, lookup_lt_is_Some, Hv, Hn.
Qed.

Lemma unshared_separate ns :
  NoDup (layoutArea <$> ns) →
  (∀ r, r ∈ (actualSize <$> ns) → r ∉ (layoutArea <$> ns)) →
  separate ns.
Proof.
  induction ns as [|n ns IH]; [done|]. csimpl.
  intros [Hn Hnd]%NoDup_cons Hsep. split; [|split].
  - intros Heq. apply (Hsep (actualSize n)); [by left | rewrite Heq; by left].
  - intros n' Hn'. split.
    + intros Heq. apply Hn. rewrite <- Heq. by apply list_elem_of_fmap_2.
    + intros Heq. apply (Hsep (actualSize n')).
      * right. by apply list_elem_of_fmap_2.
      * rewrite Heq. by left.
  - apply IH; [done|]. intros r Hr Hr'. apply (Hsep r); by right.
Qed.

Lemma unshared_NoDup {E : Type} (s : State E) cs ns :
  Forall2 (fun c n => prims s !! c = Some n) cs ns →
  NoDup (layoutArea <$> ns) → NoDup cs.
Proof.
  intros Hall Hnd. apply NoDup_alt. intros i j c Hi Hj.
  destruct (Forall2_lookup_l _ _ _ _ _ Hall Hi) as (n & Hn & Hc).
  destruct (Forall2_lookup_l _ _ _ _ _ Hall Hj) as (n' & Hn' & Hc').
  assert (n' = n) as -> by congruence.
  apply (proj1 (NoDup_alt _) Hnd i j (layoutArea n)); by rewrite list_lookup_fmap, ?Hn, ?Hn'.
Qed.

Lemma Forall2_insert_fresh (m : gmap nat Prim2DBase) c v cs ns :
  c ∉ cs → Forall2 (fun c n => m !! c = Some n) cs ns →
  Forall2 (fun c' n => <[c := v]> m !! c' = Some n) cs ns.
Proof.
  intros Hc Hall. induction Hall as [|c' n cs ns Hn _ IH]; [done|].
  apply not_elem_of_cons in Hc as [Hne Hc].
  constructor; [by rewrite lookup_insert_ne | by apply IH].
Qed.

Section Loops.
Context {E : Type} (h : bool).
Implicit Types (s : State E) (cs : list nat).

Lemma measure_body_run max child s c src dst :
  prims s !! child = Some c →
  sizes s !! actualSize c = Some src → sizes s !! layoutArea c = Some dst →
  measure_body h max child s =
    (Normal (Math_max max (crossExtent h (computeArea (margin c) src dst))),
     {| this := this s; prims := prims s;
        sizes := <[layoutArea c := computeArea (margin c) src dst]> (sizes s) |}).
Proof.
  intros Hc Hsrc Hdst. unfold measure_body.
  rewrite (bind_run _ _ _ _ _ (deref_Some _ _ _ Hc)). cbn zeta.
  rewrite (bind_run _ _ _ _ _ (call_computeArea_Some _ _ _ _ _ _ Hsrc Hdst)).
  erewrite bind_run.
  2:{ apply size_of_Some. simpl. apply list_lookup_insert_eq. by eapply lookup_lt_Some. }
  by destruct h.
Qed.

(** The body of the measure loop either rewrites the layoutArea object of
    its child, or throws and writes nothing. *)
Lemma measure_body_cases max child s :
  (∃ c a m, prims s !! child = Some c ∧
     measure_body h max child s =
       (Normal m, {| this := this s; prims := prims s;
                     sizes := <[layoutArea c := a]> (sizes s) |})) ∨
  (∃ e, measure_body h max child s = (Throw e, s)).
Proof.
  destruct (prims s !! child) as [c|] eqn:Hc.
  - destruct (call_computeArea_cases (margin c) (actualSize c) (layoutArea c) s)
      as [(src & dst & Hsrc & Hdst & _)|Hthrow].
    + left. eexists c, _, _. split; [done|]. by apply measure_body_run.
    + right. exists TypeError. unfold measure_body.
      rewrite (bind_run _ _ _ _ _ (deref_Some _ _ _ Hc)). cbn zeta.
      by rewrite (bind_throws _ _ _ _ _ Hthrow).
  - right. exists TypeError. unfold measure_body.
    by rewrite (bind_throws _ _ _ _ _ (deref_None _ _ Hc)).
Qed.

(** The measure pass, whatever its outcome: it writes no primitive, makes
    no Size object, and writes no Size object other than the layoutArea
    objects of the children. *)
Lemma measure_loop_frame cs : ∀ s max,
  let out := foldM (measure_body h) max cs s in
  this out.2 = this s ∧ prims out.2 = prims s ∧
  length (sizes out.2) = length (sizes s) ∧
  ∀ r, (∀ c n, c ∈ cs → prims s !! c = Some n → layoutArea n ≠ r) →
       sizes out.2 !! r = sizes s !! r.
Proof.
  induction cs as [|c cs IH]; intros s max out; [done|].
  unfold out. cbn [foldM].
  destruct (measure_body_cases max c s) as [(n & a & m & Hn & Hrun)|[e Hrun]].
  - rewrite (bind_run _ _ _ _ _ Hrun).
    destruct (IH {| this := this s; prims := prims s;
                    sizes := <[layoutArea n := a]> (sizes s) |} m)
      as (Hthis & Hprims & Hlen & Hframe).
    simpl in *. split; [done|]. split; [done|].
    split; [by rewrite Hlen, length_insert|].
    intros r Hr. rewrite Hframe.
    + apply list_lookup_insert_ne. apply (Hr c n); [by left | done].
    + intros c' n' Hc' Hn'. apply (Hr c' n'); [by right | done].
  - by rewrite (bind_throws _ _ _ _ _ Hrun).
Qed.

(** The measure pass over children with layout areas of their own: the
    layoutArea object of every child receives the margin-adjusted area of
    the child, no other Size object is written, no primitive is, and the
    running maximum of the cross extents is returned. *)
Lemma measure_loop cs : ∀ ns s max,
  Forall2 (fun c n => prims s !! c = Some n) cs ns → separate ns →
  (∀ n, n ∈ ns → is_Some (sizes s !! actualSize n) ∧ is_Some (sizes s !! layoutArea n)) →
  ∃ zs,
    foldM (measure_body h) max cs s =
      (Normal (fold_left Math_max (crossExtent h <$> omap (adjustedArea (sizes s)) ns) max),
       {| this := this s; prims := prims s; sizes := zs |}) ∧
    length zs = length (sizes s) ∧
    (∀ n, n ∈ ns → zs !! layoutArea n = adjustedArea (sizes s) n ∧
                   is_Some (adjustedArea (sizes s) n)).
Proof.
  induction cs as [|c cs IH]; intros ns s max Hall Hsep Hvalid.
  - apply Forall2_nil_inv_l in Hall as ->. exists (sizes s). simpl. unfold ret.
    rewrite State_eta. split; [done|]. split; [done|].
    intros n Hn. by apply elem_of_nil in Hn.
  - apply Forall2_cons_inv_l in Hall as (n & rest & Hn & Hall & ->).
    destruct Hsep as (Hself & Hlater & Hsep).
    destruct (Hvalid n) as [[src Hsrc] [dst Hdst]]; [by left|].
    set (a := computeArea (margin n) src dst).
    set (s' := {| this := this s; prims := prims s;
                  sizes := <[layoutArea n := a]> (sizes s) |}).
    assert (Hadj : adjustedArea (sizes s) n = Some a).
    { unfold adjustedArea. by rewrite Hsrc, Hdst. }
    assert (Hsame : ∀ n', n' ∈ rest → adjustedArea (sizes s') n' = adjustedArea (sizes s) n').
    { intros n' Hn'. destruct (Hlater n' Hn') as [Hl Ha]. unfold adjustedArea. simpl.
      by rewrite !list_lookup_insert_ne by done. }
    destruct (IH rest s' (Math_max max (crossExtent h a)) Hall Hsep)
      as (zs & Hrun & Hlen & Hupd).
    { intros n' Hn'. simpl. destruct (Hvalid n') as [Hv1 Hv2]; [by right|].
      apply lookup_lt_is_Some in Hv1, Hv2.
      split; apply lookup_lt_is_Some; by rewrite length_insert. }
    exists zs. split; [|split].
    + cbn [foldM]. rewrite (bind_run _ _ _ _ _ (measure_body_run max c s n src dst Hn Hsrc Hdst)).
      fold a s'. rewrite Hrun, (omap_agree _ _ rest Hsame).
      csimpl. rewrite Hadj. by csimpl.
    + by rewrite Hlen; simpl; rewrite length_insert.
    + intros n' [->|Hn']%elem_of_cons.
      * split; [|by rewrite Hadj].
        rewrite Hadj.
        assert (Hkeep : zs !! layoutArea n = sizes s' !! layoutArea n).
        { pose proof (measure_loop_frame cs s' (Math_max max (crossExtent h a))) as Hf.
          rewrite Hrun in Hf. simpl in Hf. destruct Hf as (_ & _ & _ & Hf). apply Hf.
          intros c' n' Hc' Hn' Heq.
          apply list_elem_of_lookup_1 in Hc' as [i Hi].
          destruct (Forall2_lookup_l _ _ _ _ _ Hall Hi) as (n'' & Hn'' & Hc'').
          simpl in Hc''. assert (n'' = n') as -> by congruence.
          apply list_elem_of_lookup_2 in Hn''. destruct (Hlater n' Hn'') as [Hl _].
          by apply Hl. }
        rewrite Hkeep. simpl. apply list_lookup_insert_eq. by eapply lookup_lt_Some.
      * destruct (Hupd n' Hn') as [Hz Hs]. by rewrite <- (Hsame n' Hn').
Qed.

Lemma place_body_run max cursor child s c a :
  prims s !! child = Some c → sizes s !! layoutArea c = Some a →
  place_body h max cursor child s =
    (Normal (advance h cursor a),
     {| this := this s;
        prims := <[child := placed cursor (length (sizes s)) c]> (prims s);
        sizes := sizes s ++ [stretched h max a] |}).
Proof.
  intros Hc Ha. destruct cursor as [x y]. unfold place_body.
  rewrite (bind_run _ _ _ _ _ (assign_Some _ _ _ _ Hc)).
  set (s' := {| this := this s; prims := <[child := _]> (prims s); sizes := sizes s |}).
  assert (Hc' : prims s' !! child = Some (set_layoutAreaPos (Vector2.new x y) c))
    by apply lookup_insert_eq.
  rewrite (bind_run _ _ _ _ _ (deref_Some _ _ _ Hc')). cbn zeta.
  assert (Ha' : sizes s' !! layoutArea (set_layoutAreaPos (Vector2.new x y) c) = Some a)
    by done.
  rewrite (bind_run _ _ _ _ _ (size_of_Some _ _ _ Ha')).
  destruct h; cbn zeta;
    rewrite (bind_run _ _ _ _ _ (new_Size_run _ _));
    match goal with
    | |- bind (assign child ?g) ?k ?st = _ =>
        rewrite (bind_run _ k st tt _ (assign_Some child g st _ Hc'))
    end;
    unfold ret, placed, advance, stretched; simpl; by rewrite insert_insert_eq.
Qed.

(** The body of the place loop either moves its child and hands it a new
    Size object, or throws, having written the child at most. *)
Lemma place_body_cases max cursor child s :
  (∃ c a, prims s !! child = Some c ∧ sizes s !! layoutArea c = Some a ∧
     place_body h max cursor child s =
       (Normal (advance h cursor a),
        {| this := this s;
           prims := <[child := placed cursor (length (sizes s)) c]> (prims s);
           sizes := sizes s ++ [stretched h max a] |})) ∨
  (∃ e s', place_body h max cursor child s = (Throw e, s')).
Proof.
  destruct (prims s !! child) as [c|] eqn:Hc.
  - destruct (sizes s !! layoutArea c) as [a|] eqn:Ha.
    + left. exists c, a. split; [done|]. split; [done|]. by apply place_body_run.
    + right. destruct cursor as [x y]. unfold place_body.
      rewrite (bind_run _ _ _ _ _ (assign_Some _ _ _ _ Hc)).
      erewrite bind_run; [|apply deref_Some; apply lookup_insert_eq]. cbn zeta.
      erewrite bind_throws; [by eexists _, _|]. by apply size_of_None.
  - right. destruct cursor as [x y]. unfold place_body.
    eexists _, _. apply bind_throws. unfold assign.
    apply bind_throws. by apply deref_None.
Qed.

(** The place pass over distinct children: the child at index [i] is put
    where the cursor stands after the [i] children before it, and is
    handed a new Size object, its area with the cross extent [max];
    nothing else is written. *)
Lemma place_loop max cs : ∀ ns s cursor,
  Forall2 (fun c n => prims s !! c = Some n) cs ns → NoDup cs →
  (∀ n, n ∈ ns → is_Some (sizes s !! layoutArea n)) →
  ∃ ps,
    foldM (place_body h max) cursor cs s =
      (Normal (fold_left (advance h) (areas (sizes s) ns) cursor),
       {| this := this s; prims := ps;
          sizes := sizes s ++ (stretched h max <$> areas (sizes s) ns) |}) ∧
    (∀ c, c ∉ cs → ps !! c = prims s !! c) ∧
    (∀ i c n, cs !! i = Some c → ns !! i = Some n →
       ps !! c = Some (placed (fold_left (advance h) (areas (sizes s) (take i ns)) cursor)
                              (length (sizes s) + i) n)).
Proof.
  induction cs as [|c cs IH]; intros ns s cursor Hall Hnd Hvalid.
  - apply Forall2_nil_inv_l in Hall as ->. exists (prims s). simpl. unfold ret.
    rewrite app_nil_r, State_eta. split; [done|]. split; [done|]. by intros i c n.
  - apply Forall2_cons_inv_l in Hall as (n & rest & Hn & Hall & ->).
    apply NoDup_cons in Hnd as [Hc Hnd].
    destruct (Hvalid n) as [a Ha]; [by left|].
    set (s' := {| this := this s;
                  prims := <[c := placed cursor (length (sizes s)) n]> (prims s);
                  sizes := sizes s ++ [stretched h max a] |}).
    assert (Hsame : ∀ l, l ⊆ rest → areas (sizes s') l = areas (sizes s) l).
    { intros l Hl. apply areas_grow. intros n' Hn'. apply Hvalid. right. by apply Hl. }
    destruct (IH rest s' (advance h cursor a)) as (ps & Hrun & Hframe & Hupd).
    { by apply Forall2_insert_fresh. }
    { done. }
    { intros n' Hn'. simpl. apply lookup_lt_is_Some. rewrite length_app.
      apply Nat.lt_lt_add_r, lookup_lt_is_Some, Hvalid. by right. }
    assert (Hareas : areas (sizes s) (n :: rest) = a :: areas (sizes s) rest).
    { unfold areas. csimpl. by rewrite Ha. }
    exists ps. split; [|split].
    + cbn [foldM]. rewrite (bind_run _ _ _ _ _ (place_body_run max cursor c s n a Hn Ha)).
      fold s'. rewrite Hrun, (Hsame rest) by done. rewrite Hareas. simpl.
      by rewrite <- app_assoc.
    + intros c' [Hne Hc']%not_elem_of_cons. rewrite (Hframe _ Hc'). simpl.
      by apply lookup_insert_ne.
    + intros [|j] c' n' Hj Hj'; simpl in Hj, Hj'.
      * injection Hj as <-. injection Hj' as <-. rewrite (Hframe c Hc). simpl.
        by rewrite lookup_insert_eq, Nat.add_0_r.
      * rewrite (Hupd j c' n' Hj Hj'). rewrite Hsame by apply subseteq_take.
        cbn [take]. unfold areas at 2. csimpl. rewrite Ha. csimpl.
        do 2 f_equal. simpl. rewrite length_app. simpl. lia.
Qed.

End Loops.

Lemma advance_horizontal (l : list Size.t) (x y : number) :
  (fold_left (advance true) l (x, y)).2 = y.
Proof. revert x. induction l as [|a l IH]; intros x; simpl; [done|]. apply IH. Qed.

Lemma advance_vertical (l : list Size.t) (x y : number) :
  (fold_left (advance false) l (x, y)).1 = x.
Proof. revert y. induction l as [|a l IH]; intros y; simpl; [done|]. apply IH. Qed.

Lemma omap_lookup_total {A B : Type} (f : A -> option B) (l : list A) : ∀ i x y,
  (∀ x, x ∈ l → is_Some (f x)) → l !! i = Some x → f x = Some y →
  omap f l !! i = Some y.
Proof.
  induction l as [|a l IH]; intros i x y Hall Hi Hy; [done|].
  destruct (Hall a) as [b Hb]; [by left|]. csimpl. rewrite Hb. csimpl.
  destruct i as [|i]; simpl in *.
  - congruence.
  - eapply IH; [|done..]. intros x' Hx'. apply Hall. by right.
Qed.

Lemma adjustedAreas_nodes {E : Type} (s : State E) cs ns :
  Forall2 (fun c n => prims s !! c = Some n) cs ns →
  adjustedAreas s cs = omap (adjustedArea (sizes s)) ns.
Proof. intros Hall. unfold adjustedAreas. by rewrite (nodes_Forall2 _ _ _ Hall). Qed.

Lemma adjustedAreas_snoc {E : Type} (s : State E) (l : list nat) c n a :
  prims s !! c = Some n → adjustedArea (sizes s) n = Some a →
  adjustedAreas s (l ++ [c]) = adjustedAreas s l ++ [a].
Proof.
  intros Hn Ha. unfold adjustedAreas, nodes. rewrite omap_app. csimpl. rewrite Hn. csimpl.
  rewrite omap_app. csimpl. by rewrite Ha.
Qed.

(** What [StackPanelLayoutEngine.updateLayout] does on a dirty node whose
    children have layout areas of their own, in either orientation: it
    completes normally, the engine is unchanged, and the child at index [i]
    stands where the cursor is after the margin-adjusted areas of the [i]
    children before it, and holds a Size object with the running maximum
    from 0 as its cross extent and its margin-adjusted main extent. *)
Lemma Stack_updateLayout_result (s : State StackPanelLayoutEngine.t) prim p :
  prims s !! prim = Some p → layoutDirty p = true → unshared s (children p) →
  ∃ s',
    StackPanelLayoutEngine.updateLayout prim s = (Normal tt, s') ∧ this s' = this s ∧
    ∀ i c, children p !! i = Some c →
      ∃ old adjusted new,
        prims s !! c = Some old ∧ adjustedArea (sizes s) old = Some adjusted ∧
        prims s' !! c = Some new ∧
        let h := StackPanelLayoutEngine.isHorizontal (this s) in
        let max := fold_left Math_max
                     (crossExtent h <$> adjustedAreas s (children p)) (num 0) in
        let cursor := fold_left (advance h)
                        (adjustedAreas s (take i (children p))) (num 0, num 0) in
        layoutAreaPos new = Vector2.new cursor.1 cursor.2 ∧
        sizes s' !! layoutArea new = Some (stretched h max adjusted).
Proof.
  intros Hp Hd (ns & Hall & Hnd & Hsep & Hvalid). rewrite Stack_updateLayout_loops.
  set (h := StackPanelLayoutEngine.isHorizontal (this s)).
  rewrite (bind_run _ _ _ _ _ (_isFlagSet_Some _ _ _ _ Hp)).
  unfold layoutDirty in Hd. rewrite Hd.
  rewrite (bind_run _ _ _ _ _ (get_this_run s)). cbn zeta. fold h.
  rewrite (bind_run _ _ _ _ _ (deref_Some _ _ _ Hp)).
  assert (Hv : ∀ n, n ∈ ns →
            is_Some (sizes s !! actualSize n) ∧ is_Some (sizes s !! layoutArea n)).
  { intros n Hn. split; apply Hvalid, elem_of_app; [left|right];
      by apply list_elem_of_fmap_2. }
  destruct (measure_loop h (children p) ns s (num 0) Hall (unshared_separate _ Hnd Hsep) Hv)
    as (zs & Hrun1 & Hlen & Hupd1).
  rewrite (bind_run _ _ _ _ _ Hrun1).
  rewrite <- (adjustedAreas_nodes s (children p) ns Hall).
  set (max := fold_left Math_max _ _).
  set (s1 := {| this := this s; prims := prims s; sizes := zs |}).
  assert (Hp1 : prims s1 !! prim = Some p) by done.
  rewrite (bind_run _ _ _ _ _ (deref_Some _ _ _ Hp1)).
  destruct (place_loop h max (children p) ns s1 (num 0, num 0) Hall
              (unshared_NoDup s _ _ Hall Hnd))
    as (ps & Hrun2 & Hframe2 & Hupd2).
  { intros n Hn. simpl. by destruct (Hupd1 n Hn) as [-> ?]. }
  rewrite (bind_run _ _ _ _ _ Hrun2).
  set (s2 := {| this := this s1; prims := ps; sizes := _ |}).
  assert (∃ p2, prims s2 !! prim = Some p2) as (p2 & Hp2).
  { simpl. destruct (decide (prim ∈ children p)) as [Hi|Hi].
    - apply list_elem_of_lookup_1 in Hi as [i Hi].
      destruct (Forall2_lookup_l _ _ _ _ _ Hall Hi) as (n & Hn & _).
      rewrite (Hupd2 i prim n Hi Hn). by eexists.
    - rewrite (Hframe2 _ Hi). by eexists. }
  rewrite (_clearFlags_Some _ _ _ Hp2).
  eexists. split; [reflexivity|]. split; [done|].
  intros i c Hi.
  destruct (Forall2_lookup_l _ _ _ _ _ Hall Hi) as (n & Hn & Hc).
  destruct (Hupd1 n (list_elem_of_lookup_2 _ _ _ Hn)) as [Hz [adj Hadj]].
  pose proof (Hupd2 i c n Hi Hn) as Hplaced.
  assert (Hareas : ∀ l, l ⊆ ns → areas zs l = omap (adjustedArea (sizes s)) l).
  { intros l Hl. apply omap_agree. intros n' Hn'. apply Hupd1. by apply Hl. }
  simpl in Hplaced. rewrite (Hareas (take i ns)) in Hplaced by apply subseteq_take.
  rewrite <- (adjustedAreas_nodes s (take i (children p)) (take i ns)) in Hplaced
    by (by apply Forall2_take).
  set (cursor := fold_left (advance h) _ _) in *.
  assert (Hsize : sizes s2 !! (length zs + i)%nat = Some (stretched h max adj)).
  { simpl. rewrite lookup_app_r by lia.
    replace (length zs + i - length zs)%nat with i by lia.
    rewrite list_lookup_fmap, (Hareas ns) by done.
    erewrite omap_lookup_total; [done| |done|done].
    intros n' Hn'. by apply Hupd1. }
  simpl. destruct (decide (c = prim)) as [->|Hne].
  - rewrite lookup_insert_eq. eexists n, adj, _.
    split; [done|]. split; [done|]. split; [done|].
    simpl in Hp2. rewrite Hplaced in Hp2. injection Hp2 as <-. by split.
  - rewrite lookup_insert_ne by done. rewrite Hplaced. eexists n, adj, _.
    split; [done|]. split; [done|]. split; [done|]. by split.
Qed.

(** The running maximum from 0 is max(h0..hN-1) as soon as the heights are
    those of sizes, finite and not negative. *)
Lemma maximum_from_zero (l : list number) :
  Forall (fun h => ∃ q, h = Finite q ∧ Qle_bool (inject_Z 0) q = true) l →
  fold_left Math_max l (num 0) = maximum l.
Proof.
  destruct l as [|h t]; [done|]. intros Hall.
  apply Forall_cons in Hall as [(q & -> & Hq) _]. simpl.
  change (inject_Z 0) with 0%Q in Hq. by rewrite Hq.
Qed.

(** C2 (amended). A horizontal StackPanelLayoutEngine applied to a dirty
    node whose children have layout areas of their own (the layoutArea
    objects of the children are pairwise distinct Size objects, and none of
    them is the actualSize object of a child) completes normally, leaves
    the engine as it was, and leaves the first child at x = 0, every other
    child at the x of the child before it plus that child's width, every
    child at y = 0 with its margin-adjusted width, and every child with
    the height max(0, h0..hN-1): the running maximum starts from 0. *)
Theorem horizontal_stack_layout_from_zero (s : State StackPanelLayoutEngine.t) prim p :
  StackPanelLayoutEngine.isHorizontal (this s) = true →
  prims s !! prim = Some p → layoutDirty p = true →
  unshared s (children p) →
  ∃ s',
    StackPanelLayoutEngine.updateLayout prim s = (Normal tt, s') ∧ this s' = this s ∧
    horizontal_stack_layout
      (fold_left Math_max (Size.height <$> adjustedAreas s (children p)) (num 0))
      s s' (children p).
Proof.
  intros Hh Hp Hd Hun.
  destruct (Stack_updateLayout_result s prim p Hp Hd Hun) as (s' & Hrun & Hthis & Hres).
  exists s'. split; [done|]. split; [done|]. rewrite Hh in Hres.
  intros i c Hi.
  destruct (Hres i c Hi) as (old & adjusted & new & Hold & Hadj & Hnew & Hpos & Harea).
  exists old, adjusted, new, (stretched true
    (fold_left Math_max (Size.height <$> adjustedAreas s (children p)) (num 0)) adjusted).
  rewrite Hpos. simpl.
  split; [done|]. split; [done|]. split; [done|]. split; [exact Harea|].
  split; [apply advance_horizontal|]. split; [done|]. split; [done|].
  destruct i as [|j]; [done|].
  destruct (lookup_lt_is_Some_2 (children p) j) as [c' Hj].
  { apply lookup_lt_Some in Hi. lia. }
  destruct (Hres j c' Hj) as (old' & adjusted' & prev & Hold' & Hadj' & Hprev & Hpos' & Harea').
  exists c', prev, (Size.width adjusted'). rewrite Hpos', Harea'. simpl.
  split; [done|]. split; [done|]. split; [done|].
  rewrite (take_S_r _ _ _ Hj), (adjustedAreas_snoc _ _ _ _ _ Hold' Hadj'), fold_left_app.
  simpl. by destruct (fold_left _ _ _).
Qed.

(** *** Stack layout: completion, and what is left alone *)

Lemma Stack_completes : completes_when stack_ready StackPanelLayoutEngine.updateLayout.
Proof.
  intros prim s (p & Hp & Hready). rewrite Stack_updateLayout_loops.
  rewrite (bind_run _ _ _ _ _ (_isFlagSet_Some _ _ _ _ Hp)).
  destruct (negb _); [|by eexists].
  rewrite (bind_run _ _ _ _ _ (get_this_run s)). cbn zeta.
  set (h := StackPanelLayoutEngine.isHorizontal (this s)).
  rewrite (bind_run _ _ _ _ _ (deref_Some _ _ _ Hp)).
  destruct (foldM_Normal
              (fun s1 : State StackPanelLayoutEngine.t =>
                 prims s1 = prims s ∧ length (sizes s1) = length (sizes s))
              (measure_body h) (children p)) with (b := num 0) (s := s)
    as (max & s1 & Hrun1 & Hprims1 & Hlen1); [|done|].
  { intros max c s1 Hc [Hprims Hlen].
    destruct (Hready c Hc) as (n & Hn & Hsrc & Hdst).
    apply lookup_lt_is_Some in Hsrc, Hdst. rewrite <- Hlen in Hsrc, Hdst.
    apply lookup_lt_is_Some in Hsrc as [src Hsrc], Hdst as [dst Hdst].
    rewrite <- Hprims in Hn.
    rewrite (measure_body_run h max c s1 n src dst Hn Hsrc Hdst).
    eexists _, _. split; [done|]. simpl. by rewrite length_insert. }
  rewrite (bind_run _ _ _ _ _ Hrun1).
  assert (Hp1 : prims s1 !! prim = Some p) by (by rewrite Hprims1).
  rewrite (bind_run _ _ _ _ _ (deref_Some _ _ _ Hp1)).
  destruct (foldM_Normal
              (fun s2 : State StackPanelLayoutEngine.t => is_Some (prims s2 !! prim) ∧
                         ∀ c, c ∈ children p →
                           ∃ n, prims s2 !! c = Some n ∧ is_Some (sizes s2 !! layoutArea n))
              (place_body h max) (children p)) with (b := (num 0, num 0)) (s := s1)
    as (cursor & s2 & Hrun2 & [p2 Hp2] & _).
  { intros cursor c s2 Hc [Hprim Hvalid].
    destruct (Hvalid c Hc) as (n & Hn & [a Ha]).
    rewrite (place_body_run h max cursor c s2 n a Hn Ha).
    eexists _, _. split; [done|]. simpl. split.
    - destruct (decide (c = prim)) as [->|Hne].
      + by rewrite lookup_insert_eq.
      + by rewrite lookup_insert_ne.
    - intros c' Hc'. destruct (decide (c = c')) as [<-|Hne].
      + rewrite lookup_insert_eq. eexists. split; [done|]. simpl.
        apply lookup_lt_is_Some. rewrite length_app. simpl. lia.
      + rewrite lookup_insert_ne by done.
        destruct (Hvalid c' Hc') as (n' & Hn' & Ha').
        exists n'. split; [done|]. apply lookup_lt_is_Some. rewrite length_app.
        apply lookup_lt_is_Some in Ha'. lia. }
  { split; [by rewrite Hp1|]. intros c Hc.
    destruct (Hready c Hc) as (n & Hn & _ & Hdst). exists n.
    rewrite Hprims1. split; [done|].
    apply lookup_lt_is_Some. rewrite Hlen1. by apply lookup_lt_is_Some. }
  rewrite (bind_run _ _ _ _ _ Hrun2), (_clearFlags_Some _ _ _ Hp2). by eexists.
Qed.

Lemma keeps_prims_measure_body {E : Type} h max child :
  keeps_prims (measure_body (E := E) h max child).
Proof.
  unfold measure_body.
  apply keeps_bind; [apply keeps_deref|]. intros c. cbn zeta.
  apply keeps_bind; [apply keeps_prims_call_computeArea|]. intros _.
  apply keeps_bind; [apply keeps_size_of|]. intros a. apply keeps_ret.
Qed.

Lemma within_place_body {E : Type} (P : nat -> Prop) h max cursor child :
  P child → writes_within P (place_body (E := E) h max cursor child).
Proof.
  intros HP. destruct cursor as [x y]. unfold place_body.
  apply within_bind; [by apply within_assign|]. intros _.
  apply within_bind; [apply within_keeps, keeps_deref|]. intros c. cbn zeta.
  apply within_bind; [apply within_keeps, keeps_size_of|]. intros a.
  destruct h; cbn zeta;
    (apply within_bind; [apply within_keeps, keeps_prims_new_Size|]); intros r;
    (apply within_bind; [by apply within_assign|]); intros _;
    apply within_keeps, keeps_ret.
Qed.

Lemma appends_place_body {E : Type} h max cursor child :
  appends_sizes (place_body (E := E) h max cursor child).
Proof.
  destruct cursor as [x y]. unfold place_body.
  apply appends_bind; [apply appends_keeps, keeps_sizes_assign|]. intros _.
  apply appends_bind; [apply appends_keeps, keeps_deref|]. intros c. cbn zeta.
  apply appends_bind; [apply appends_keeps, keeps_size_of|]. intros a.
  destruct h; cbn zeta;
    (apply appends_bind; [apply appends_new_Size|]); intros r;
    (apply appends_bind; [apply appends_keeps, keeps_sizes_assign|]); intros _;
    apply appends_keeps, keeps_ret.
Qed.

(** The state that the two loops of the stack layout and the clearing of
    the flag leave, whatever their outcome, against the state [s] they
    start from: a node that is neither the node laid out nor one of its
    children is what it was, so is a Size object that is not the
    layoutArea object of a child, and no Size object has gone. *)
Lemma Stack_loops_frame (s : State StackPanelLayoutEngine.t) prim p h :
  prims s !! prim = Some p →
  let s' :=
    ((max <- foldM (measure_body h) (num 0) (children p) ;;
      p <- deref prim ;;
      foldM (place_body h max) (num 0, num 0) (children p) ;;
      _clearFlags prim flagLayoutDirty) s).2 in
  (∀ r, r ≠ prim → r ∉ children p → prims s' !! r = prims s !! r) ∧
  (∀ r, (∀ c n, c ∈ children p → prims s !! c = Some n → layoutArea n ≠ r) →
        (r < length (sizes s))%nat → sizes s' !! r = sizes s !! r) ∧
  (length (sizes s) ≤ length (sizes s'))%nat.
Proof.
  intros Hp s'.
  destruct (measure_loop_frame h (children p) s (num 0)) as (_ & Hprims1 & Hlen1 & Hframe1).
  destruct (foldM (measure_body h) (num 0) (children p) s) as [[max|e] s1] eqn:Hrun1;
    simpl in Hprims1, Hlen1, Hframe1; subst s'.
  2:{ rewrite (bind_throws _ _ _ _ _ Hrun1). simpl. rewrite Hprims1, Hlen1.
      split; [done|]. split; [|done]. intros r Hr _. by apply Hframe1. }
  rewrite (bind_run _ _ _ _ _ Hrun1).
  assert (Hp1 : prims s1 !! prim = Some p) by (by rewrite Hprims1).
  rewrite (bind_run _ _ _ _ _ (deref_Some _ _ _ Hp1)).
  pose proof (within_foldM (fun c => c ∈ children p) (place_body h max) (children p)
                (fun cur c Hc => within_place_body _ h max cur c Hc) (num 0, num 0) s1)
    as Hwithin.
  destruct (appends_foldM (place_body h max) (children p)
              (appends_place_body h max) (num 0, num 0) s1) as [l Hl].
  destruct (foldM (place_body h max) (num 0, num 0) (children p) s1) as [[cur|e] s2] eqn:Hrun2;
    simpl in Hwithin, Hl.
  - rewrite (bind_run _ _ _ _ _ Hrun2).
    pose proof (within_assign (E := StackPanelLayoutEngine.t) (fun c => c = prim) prim
                  (fun p => set_flags (Z.land (_flags p) (Z.lnot flagLayoutDirty)) p)
                  eq_refl s2) as Hflag.
    pose proof (keeps_sizes_assign (E := StackPanelLayoutEngine.t) prim
                  (fun p => set_flags (Z.land (_flags p) (Z.lnot flagLayoutDirty)) p) s2)
      as Hsizes.
    fold (_clearFlags (E := StackPanelLayoutEngine.t) prim flagLayoutDirty) in Hflag, Hsizes.
    destruct (_clearFlags prim flagLayoutDirty s2) as [c3 s3]. simpl in *.
    rewrite Hsizes, Hl, length_app, <- Hlen1. split; [|split; [|lia]].
    + intros r Hne Hr. by rewrite Hflag, Hwithin, Hprims1.
    + intros r Hr Hlt. rewrite lookup_app_l by lia. by apply Hframe1.
  - rewrite (bind_throws _ _ _ _ _ Hrun2). simpl.
    rewrite Hl, length_app, <- Hlen1. split; [|split; [|lia]].
    + intros r Hne Hr. by rewrite Hwithin, Hprims1.
    + intros r Hr Hlt. rewrite lookup_app_l by lia. by apply Hframe1.
Qed.

(** *** Grid layout *)

Lemma _updateCellsList_loops prim :
  GridPanelLayoutEngine._updateCellsList prim =
    (e <- get_this ;;
     match GridPanelLayoutEngine._cells e with
     | Some _ => ret tt
     | None =>
         set_this (GridPanelLayoutEngine.set_cells (Some []) e) ;;
         e <- get_this ;;
         forM_ (seq 0 (length (GridPanelLayoutEngine._rows e))) row_body ;;
         p <- deref prim ;;
         forM_ (children p) placement_body
     end).
Proof. reflexivity. Qed.

Section GridFrame.
Context {B : Type} (f : State GridPanelLayoutEngine.t -> B).
Hypothesis f_this : ∀ e s, f {| this := e; prims := prims s; sizes := sizes s |} = f s.

Lemma keeps_cells : keeps f GridPanelLayoutEngine.cells.
Proof.
  apply keeps_bind; [apply keeps_get_this|]. intros e.
  destruct (GridPanelLayoutEngine._cells e); [apply keeps_ret | apply keeps_throw].
Qed.

Lemma keeps_row_body i : keeps f (row_body i).
Proof.
  apply keeps_bind; [apply keeps_cells|]. intros cs.
  apply keeps_bind; [apply keeps_get_this|]. intros e1.
  apply keeps_bind; [by apply keeps_set_this|]. intros _.
  apply keeps_bind; [apply keeps_get_this|]. intros e2.
  apply keeps_forM_. intros j.
  apply keeps_bind; [apply keeps_cells|]. intros cs'.
  destruct (array_get cs' _); [|apply keeps_throw].
  apply keeps_bind; [apply keeps_get_this|]. intros e3. by apply keeps_set_this.
Qed.

Lemma keeps_placement_body child : keeps f (placement_body child).
Proof.
  apply keeps_bind; [apply keeps_getExternalData|]. intros [pgi|]; [|apply keeps_throw].
  apply keeps_bind; [apply keeps_cells|]. intros cs.
  destruct (array_get cs _); [apply keeps_ret | apply keeps_throw].
Qed.

Lemma keeps__updateCellsList prim : keeps f (GridPanelLayoutEngine._updateCellsList prim).
Proof.
  rewrite _updateCellsList_loops.
  apply keeps_bind; [apply keeps_get_this|]. intros e.
  destruct (GridPanelLayoutEngine._cells e); [apply keeps_ret|].
  apply keeps_bind; [by apply keeps_set_this|]. intros _.
  apply keeps_bind; [apply keeps_get_this|]. intros e'.
  apply keeps_bind; [apply keeps_forM_, keeps_row_body|]. intros _.
  apply keeps_bind; [apply keeps_deref|]. intros p.
  apply keeps_forM_, keeps_placement_body.
Qed.

Lemma keeps__updateConstants prim : keeps f (GridPanelLayoutEngine._updateConstants prim).
Proof.
  apply keeps_bind; [apply keeps_deref|]. intros p.
  apply keeps_bind; [apply keeps_get_this|]. intros e.
  destruct (GridPanelLayoutEngine.rowTotals _). apply keeps_ret.
Qed.

End GridFrame.

(** [GridPanelLayoutEngine.updateLayout] writes no Size object and makes
    none. *)
Lemma Grid_keeps_sizes prim : keeps_sizes (GridPanelLayoutEngine.updateLayout prim).
Proof.
  unfold GridPanelLayoutEngine.updateLayout.
  apply keeps_bind; [apply keeps__isFlagSet|]. intros [|]; [|apply keeps_ret].
  apply keeps_bind; [by apply keeps__updateCellsList|]. intros _.
  apply keeps_bind; [by apply keeps__updateConstants|]. intros _.
  apply keeps_sizes_assign.
Qed.

Lemma Grid_updateLayout_Throw prim (s : State GridPanelLayoutEngine.t) e s' :
  GridPanelLayoutEngine.updateLayout prim s = (Throw e, s') → prims s' = prims s.
Proof.
  unfold GridPanelLayoutEngine.updateLayout. intros Hrun.
  apply bind_Throw in Hrun as [Hrun | (b & s1 & Hflag & Hrun)].
  { by apply _isFlagSet_Throw in Hrun as ->. }
  apply _isFlagSet_Normal in Hflag as (-> & _). destruct b; [|done].
  apply bind_Throw in Hrun as [Hrun | ([] & s1 & Hcells & Hrun)].
  { by apply (keeps_run prims _ _ _ _ (keeps__updateCellsList prims (fun _ _ => eq_refl) prim))
      in Hrun. }
  apply (keeps_run prims _ _ _ _ (keeps__updateCellsList prims (fun _ _ => eq_refl) prim))
    in Hcells.
  apply bind_Throw in Hrun as [Hrun | ([] & s2 & Hconst & Hrun)].
  { apply (keeps_run prims _ _ _ _ (keeps__updateConstants prims prim)) in Hrun. congruence. }
  apply (keeps_run prims _ _ _ _ (keeps__updateConstants prims prim)) in Hconst.
  apply assign_Throw in Hrun as ->. congruence.
Qed.

(** The nodes after a call of [GridPanelLayoutEngine.updateLayout] that
    completes normally on a dirty node are the nodes before it, with the
    flag of the node laid out cleared. *)
Lemma Grid_updateLayout_Normal prim (s : State GridPanelLayoutEngine.t) p s' :
  prims s !! prim = Some p → layoutDirty p = true →
  GridPanelLayoutEngine.updateLayout prim s = (Normal tt, s') →
  prims s' = <[prim := cleared p]> (prims s).
Proof.
  intros Hp Hd Hrun. unfold GridPanelLayoutEngine.updateLayout in Hrun.
  rewrite (bind_run _ _ _ _ _ (_isFlagSet_Some _ _ _ _ Hp)) in Hrun.
  unfold layoutDirty in Hd. rewrite Hd in Hrun.
  step_Normal Hrun.
  apply (keeps_run prims _ _ _ _ (keeps__updateCellsList prims (fun _ _ => eq_refl) prim))
    in Hstep.
  step_Normal Hrun.
  apply (keeps_run prims _ _ _ _ (keeps__updateConstants prims prim)) in Hstep0.
  assert (Hp1 : prims s1 !! prim = Some p) by (by rewrite Hstep0, Hstep).
  rewrite (_clearFlags_Some _ _ _ Hp1) in Hrun. injection Hrun as <-. simpl. congruence.
Qed.

(** The nodes after any call of [GridPanelLayoutEngine.updateLayout] are
    the nodes before it, up to the flag word of the node laid out. *)
Lemma Grid_updateLayout_writes_flags_only prim (s : State GridPanelLayoutEngine.t) :
  let s' := (GridPanelLayoutEngine.updateLayout prim s).2 in
  prims s' = prims s ∨
  ∃ p flags, prims s !! prim = Some p ∧ prims s' = <[prim := set_flags flags p]> (prims s).
Proof.
  destruct (GridPanelLayoutEngine.updateLayout prim s) as [[[]|e] s'] eqn:Hrun; simpl.
  - destruct (prims s !! prim) as [p|] eqn:Hp.
    + destruct (layoutDirty p) eqn:Hd.
      * right. exists p, (Z.land (_flags p) (Z.lnot flagLayoutDirty)). split; [done|].
        by apply (Grid_updateLayout_Normal prim s p s').
      * left. unfold GridPanelLayoutEngine.updateLayout in Hrun.
        rewrite (bind_run _ _ _ _ _ (_isFlagSet_Some _ _ _ _ Hp)) in Hrun.
        unfold layoutDirty in Hd. rewrite Hd in Hrun. unfold ret in Hrun. congruence.
    + unfold GridPanelLayoutEngine.updateLayout in Hrun.
      by rewrite (bind_throws _ _ _ _ _ (_isFlagSet_None _ _ _ Hp)) in Hrun.
  - left. by eapply Grid_updateLayout_Throw.
Qed.

(** C7 (amended). [GridPanelLayoutEngine.updateLayout] places no child.
    Whether the call completes or throws, it makes no Size object and
    writes none, and the layoutArea and the layoutAreaPos of every node are
    what they were. When the call on a dirty node completes normally, the
    nodes are what they were but for the dirty flag of that node, now
    clear. *)
Theorem Grid_updateLayout_places_no_child prim (s : State GridPanelLayoutEngine.t) :
  let out := GridPanelLayoutEngine.updateLayout prim s in
  sizes out.2 = sizes s ∧
  (∀ r, layoutArea <$> prims out.2 !! r = layoutArea <$> prims s !! r ∧
        layoutAreaPos <$> prims out.2 !! r = layoutAreaPos <$> prims s !! r) ∧
  (∀ p, prims s !! prim = Some p → layoutDirty p = true → out.1 = Normal tt →
        prims out.2 = <[prim := cleared p]> (prims s)).
Proof.
  intros out. split; [apply Grid_keeps_sizes|]. split.
  - intros r. destruct (Grid_updateLayout_writes_flags_only prim s)
      as [Hsame | (p & flags & Hp & Hins)]; fold out in Hsame || fold out in Hins.
    + by rewrite Hsame.
    + rewrite Hins. destruct (decide (prim = r)) as [<-|Hne].
      * by rewrite lookup_insert_eq, Hp.
      * by rewrite lookup_insert_ne.
  - intros p Hp Hd Hnormal. apply Grid_updateLayout_Normal; [done..|].
    unfold out in *. by destruct (GridPanelLayoutEngine.updateLayout prim s) as [[[]|e] s'].
Qed.

Lemma array_get_nat {A : Type} (l : list (option A)) (i : nat) :
  array_get l (Z.of_nat i) = mjoin (l !! i).
Proof.
  unfold array_get. rewrite Nat2Z.id.
  destruct (Z.ltb_spec (Z.of_nat i) 0); [lia | done].
Qed.

Lemma cells_run (s : State GridPanelLayoutEngine.t) cs :
  GridPanelLayoutEngine._cells (this s) = Some cs →
  GridPanelLayoutEngine.cells s = (Normal cs, s).
Proof. intros Hcs. unfold GridPanelLayoutEngine.cells, bind, get_this, get, ret. simpl. by rewrite Hcs. Qed.

Lemma cells_None (s : State GridPanelLayoutEngine.t) :
  GridPanelLayoutEngine._cells (this s) = None →
  GridPanelLayoutEngine.cells s = (Throw TypeError, s).
Proof. intros Hcs. unfold GridPanelLayoutEngine.cells, bind, get_this, get, ret. simpl. by rewrite Hcs. Qed.

Lemma placement_body_cases child s :
  placement_body child s = (Normal tt, s) ∨ placement_body child s = (Throw TypeError, s).
Proof.
  unfold placement_body. destruct (prims s !! child) as [n|] eqn:Hn.
  - rewrite (bind_run _ _ _ _ _ (getExternalData_Some _ _ _ _ Hn)).
    destruct (_externalData n !! "grid") as [pgi|]; [|by right].
    destruct (GridPanelLayoutEngine._cells (this s)) as [cs|] eqn:Hcs.
    + rewrite (bind_run _ _ _ _ _ (cells_run _ _ Hcs)).
      destruct (array_get cs _); [by left | by right].
    + right. by rewrite (bind_throws _ _ _ _ _ (cells_None _ Hcs)).
  - right. by rewrite (bind_throws _ _ _ _ _ (getExternalData_None _ _ _ Hn)).
Qed.

Lemma placement_body_missing child s n :
  prims s !! child = Some n → _externalData n !! "grid" = None →
  placement_body child s = (Throw TypeError, s).
Proof.
  intros Hn Hg. unfold placement_body.
  by rewrite (bind_run _ _ _ _ _ (getExternalData_Some _ _ _ _ Hn)), Hg.
Qed.

Lemma placement_loop_throws cs : ∀ s child n,
  child ∈ cs → prims s !! child = Some n → _externalData n !! "grid" = None →
  forM_ cs placement_body s = (Throw TypeError, s).
Proof.
  induction cs as [|c cs IH]; intros s child n Hin Hn Hg; [by apply elem_of_nil in Hin|].
  unfold forM_. cbn [foldM].
  destruct (decide (c = child)) as [->|Hne].
  - by rewrite (bind_throws _ _ _ _ _ (placement_body_missing _ _ _ Hn Hg)).
  - destruct (placement_body_cases c s) as [Hc|Hc].
    + rewrite (bind_run _ _ _ _ _ Hc).
      apply elem_of_cons in Hin as [?|Hin]; [done|]. by eapply IH.
    + by rewrite (bind_throws _ _ _ _ _ Hc).
Qed.

Lemma placement_loop_state cs (s : State GridPanelLayoutEngine.t) :
  (forM_ cs placement_body s).2 = s.
Proof.
  induction cs as [|c cs IH]; [done|]. unfold forM_ in *. cbn [foldM].
  destruct (placement_body_cases c s) as [Hc|Hc].
  - by rewrite (bind_run _ _ _ _ _ Hc).
  - by rewrite (bind_throws _ _ _ _ _ Hc).
Qed.

Section Table.
Context (e0 : GridPanelLayoutEngine.t) (ps : gmap nat Prim2DBase) (zs : list Size.t).

Lemma cells_building table :
  GridPanelLayoutEngine.cells (building e0 ps zs table)
    = (Normal table, building e0 ps zs table).
Proof. reflexivity. Qed.

Lemma cell_body_step (done_rows : list (option (list (option CellInfo)))) i j :
  length done_rows = i →
  cell_body i j (building e0 ps zs (done_rows ++ [Some (replicate j (Some new_CellInfo))])) =
    (Normal tt, building e0 ps zs (done_rows ++ [Some (replicate (S j) (Some new_CellInfo))])).
Proof.
  intros Hi. unfold cell_body. cbn zeta.
  rewrite (bind_run _ _ _ _ _ (cells_building _)), array_get_nat.
  rewrite list_lookup_middle by done. simpl.
  rewrite (bind_run _ _ _ _ _ (get_this_run _)).
  unfold set_this, bind, get, put, building, GridPanelLayoutEngine.set_cells. simpl.
  do 4 f_equal.
  unfold array_set at 1. rewrite length_app, Hi. simpl.
  destruct (Nat.ltb_spec i (i + 1)); [|lia].
  rewrite insert_app_r_alt, Hi, Nat.sub_diag by lia. simpl. do 3 f_equal.
  unfold array_set. rewrite length_replicate.
  destruct (Nat.ltb_spec j j); [lia|].
  rewrite Nat.sub_diag. simpl. by rewrite replicate_cons_app.
Qed.

Lemma cell_loop (done_rows : list (option (list (option CellInfo)))) i cl :
  length done_rows = i →
  forM_ (seq 0 cl) (cell_body i) (building e0 ps zs (done_rows ++ [Some []])) =
    (Normal tt, building e0 ps zs (done_rows ++ [Some (replicate cl (Some new_CellInfo))])).
Proof.
  intros Hi.
  destruct (forM_seq_Normal
              (fun j s => s = building e0 ps zs (done_rows ++ [Some (replicate j (Some new_CellInfo))]))
              (cell_body i) cl) with (start := 0%nat) (s := building e0 ps zs (done_rows ++ [Some []]))
    as (s' & Hrun & ->); [|done|done].
  intros j s ->. eexists. split; [by apply cell_body_step|done].
Qed.

Lemma row_body_step i :
  row_body i (building e0 ps zs (full_table i (length (GridPanelLayoutEngine._columns e0)))) =
    (Normal tt, building e0 ps zs (full_table (S i) (length (GridPanelLayoutEngine._columns e0)))).
Proof.
  unfold row_body.
  rewrite (bind_run _ _ _ _ _ (cells_building _)).
  rewrite (bind_run _ _ _ _ _ (get_this_run _)).
  rewrite (bind_run _ _ _ _ _ (set_this_run _ _)).
  rewrite (bind_run _ _ _ _ _ (get_this_run _)). cbn zeta.
  set (cl := length (GridPanelLayoutEngine._columns e0)).
  assert (Hstate :
    {| this := GridPanelLayoutEngine.set_cells
                 (Some (array_set (full_table i cl) i []))
                 (this (building e0 ps zs (full_table i cl)));
       prims := prims (building e0 ps zs (full_table i cl));
       sizes := sizes (building e0 ps zs (full_table i cl)) |}
    = building e0 ps zs (full_table i cl ++ [Some []])).
  { unfold building, GridPanelLayoutEngine.set_cells. simpl. do 4 f_equal.
    unfold array_set, full_table. rewrite length_replicate.
    destruct (Nat.ltb_spec i i); [lia|]. by rewrite Nat.sub_diag. }
  rewrite Hstate. unfold full_table at 3. rewrite replicate_S_end.
  change (length (GridPanelLayoutEngine._columns
            (this (building e0 ps zs (full_table i cl ++ [Some []]))))) with cl.
  by apply (cell_loop (full_table i cl) i), length_replicate.
Qed.

Lemma row_loop rl :
  forM_ (seq 0 rl) row_body (building e0 ps zs []) =
    (Normal tt, building e0 ps zs (full_table rl (length (GridPanelLayoutEngine._columns e0)))).
Proof.
  destruct (forM_seq_Normal
              (fun i s => s = building e0 ps zs (full_table i (length (GridPanelLayoutEngine._columns e0))))
              row_body rl) with (start := 0%nat) (s := building e0 ps zs [])
    as (s' & Hrun & ->); [|done|done].
  intros i s ->. eexists. split; [by apply row_body_step|done].
Qed.

End Table.

Lemma array_get_full rl cl (row : Z) :
  is_Some (array_get (full_table rl cl) row) ↔ 0 ≤ row < Z.of_nat rl.
Proof.
  unfold array_get, full_table. destruct (Z.ltb_spec row 0) as [Hneg|Hpos].
  - split; [by intros [? ?] | lia].
  - destruct (decide (Z.to_nat row < rl)%nat) as [Hlt|Hge].
    + rewrite lookup_replicate_2 by done. simpl. split; [lia | by eauto].
    + rewrite (proj1 (lookup_replicate_None _ _ _)) by lia. simpl.
      split; [by intros [? ?] | lia].
Qed.

Lemma placement_body_Normal rl cl (s : State GridPanelLayoutEngine.t) c :
  GridPanelLayoutEngine._cells (this s) = Some (full_table rl cl) →
  placement_body c s = (Normal tt, s) ↔ placeable (prims s) rl c.
Proof.
  intros Hcells. unfold placement_body, placeable.
  destruct (prims s !! c) as [n|] eqn:Hn.
  - rewrite (bind_run _ _ _ _ _ (getExternalData_Some _ _ _ _ Hn)).
    destruct (_externalData n !! "grid") as [pgi|] eqn:Hg.
    + rewrite (bind_run _ _ _ _ _ (cells_run _ _ Hcells)).
      pose proof (array_get_full rl cl (PrimitiveGridInfo.row pgi)) as Hrow.
      destruct (array_get _ _) as [r|].
      * split; [|done]. intros _. exists n, pgi. repeat split; try done; apply Hrow; eauto.
      * split; [done|]. intros (n' & pgi' & [= <-] & Hg' & Hr).
        rewrite Hg in Hg'. injection Hg' as <-.
        apply Hrow in Hr as [? ?]. done.
    + split; [done|]. intros (n' & pgi' & [= <-] & Hg' & _). congruence.
  - rewrite (bind_throws _ _ _ _ _ (getExternalData_None _ _ _ Hn)).
    split; [done|]. by intros (n' & pgi' & ? & _).
Qed.

Lemma placement_loop_Normal rl cl cs (s : State GridPanelLayoutEngine.t) :
  GridPanelLayoutEngine._cells (this s) = Some (full_table rl cl) →
  (forM_ cs placement_body s).1 = Normal tt ↔ ∀ c, c ∈ cs → placeable (prims s) rl c.
Proof.
  intros Hcells. induction cs as [|c cs IH].
  - split; [|done]. intros _ c Hc. by apply elem_of_nil in Hc.
  - unfold forM_ in *. cbn [foldM].
    pose proof (placement_body_Normal rl cl s c Hcells) as Hbody.
    destruct (placement_body_cases c s) as [Hc|Hc].
    + rewrite (bind_run _ _ _ _ _ Hc), IH. split.
      * intros Hall c' [->|Hc']%elem_of_cons; [by apply Hbody | by apply Hall].
      * intros Hall c' Hc'. apply Hall. by right.
    + rewrite (bind_throws _ _ _ _ _ Hc). simpl. split; [done|].
      intros Hall. assert (Hn : placement_body c s = (Normal tt, s))
        by (apply Hbody, Hall; by left).
      congruence.
Qed.

(** The first [_updateCellsList] of an engine: the full table is built, and
    the outcome is that of the loop over the children. *)
Lemma _updateCellsList_first e (s : gmap nat Prim2DBase) (zs : list Size.t) prim p :
  GridPanelLayoutEngine._cells e = None → s !! prim = Some p →
  GridPanelLayoutEngine._updateCellsList prim {| this := e; prims := s; sizes := zs |} =
    ((forM_ (children p) placement_body
        {| this := with_table e; prims := s; sizes := zs |}).1,
     {| this := with_table e; prims := s; sizes := zs |}).
Proof.
  intros Hcells Hp. rewrite _updateCellsList_loops.
  rewrite (bind_run _ _ _ _ _ (get_this_run _)). simpl. rewrite Hcells.
  rewrite (bind_run _ _ _ _ _ (set_this_run _ _)).
  rewrite (bind_run _ _ _ _ _ (get_this_run _)). simpl.
  change {| this := GridPanelLayoutEngine.set_cells (Some []) e; prims := s; sizes := zs |}
    with (building e s zs []).
  rewrite (bind_run _ _ _ _ _ (row_loop e s zs _)).
  change (building e s zs (full_table (length (GridPanelLayoutEngine._rows e))
                                      (length (GridPanelLayoutEngine._columns e))))
    with {| this := with_table e; prims := s; sizes := zs |}.
  assert (Hp' : prims {| this := with_table e; prims := s; sizes := zs |} !! prim = Some p)
    by done.
  rewrite (bind_run _ _ _ _ _ (deref_Some _ _ _ Hp')).
  pose proof (placement_loop_state (children p)
                {| this := with_table e; prims := s; sizes := zs |}) as Hst.
  destruct (forM_ (children p) placement_body _) as [c s']. simpl in *. by rewrite Hst.
Qed.

Lemma _updateCellsList_built (s : State GridPanelLayoutEngine.t) prim table :
  GridPanelLayoutEngine._cells (this s) = Some table →
  GridPanelLayoutEngine._updateCellsList prim s = (Normal tt, s).
Proof.
  intros Hcells. rewrite _updateCellsList_loops.
  rewrite (bind_run _ _ _ _ _ (get_this_run _)). by rewrite Hcells.
Qed.

Lemma _updateConstants_run (s : State GridPanelLayoutEngine.t) prim p :
  prims s !! prim = Some p →
  GridPanelLayoutEngine._updateConstants prim s = (Normal tt, s).
Proof.
  intros Hp. unfold GridPanelLayoutEngine._updateConstants.
  rewrite (bind_run _ _ _ _ _ (deref_Some _ _ _ Hp)).
  rewrite (bind_run _ _ _ _ _ (get_this_run _)).
  by destruct (GridPanelLayoutEngine.rowTotals _).
Qed.

(** The tail of [GridPanelLayoutEngine.updateLayout], once the cell list is
    up to date: the totals are computed and dropped, the flag is cleared. *)
Lemma Grid_updateLayout_tail (s : State GridPanelLayoutEngine.t) prim p :
  prims s !! prim = Some p →
  (GridPanelLayoutEngine._updateConstants prim ;; _clearFlags prim flagLayoutDirty) s =
    (Normal tt, {| this := this s; prims := <[prim := cleared p]> (prims s);
                   sizes := sizes s |}).
Proof.
  intros Hp. rewrite (bind_run _ _ _ _ _ (_updateConstants_run _ _ _ Hp)).
  by apply _clearFlags_Some.
Qed.

(** The first call on a dirty node, in full: the table is built, and the
    call completes, clearing the flag, or throws, writing no node,
    according to the loop over the children. *)
Lemma Grid_first_call e (s : gmap nat Prim2DBase) (zs : list Size.t) prim p :
  s !! prim = Some p → layoutDirty p = true →
  GridPanelLayoutEngine._cells e = None →
  let st := {| this := with_table e; prims := s; sizes := zs |} in
  GridPanelLayoutEngine.updateLayout prim {| this := e; prims := s; sizes := zs |} =
    match (forM_ (children p) placement_body st).1 with
    | Normal _ =>
        (Normal tt, {| this := with_table e; prims := <[prim := cleared p]> s; sizes := zs |})
    | Throw err => (Throw err, st)
    end.
Proof.
  intros Hp Hd Hcells st. unfold GridPanelLayoutEngine.updateLayout.
  assert (Hp0 : prims {| this := e; prims := s; sizes := zs |} !! prim = Some p) by done.
  rewrite (bind_run _ _ _ _ _ (_isFlagSet_Some _ _ _ _ Hp0)).
  unfold layoutDirty in Hd. rewrite Hd.
  pose proof (_updateCellsList_first e s zs prim p Hcells Hp) as Hfirst. fold st in Hfirst.
  destruct (forM_ (children p) placement_body st).1 as [[]|err].
  - rewrite (bind_run _ _ _ _ _ Hfirst).
    by rewrite (Grid_updateLayout_tail st prim p).
  - by rewrite (bind_throws _ _ _ _ _ Hfirst).
Qed.

(** A later call on a dirty node, in full. *)
Lemma Grid_later_call (s : State GridPanelLayoutEngine.t) prim p table :
  prims s !! prim = Some p → layoutDirty p = true →
  GridPanelLayoutEngine._cells (this s) = Some table →
  GridPanelLayoutEngine.updateLayout prim s
    = (Normal tt, {| this := this s; prims := <[prim := cleared p]> (prims s);
                     sizes := sizes s |}).
Proof.
  intros Hp Hd Hcells. unfold GridPanelLayoutEngine.updateLayout.
  rewrite (bind_run _ _ _ _ _ (_isFlagSet_Some _ _ _ _ Hp)).
  unfold layoutDirty in Hd. rewrite Hd.
  rewrite (bind_run _ _ _ _ _ (_updateCellsList_built _ _ _ Hcells)).
  by apply Grid_updateLayout_tail.
Qed.

Lemma Grid_completes : completes_when grid_ready GridPanelLayoutEngine.updateLayout.
Proof.
  intros prim s (p & Hp & Hready).
  destruct (layoutDirty p) eqn:Hd.
  2:{ exists s. unfold GridPanelLayoutEngine.updateLayout.
      rewrite (bind_run _ _ _ _ _ (_isFlagSet_Some _ _ _ _ Hp)).
      unfold layoutDirty in Hd. by rewrite Hd. }
  destruct (GridPanelLayoutEngine._cells (this s)) as [table|] eqn:Hcells.
  - eexists. by apply (Grid_later_call s prim p table).
  - destruct Hready as [[? ?]|Hready]; [done|].
    destruct s as [e ps zs]. simpl in *.
    rewrite (Grid_first_call e ps zs prim p Hp Hd Hcells). cbn zeta.
    pose proof (placement_loop_Normal (length (GridPanelLayoutEngine._rows e))
                  (length (GridPanelLayoutEngine._columns e)) (children p)
                  {| this := with_table e; prims := ps; sizes := zs |} eq_refl) as Hloop.
    apply Hloop in Hready. rewrite Hready. by eexists.
Qed.

(** C8 (amended). A failure of [GridPanelLayoutEngine.updateLayout] is
    a throw that leaves the method uncaught, and it leaves every node and
    every Size object as it was, so the dirty flag of the node stays set.
    In particular, when the engine has not built its cell table yet and a
    child of the dirty node lacks the ["grid"] entry, the call throws a
    TypeError. *)
Theorem Grid_failure_is_thrown e (s : gmap nat Prim2DBase) (zs : list Size.t) prim :
  (∀ err s', GridPanelLayoutEngine.updateLayout prim {| this := e; prims := s; sizes := zs |}
               = (Throw err, s') → prims s' = s ∧ sizes s' = zs) ∧
  (∀ p child n,
     s !! prim = Some p → layoutDirty p = true →
     GridPanelLayoutEngine._cells e = None →
     child ∈ children p → s !! child = Some n → _externalData n !! "grid" = None →
     ∃ e', GridPanelLayoutEngine.updateLayout prim {| this := e; prims := s; sizes := zs |}
             = (Throw TypeError, {| this := e'; prims := s; sizes := zs |}) ∧
           dirty s prim).
Proof.
  split.
  - intros err s' Hrun. split.
    + by apply Grid_updateLayout_Throw in Hrun.
    + by apply (keeps_run sizes _ _ _ _ (Grid_keeps_sizes prim)) in Hrun.
  - intros p child n Hp Hd Hcells Hin Hn Hg.
    exists (with_table e). split; [|by exists p].
    rewrite (Grid_first_call e s zs prim p Hp Hd Hcells). cbn zeta.
    by rewrite (placement_loop_throws (children p)
                  {| this := with_table e; prims := s; sizes := zs |} child n Hin Hn Hg).
Qed.

(** *** Canvas layout *)

(** [_doUpdate] writes the primitive it is given and no other, and no Size
    object. *)
Lemma _doUpdate_within (P : nat -> Prop) prim :
  P prim → writes_within P (CanvasLayoutEngine._doUpdate prim).
Proof.
  intros HP. unfold CanvasLayoutEngine._doUpdate.
  apply within_bind; [apply within_keeps, keeps_deref|]. intros p.
  destruct (isCanvas2D p); [by apply within_assign|].
  apply within_bind; [apply within_keeps, keeps_instanceof_Canvas2D|]. intros [|].
  - apply within_bind; [apply within_keeps, keeps_deref_opt|]. intros o.
    by apply within_assign.
  - apply within_bind; [apply within_keeps, keeps_deref_opt|]. intros q.
    by apply within_assign.
Qed.

Lemma keeps_sizes__doUpdate prim : keeps_sizes (CanvasLayoutEngine._doUpdate prim).
Proof.
  unfold CanvasLayoutEngine._doUpdate.
  apply keeps_bind; [apply keeps_deref|]. intros p.
  destruct (isCanvas2D p); [apply keeps_sizes_assign|].
  apply keeps_bind; [apply keeps_instanceof_Canvas2D|]. intros [|].
  - apply keeps_bind; [apply keeps_deref_opt|]. intros o. apply keeps_sizes_assign.
  - apply keeps_bind; [apply keeps_deref_opt|]. intros q. apply keeps_sizes_assign.
Qed.

(** [CanvasLayoutEngine.updateLayout] writes no Size object and makes
    none: it hands out the Size objects that are there. *)
Lemma Canvas_keeps_sizes prim : keeps_sizes (CanvasLayoutEngine.updateLayout prim).
Proof.
  unfold CanvasLayoutEngine.updateLayout.
  apply keeps_bind; [apply keeps__isFlagSet|]. intros [|]; [|apply keeps_ret].
  apply keeps_bind; [apply keeps_deref|]. intros p.
  apply keeps_bind; [apply keeps_forM_, keeps_sizes__doUpdate|]. intros _.
  apply keeps_sizes_assign.
Qed.

(** [CanvasLayoutEngine.updateLayout] leaves the layoutArea of the node it
    is called on as it was, unless that node is one of its own children:
    only the children go through [_doUpdate]. *)
Lemma Canvas_updateLayout_keeps_own_area prim (s : State CanvasLayoutEngine.t) p :
  prims s !! prim = Some p → prim ∉ children p →
  layoutArea <$> prims (CanvasLayoutEngine.updateLayout prim s).2 !! prim
    = Some (layoutArea p).
Proof.
  intros Hp Hself. unfold CanvasLayoutEngine.updateLayout.
  rewrite (bind_run _ _ _ _ _ (_isFlagSet_Some _ _ _ _ Hp)).
  destruct (negb _); [|by simpl; rewrite Hp].
  rewrite (bind_run _ _ _ _ _ (deref_Some _ _ _ Hp)).
  pose proof (within_foldM (fun r => r ∈ children p) (fun _ => CanvasLayoutEngine._doUpdate)
                (children p) (fun _ a Ha => _doUpdate_within _ a Ha) tt s prim Hself)
    as Hloop.
  unfold forM_, bind at 1.
  destruct (foldM _ tt (children p) s) as [[[]|e] s1];
    simpl in Hloop; rewrite Hp in Hloop; [|by simpl; rewrite Hloop].
  unfold _clearFlags. rewrite (assign_Some _ _ _ _ Hloop). simpl.
  by rewrite lookup_insert_eq.
Qed.

Lemma same_but_areas_fields (s1 s2 : gmap nat Prim2DBase) (o : option nat) :
  same_but_areas s1 s2 →
  isCanvas2D <$> (o ≫= (s1 !!.)) = isCanvas2D <$> (o ≫= (s2 !!.)) ∧
  actualSize <$> (o ≫= (s1 !!.)) = actualSize <$> (o ≫= (s2 !!.)) ∧
  contentArea <$> (o ≫= (s1 !!.)) = contentArea <$> (o ≫= (s2 !!.)).
Proof.
  intros Hs. destruct o as [r|]; simpl; [|done]. specialize (Hs r).
  destruct (s1 !! r) as [n1|], (s2 !! r) as [n2|]; simpl in *; try done.
  assert (Hw : without_area n1 = without_area n2) by congruence.
  split; [|split]; f_equal.
  - by apply (f_equal isCanvas2D) in Hw.
  - by apply (f_equal actualSize) in Hw.
  - by apply (f_equal contentArea) in Hw.
Qed.

Lemma canvas_area_same (s1 s2 : gmap nat Prim2DBase) c :
  same_but_areas s1 s2 → canvas_area s1 c = canvas_area s2 c.
Proof.
  intros Hs. unfold canvas_area.
  destruct (same_but_areas_fields s1 s2 (parent c) Hs) as (-> & _ & ->).
  by destruct (same_but_areas_fields s1 s2 (owner c) Hs) as (_ & -> & _).
Qed.

Lemma canvas_area_without (s : gmap nat Prim2DBase) n1 n2 :
  without_area n1 = without_area n2 → canvas_area s n1 = canvas_area s n2.
Proof.
  intros Hw. unfold canvas_area.
  pose proof (f_equal isCanvas2D Hw) as Hc. pose proof (f_equal parent Hw) as Hp.
  pose proof (f_equal owner Hw) as Ho. pose proof (f_equal actualSize Hw) as Ha.
  simpl in *. by rewrite Hc, Hp, Ho, Ha.
Qed.

Lemma same_but_areas_insert (s : gmap nat Prim2DBase) c n a :
  s !! c = Some n → same_but_areas (<[c := set_layoutArea a n]> s) s.
Proof.
  intros Hn r. destruct (decide (c = r)) as [<-|Hne].
  - by rewrite lookup_insert_eq, Hn.
  - by rewrite lookup_insert_ne.
Qed.

Lemma _doUpdate_run c (s : State CanvasLayoutEngine.t) n a :
  prims s !! c = Some n → canvas_area (prims s) n = Some a →
  CanvasLayoutEngine._doUpdate c s =
    (Normal tt, {| this := this s; prims := <[c := set_layoutArea a n]> (prims s);
                   sizes := sizes s |}).
Proof.
  intros Hn Ha. unfold CanvasLayoutEngine._doUpdate, canvas_area in *.
  rewrite (bind_run _ _ _ _ _ (deref_Some _ _ _ Hn)).
  destruct (isCanvas2D n).
  { injection Ha as <-. by apply assign_Some. }
  rewrite (bind_run _ _ _ _ _ (instanceof_Canvas2D_run _ _)).
  destruct (default false _).
  - destruct (owner n ≫= (prims s !!.)) as [o|] eqn:Ho; [|done].
    injection Ha as <-. rewrite (bind_run _ _ _ _ _ (deref_opt_Some _ _ _ Ho)).
    by apply assign_Some.
  - destruct (parent n ≫= (prims s !!.)) as [q|] eqn:Hq; [|done].
    injection Ha as <-. rewrite (bind_run _ _ _ _ _ (deref_opt_Some _ _ _ Hq)).
    by apply assign_Some.
Qed.

(** The loop of [CanvasLayoutEngine.updateLayout] over distinct children
    that [_doUpdate] can serve: each child receives its canvas area, read
    among the nodes as they were, and nothing else is written. *)
Lemma canvas_loop (s0 : gmap nat Prim2DBase) cs : ∀ s : State CanvasLayoutEngine.t,
  NoDup cs → same_but_areas (prims s) s0 →
  (∀ c, c ∈ cs → ∃ n a, prims s !! c = Some n ∧ canvas_area s0 n = Some a) →
  ∃ s1 : gmap nat Prim2DBase,
    forM_ cs CanvasLayoutEngine._doUpdate s
      = (Normal tt, {| this := this s; prims := s1; sizes := sizes s |}) ∧
    (∀ c, c ∉ cs → s1 !! c = prims s !! c) ∧
    (∀ c, c ∈ cs → ∃ n a, prims s !! c = Some n ∧ canvas_area s0 n = Some a ∧
                          s1 !! c = Some (set_layoutArea a n)).
Proof.
  induction cs as [|c cs IH]; intros s Hnd Hsame Hin.
  - exists (prims s). unfold forM_. simpl. unfold ret. rewrite State_eta.
    split; [done|]. split; [done|]. intros c Hc. by apply elem_of_nil in Hc.
  - apply NoDup_cons in Hnd as [Hc Hnd].
    destruct (Hin c) as (n & a & Hn & Ha); [by left|].
    set (s' := {| this := this s; prims := <[c := set_layoutArea a n]> (prims s);
                  sizes := sizes s |}).
    assert (Hrun : CanvasLayoutEngine._doUpdate c s = (Normal tt, s')).
    { apply _doUpdate_run; [done|]. by rewrite (canvas_area_same _ _ _ Hsame). }
    destruct (IH s' Hnd) as (s1 & Hloop & Hframe & Hupd).
    { intros r. simpl. rewrite (same_but_areas_insert _ _ _ _ Hn r). apply Hsame. }
    { intros c' Hc'. destruct (Hin c') as (n' & a' & Hn' & Ha'); [by right|].
      exists n', a'. split; [|done]. simpl. rewrite lookup_insert_ne; [done|].
      by intros ->. }
    exists s1. split; [|split].
    + unfold forM_ in *. cbn [foldM]. by rewrite (bind_run _ _ _ _ _ Hrun).
    + intros c' Hc'. apply not_elem_of_cons in Hc' as [Hne Hc'].
      rewrite (Hframe _ Hc'). simpl. by apply lookup_insert_ne.
    + intros c' Hc'. destruct (decide (c' = c)) as [->|Hne].
      * exists n, a. split; [done|]. split; [done|].
        rewrite (Hframe _ Hc). simpl. apply lookup_insert_eq.
      * apply elem_of_cons in Hc' as [?|Hc']; [done|].
        destruct (Hupd _ Hc') as (n' & a' & Hn' & Ha' & Hs1).
        exists n', a'. simpl in Hn'. rewrite lookup_insert_ne in Hn' by done. done.
Qed.

(** What [CanvasLayoutEngine.updateLayout] does for the children of a dirty
    node: each child receives its canvas area. For a child of a Canvas2D
    that is the actualSize object of the owner, for a child of any other
    node the contentArea object of that node. No Size object is written. *)
Lemma Canvas_updateLayout_children e (s : gmap nat Prim2DBase) (zs : list Size.t) prim p :
  s !! prim = Some p → layoutDirty p = true → NoDup (children p) →
  (∀ c, c ∈ children p → ∃ n a, s !! c = Some n ∧ canvas_area s n = Some a) →
  ∃ s' : gmap nat Prim2DBase,
    CanvasLayoutEngine.updateLayout prim {| this := e; prims := s; sizes := zs |}
      = (Normal tt, {| this := e; prims := s'; sizes := zs |}) ∧
    ∀ c, c ∈ children p →
      ∃ n new, s !! c = Some n ∧ s' !! c = Some new ∧
               canvas_area s n = Some (layoutArea new).
Proof.
  intros Hp Hd Hnd Hin. unfold CanvasLayoutEngine.updateLayout.
  set (s0 := {| this := e; prims := s; sizes := zs |}).
  assert (Hp0 : prims s0 !! prim = Some p) by done.
  rewrite (bind_run _ _ _ _ _ (_isFlagSet_Some _ _ _ _ Hp0)).
  unfold layoutDirty in Hd. rewrite Hd.
  rewrite (bind_run _ _ _ _ _ (deref_Some _ _ _ Hp0)).
  destruct (canvas_loop s (children p) s0 Hnd) as (s1 & Hloop & Hframe & Hupd);
    [done | done |].
  rewrite (bind_run _ _ _ _ _ Hloop).
  assert (∃ p1, s1 !! prim = Some p1) as (p1 & Hp1).
  { destruct (decide (prim ∈ children p)) as [Hi|Hi].
    - destruct (Hupd _ Hi) as (n & a & _ & _ & ->). by eexists.
    - rewrite (Hframe _ Hi). by eexists. }
  unfold _clearFlags.
  rewrite (assign_Some prim _ {| this := this s0; prims := s1; sizes := sizes s0 |} p1 Hp1).
  eexists. split; [reflexivity|].
  intros c Hc. destruct (Hupd _ Hc) as (n & a & Hn & Ha & Hs1).
  exists n. simpl. destruct (decide (c = prim)) as [->|Hne].
  - rewrite lookup_insert_eq. eexists. split; [done|]. split; [done|].
    rewrite Hs1 in Hp1. by injection Hp1 as <-.
  - rewrite lookup_insert_ne by done. eexists. by repeat split.
Qed.

Lemma Canvas_completes : completes_when canvas_ready CanvasLayoutEngine.updateLayout.
Proof.
  intros prim s (p & Hp & Hready). unfold CanvasLayoutEngine.updateLayout.
  rewrite (bind_run _ _ _ _ _ (_isFlagSet_Some _ _ _ _ Hp)).
  destruct (negb _); [|by eexists].
  rewrite (bind_run _ _ _ _ _ (deref_Some _ _ _ Hp)).
  destruct (foldM_Normal
              (fun s1 : State CanvasLayoutEngine.t => same_but_areas (prims s1) (prims s))
              (fun _ => CanvasLayoutEngine._doUpdate) (children p))
    with (b := tt) (s := s) as ([] & s1 & Hrun & Hsame); [|done|].
  { intros [] c s1 Hc Hsame.
    destruct (Hready c Hc) as (n & Hn & [a Ha]).
    pose proof (Hsame c) as Hc1. rewrite Hn in Hc1.
    destruct (prims s1 !! c) as [n1|] eqn:Hn1; [|done].
    assert (Hw : without_area n1 = without_area n) by (simpl in Hc1; congruence).
    rewrite (_doUpdate_run c s1 n1 a Hn1).
    2:{ by rewrite (canvas_area_same _ _ _ Hsame), (canvas_area_without _ _ _ Hw). }
    eexists tt, _. split; [done|]. simpl. intros r.
    rewrite (same_but_areas_insert _ _ _ _ Hn1 r). apply Hsame. }
  unfold forM_. rewrite (bind_run _ _ _ _ _ Hrun).
  pose proof (Hsame prim) as Hprim. rewrite Hp in Hprim.
  destruct (prims s1 !! prim) as [p1|] eqn:Hp1; [|done].
  rewrite (_clearFlags_Some _ _ _ Hp1). by eexists.
Qed.

(** *** The dirty-flag protocol, with completion *)

(** C1. For each of the three concrete engines: when [updateLayout]
    completes normally the layout-dirty flag of its node is clear; on a
    node whose flag is already clear, [updateLayout] completes normally
    and leaves the whole state (every node, every Size object and the
    engine) as it was, so that a second call right after a successful one
    changes nothing; and the call does complete normally on the inputs that
    are ready for the engine: for the canvas engine, a node whose children
    exist, each with the node it reads its area from; for the stack engine,
    a node whose children exist with their actualSize and layoutArea
    objects; for the grid engine, a node whose children exist and carry a
    ["grid"] entry with a row of the grid, or any node once the cell table
    is built. *)
Theorem updateLayout_dirty_flag_protocol :
  (clears_dirty_flag CanvasLayoutEngine.updateLayout ∧
   noop_when_clean CanvasLayoutEngine.updateLayout ∧
   completes_when canvas_ready CanvasLayoutEngine.updateLayout) ∧
  (clears_dirty_flag StackPanelLayoutEngine.updateLayout ∧
   noop_when_clean StackPanelLayoutEngine.updateLayout ∧
   completes_when stack_ready StackPanelLayoutEngine.updateLayout) ∧
  (clears_dirty_flag GridPanelLayoutEngine.updateLayout ∧
   noop_when_clean GridPanelLayoutEngine.updateLayout ∧
   completes_when grid_ready GridPanelLayoutEngine.updateLayout).
Proof.
  split; [|split]; (split; [|split]).
  - exact Canvas_clears.
  - intros prim s Hc. unfold CanvasLayoutEngine.updateLayout.
    by rewrite (bind_run _ _ _ _ _ (clean_not_set _ _ Hc)).
  - exact Canvas_completes.
  - exact Stack_clears.
  - intros prim s Hc. unfold StackPanelLayoutEngine.updateLayout.
    by rewrite (bind_run _ _ _ _ _ (clean_not_set _ _ Hc)).
  - exact Stack_completes.
  - exact Grid_clears.
  - intros prim s Hc. unfold GridPanelLayoutEngine.updateLayout.
    by rewrite (bind_run _ _ _ _ _ (clean_not_set _ _ Hc)).
  - exact Grid_completes.
Qed.

End Properties.

(** * The properties on the concrete scenes *)

(** C1, on the scene: the canvas layout of the canvas, the horizontal
    stack layout of the group and the grid layout of the group complete
    normally and leave the dirty flag of their node clear; and laying out
    the clean first child changes nothing. *)
Lemma updateLayout_dirty_flag_protocol_witness :
  (∃ s', CanvasLayoutEngine.updateLayout (H := Scene.host) 0%nat
           (Scene.start CanvasLayoutEngine.Singleton) = (Normal tt, s') ∧
         clean (H := Scene.host) (prims s') 0%nat) ∧
  (∃ s', StackPanelLayoutEngine.updateLayout (H := Scene.host) 1%nat
           (Scene.start Scene.horizontal) = (Normal tt, s') ∧
         clean (H := Scene.host) (prims s') 1%nat) ∧
  (∃ s', GridPanelLayoutEngine.updateLayout (H := Scene.host) 1%nat
           (Scene.start Scene.grid) = (Normal tt, s') ∧
         clean (H := Scene.host) (prims s') 1%nat) ∧
  StackPanelLayoutEngine.updateLayout (H := Scene.host) 2%nat (Scene.start Scene.horizontal)
    = (Normal tt, Scene.start Scene.horizontal).
Proof.
  destruct (updateLayout_dirty_flag_protocol (H := Scene.host))
    as ((Hclears1 & _ & Hcompletes1) & (Hclears2 & Hnoop2 & Hcompletes2) &
        (Hclears3 & _ & Hcompletes3)).
  split; [|split; [|split]].
  - destruct (Hcompletes1 0%nat (Scene.start CanvasLayoutEngine.Singleton)) as [s' Hrun].
    { exists Scene.canvas. split; [reflexivity|]. intros c Hc.
      apply list_elem_of_In in Hc. simpl in Hc. destruct Hc as [<-|[]].
      exists Scene.group. split; [reflexivity|]. vm_compute. by eexists. }
    exists s'. split; [exact Hrun|]. exact (Hclears1 _ _ _ Hrun).
  - destruct (Hcompletes2 1%nat (Scene.start Scene.horizontal)) as [s' Hrun].
    { exists Scene.group. split; [reflexivity|]. intros c Hc.
      apply list_elem_of_In in Hc. simpl in Hc. destruct Hc as [<-|[<-|[]]].
      - exists Scene.first. split; [reflexivity|]. split; vm_compute; by eexists.
      - exists Scene.second. split; [reflexivity|]. split; vm_compute; by eexists. }
    exists s'. split; [exact Hrun|]. exact (Hclears2 _ _ _ Hrun).
  - destruct (Hcompletes3 1%nat (Scene.start Scene.grid)) as [s' Hrun].
    { exists Scene.group. split; [reflexivity|]. right. intros c Hc.
      apply list_elem_of_In in Hc. simpl in Hc. destruct Hc as [<-|[<-|[]]].
      - exists Scene.first, (PrimitiveGridInfo.new 0 0 None None).
        repeat split; try reflexivity; vm_compute; congruence.
      - exists Scene.second, (PrimitiveGridInfo.new 0 1 None None).
        repeat split; try reflexivity; vm_compute; congruence. }
    exists s'. split; [exact Hrun|]. exact (Hclears3 _ _ _ Hrun).
  - apply (Hnoop2 2%nat (Scene.start Scene.horizontal)).
    exists Scene.first. split; reflexivity.
Defined.

(** C2: the claim as stated fails when every margin-adjusted height is
    negative. The only child has the margin-adjusted height -5, so
    max(h0) = -5, and the layout gives it the height 0. *)
Lemma stack_height_of_negative_areas :
  let s := {| this := Scene.horizontal; prims := Scene.negative;
              sizes := Scene.negative_sizes |} in
  let out := StackPanelLayoutEngine.updateLayout (H := Scene.host) 0%nat s in
  out.1 = Normal tt ∧
  maximum (Size.height <$> adjustedAreas (H := Scene.host) s [1%nat]) = num (-5) ∧
  ¬ horizontal_stack_layout (H := Scene.host)
      (maximum (Size.height <$> adjustedAreas (H := Scene.host) s [1%nat])) s out.2 [1%nat].
Proof.
  intros s out. split; [reflexivity|]. split; [reflexivity|].
  intros Hclaim.
  destruct (Hclaim 0%nat 1%nat eq_refl)
    as (old & adjusted & new & area & _ & _ & Hnew & Harea & _ & _ & Hheight & _).
  vm_compute in Hnew. injection Hnew as <-.
  vm_compute in Harea. injection Harea as <-.
  vm_compute in Hheight. discriminate Hheight.
Qed.

(** The children of the group of the scene have layout areas of their
    own. *)
Lemma Scene_unshared {E : Type} (e : E) : unshared (Scene.start e) [2%nat; 3%nat].
Proof.
  exists [Scene.first; Scene.second]. split; [|split; [|split]].
  - by repeat constructor.
  - apply (bool_decide_unpack _). vm_compute. exact I.
  - intros r Hr Hr'. apply list_elem_of_In in Hr, Hr'. vm_compute in Hr, Hr'.
    destruct Hr as [<-|[<-|[]]]; destruct Hr' as [?|[?|[]]]; discriminate.
  - intros r Hr. apply list_elem_of_In in Hr. vm_compute in Hr.
    destruct Hr as [<-|[<-|[<-|[<-|[]]]]]; vm_compute; by eexists.
Defined.

(** C2 (amended), on the scene: the two children of 50 x 20 and 30 x 40
    end at (0, 0) and (50, 0), both with the height 40. *)
Lemma horizontal_stack_layout_from_zero_witness :
  ∃ s',
    StackPanelLayoutEngine.updateLayout (H := Scene.host) 1%nat (Scene.start Scene.horizontal)
      = (Normal tt, s') ∧ this s' = Scene.horizontal ∧
    horizontal_stack_layout (H := Scene.host) (num 40) (Scene.start Scene.horizontal) s' [2%nat; 3%nat].
Proof.
  apply (horizontal_stack_layout_from_zero (H := Scene.host)
           (Scene.start Scene.horizontal) 1%nat Scene.group).
  - reflexivity.
  - reflexivity.
  - reflexivity.
  - apply Scene_unshared.
Defined.

(** C3, on an input: ["  AUTO "] is ["AUTO"] between two blanks and one,
    and parses to what ["auto"] parses to. *)
Lemma _parse_dimension_witness :
  GridDimensionDefinition._parse ("  " +:+ "AUTO" +:+ " ") (fun v vp t => (v, vp, t))
    = GridDimensionDefinition._parse (trim (toLocaleLowerCase "auto")) (fun v vp t => (v, vp, t)).
Proof.
  destruct (_parse_dimension _ (fun v vp t => (v, vp, t))) as (_ & _ & _ & _ & Hnorm).
  apply (Hnorm "  " " " "auto" "AUTO"); reflexivity.
Defined.

(** C5, on the scene: the locked horizontal singleton ignores the
    assignment, and a fresh instance takes it. *)
Lemma isHorizontal_setter_respects_lock_witness :
  StackPanelLayoutEngine.set_isHorizontal false Scene.horizontal = (tt, Scene.horizontal) ∧
  ∃ e', StackPanelLayoutEngine.set_isHorizontal false (StackPanelLayoutEngine.new (H := Scene.host))
          = (tt, e') ∧
        StackPanelLayoutEngine.isHorizontal e' = false ∧
        StackPanelLayoutEngine.super e'
          = StackPanelLayoutEngine.super (StackPanelLayoutEngine.new (H := Scene.host)).
Proof.
  split.
  - apply (isHorizontal_setter_respects_lock Scene.horizontal false). reflexivity.
  - apply (isHorizontal_setter_respects_lock
             (StackPanelLayoutEngine.new (H := Scene.host)) false).
    discriminate.
Defined.

(** C6, on the scene: after [CanvasLayoutEngine.updateLayout] on the dirty
    canvas, its direct child holds the actualSize object of the canvas as
    its layoutArea, 800 x 600, but the canvas itself still holds the
    layoutArea object it had, which is not its actualSize object and reads
    0 x 0, not 800 x 600. The branch of [_doUpdate] for a Canvas2D is there,
    and [updateLayout] passes it the children only. *)
Theorem canvas_root_layoutArea_not_written :
  let out := CanvasLayoutEngine.updateLayout (H := Scene.host) 0%nat
               (Scene.start CanvasLayoutEngine.Singleton) in
  out.1 = Normal tt ∧
  ∃ root child,
    prims out.2 !! 0%nat = Some root ∧ prims out.2 !! 1%nat = Some child ∧
    isCanvas2D root = true ∧
    layoutArea child = actualSize root ∧
    layoutArea root = layoutArea Scene.canvas ∧
    layoutArea root ≠ actualSize root ∧
    sizes out.2 !! layoutArea child = Some (Scene.size 800 600) ∧
    sizes out.2 !! actualSize root = Some (Scene.size 800 600) ∧
    sizes out.2 !! layoutArea root = Some (Scene.size 0 0) ∧
    Scene.size 0 0 ≠ Scene.size 800 600.
Proof.
  intros out. split; [reflexivity|].
  eexists _, _. split; [vm_compute; reflexivity|]. split; [vm_compute; reflexivity|].
  repeat split; try reflexivity; discriminate.
Qed.

(** C6, on the scene: under the group, which is no canvas, the two children
    receive the contentArea object of the group, 380 x 280. *)
Lemma canvas_descendants_get_contentArea :
  let out := CanvasLayoutEngine.updateLayout (H := Scene.host) 1%nat
               (Scene.start CanvasLayoutEngine.Singleton) in
  out.1 = Normal tt ∧
  layoutArea <$> prims out.2 !! 2%nat = Some (contentArea Scene.group) ∧
  layoutArea <$> prims out.2 !! 3%nat = Some (contentArea Scene.group) ∧
  sizes out.2 !! contentArea Scene.group = Some (Scene.size 380 280).
Proof. intros out. repeat split; vm_compute; reflexivity. Qed.

(** C7: the claim as stated fails. In a grid of one row of 100 and two
    columns of 50 and 30, the cell (0, 1) of the second child is 30 x 100 at
    (50, 0); after [updateLayout] the child still has the area 0 x 0. *)
Lemma grid_cells_not_assigned :
  let s := Scene.start Scene.grid in
  let out := GridPanelLayoutEngine.updateLayout (H := Scene.host) 1%nat s in
  out.1 = Normal tt ∧
  cell_rectangle Scene.grid (PrimitiveGridInfo.new 0 1 None None)
    = Some (Scene.size 30 100, Vector2.new (num 50) (num 0)) ∧
  ¬ grid_cells_assigned s out.2 [2%nat; 3%nat].
Proof.
  intros s out. split; [reflexivity|]. split; [reflexivity|].
  intros Hclaim.
  destruct (Hclaim 3%nat) as (old & pgi & new & area & Hold & Hpgi & Hnew & Harea & Hrect).
  { apply list_elem_of_In. simpl. tauto. }
  change (Some Scene.second = Some old) in Hold. injection Hold as <-.
  vm_compute in Hpgi. injection Hpgi as <-.
  vm_compute in Hnew. injection Hnew as <-.
  vm_compute in Harea. injection Harea as <-.
  vm_compute in Hrect. discriminate Hrect.
Qed.

(** C7 (amended), on the scene: the grid layout of the group completes
    normally and leaves the nodes as they were but for the flag of the
    group. *)
Lemma Grid_updateLayout_places_no_child_witness :
  prims (GridPanelLayoutEngine.updateLayout (H := Scene.host) 1%nat
           (Scene.start Scene.grid)).2
    = <[1%nat := cleared (H := Scene.host) Scene.group]> Scene.tree.
Proof.
  destruct (Grid_updateLayout_places_no_child (H := Scene.host) 1%nat (Scene.start Scene.grid))
    as (_ & _ & Hflag).
  apply (Hflag Scene.group); reflexivity.
Defined.

(** C8: the claim as stated fails. With a child that has no ["grid"]
    entry, the TypeError leaves [updateLayout] as a throw. *)
Lemma grid_failure_escapes : ¬ grid_failures_contained (H := Scene.host).
Proof.
  intros Hclaim.
  apply (Hclaim (Scene.start_without_grid Scene.grid) 1%nat TypeError).
  reflexivity.
Qed.

(** C8 (amended), on the scene: the call on the group throws, and the
    nodes, the group's dirty flag among them, are as they were. *)
Lemma Grid_failure_is_thrown_witness :
  ∃ e', GridPanelLayoutEngine.updateLayout (H := Scene.host) 1%nat
          (Scene.start_without_grid Scene.grid)
          = (Throw TypeError, {| this := e'; prims := Scene.tree_without_grid;
                                 sizes := Scene.tree_sizes |}) ∧
        dirty (H := Scene.host) Scene.tree_without_grid 1%nat.
Proof.
  destruct (Grid_failure_is_thrown (H := Scene.host) Scene.grid Scene.tree_without_grid
              Scene.tree_sizes 1%nat) as [_ Hthrown].
  apply (Hthrown Scene.group 3%nat Scene.bare); try reflexivity.
  apply list_elem_of_In. simpl. tauto.
Defined.

(** C10, on the scene: three calls of the base-class [updateLayout] on the
    dirty group leave it dirty. *)
Lemma base_updateLayout_changes_nothing_witness :
  let s := Scene.start LayoutEngineBase.new in
  dirty (H := Scene.host) (prims (repeatM 3 (LayoutEngineBase.updateLayout 1%nat) s).2) 1%nat.
Proof.
  intros s.
  apply (base_updateLayout_changes_nothing (H := Scene.host) 3 1%nat s).
  exists Scene.group. split; reflexivity.
Defined.

(** C8, on the scene: the failed call has built the cell table, so the same
    call made again skips the lookup of the placements, completes normally
    and clears the dirty flag of the group. *)
Lemma grid_second_call_after_failure :
  let s := Scene.start_without_grid Scene.grid in
  let failed := GridPanelLayoutEngine.updateLayout (H := Scene.host) 1%nat s in
  let again := GridPanelLayoutEngine.updateLayout (H := Scene.host) 1%nat failed.2 in
  failed.1 = Throw TypeError ∧ again.1 = Normal tt ∧
  clean (H := Scene.host) (prims again.2) 1%nat.
Proof.
  intros s failed again. split; [reflexivity|]. split; [reflexivity|].
  eexists. split; [vm_compute; reflexivity | reflexivity].
Qed.

(** * Further properties of the engines *)

Section Coverage.
Context `{Host}.

(** ** What the engines leave alone *)

Section Engines.
Context {B : Type} (f : Prim2DBase -> B).
Hypothesis f_clear :
  ∀ p, f (set_flags (Z.land (_flags p) (Z.lnot flagLayoutDirty)) p) = f p.

Lemma preserves__clearFlags {E : Type} prim :
  preserves f (E := E) (_clearFlags prim flagLayoutDirty).
Proof. by apply preserves_assign. Qed.

Lemma preserves_Canvas prim :
  (∀ a p, f (set_layoutArea a p) = f p) →
  preserves f (CanvasLayoutEngine.updateLayout prim).
Proof.
  intros f_area. unfold CanvasLayoutEngine.updateLayout.
  apply preserves_bind; [apply preserves_keeps, keeps__isFlagSet|]. intros [|].
  2:{ apply preserves_keeps, keeps_ret. }
  apply preserves_bind; [apply preserves_keeps, keeps_deref|]. intros p.
  apply preserves_bind; [|intros _; apply preserves__clearFlags].
  apply preserves_foldM. intros _ c. unfold CanvasLayoutEngine._doUpdate.
  apply preserves_bind; [apply preserves_keeps, keeps_deref|]. intros n.
  destruct (isCanvas2D n); [by apply preserves_assign|].
  apply preserves_bind; [apply preserves_keeps, keeps_instanceof_Canvas2D|]. intros [|].
  - apply preserves_bind; [apply preserves_keeps, keeps_deref_opt|]. intros o.
    by apply preserves_assign.
  - apply preserves_bind; [apply preserves_keeps, keeps_deref_opt|]. intros q.
    by apply preserves_assign.
Qed.

Lemma preserves_place_body {E : Type} h max cursor child :
  (∀ a p, f (set_layoutArea a p) = f p) →
  (∀ v p, f (set_layoutAreaPos v p) = f p) →
  preserves f (place_body (E := E) h max cursor child).
Proof.
  intros f_area f_pos. destruct cursor as [x y]. unfold place_body.
  apply preserves_bind; [by apply preserves_assign|]. intros _.
  apply preserves_bind; [apply preserves_keeps, keeps_deref|]. intros c. cbn zeta.
  apply preserves_bind; [apply preserves_keeps, keeps_size_of|]. intros a.
  destruct h; cbn zeta;
    (apply preserves_bind; [apply preserves_keeps, keeps_prims_new_Size|]); intros r;
    (apply preserves_bind; [by apply preserves_assign|]); intros _;
    apply preserves_keeps, keeps_ret.
Qed.

Lemma preserves_Stack prim :
  (∀ a p, f (set_layoutArea a p) = f p) →
  (∀ v p, f (set_layoutAreaPos v p) = f p) →
  preserves f (StackPanelLayoutEngine.updateLayout prim).
Proof.
  intros f_area f_pos. rewrite Stack_updateLayout_loops.
  apply preserves_bind; [apply preserves_keeps, keeps__isFlagSet|]. intros [|].
  2:{ apply preserves_keeps, keeps_ret. }
  apply preserves_bind; [apply preserves_keeps, keeps_get_this|]. intros e. cbn zeta.
  apply preserves_bind; [apply preserves_keeps, keeps_deref|]. intros p.
  apply preserves_bind.
  { apply preserves_keeps, keeps_foldM. intros max c. apply keeps_prims_measure_body. }
  intros max.
  apply preserves_bind; [apply preserves_keeps, keeps_deref|]. intros p1.
  apply preserves_bind; [|intros _; apply preserves__clearFlags].
  apply preserves_foldM. intros cursor c. by apply preserves_place_body.
Qed.

Lemma preserves_Grid prim : preserves f (GridPanelLayoutEngine.updateLayout prim).
Proof.
  unfold GridPanelLayoutEngine.updateLayout.
  apply preserves_bind; [apply preserves_keeps, keeps__isFlagSet|]. intros [|].
  2:{ apply preserves_keeps, keeps_ret. }
  apply preserves_bind; [by apply preserves_keeps, keeps__updateCellsList|]. intros _.
  apply preserves_bind; [by apply preserves_keeps, keeps__updateConstants|]. intros _.
  apply preserves__clearFlags.
Qed.

End Engines.

(** X1. No engine ever changes what a node is apart from its layout and
    its flags: the class, parent, owner, children, margin and external
    data of every node, and the Size objects that are its actualSize and
    its contentArea, are after [updateLayout] what they were before it,
    whether the call completes normally or throws. The canvas and the grid
    engine moreover write no Size object and make none. *)
Theorem updateLayout_keeps_skeleton prim :
  (preserves skeleton (CanvasLayoutEngine.updateLayout prim) ∧
   keeps_sizes (CanvasLayoutEngine.updateLayout prim)) ∧
  preserves skeleton (StackPanelLayoutEngine.updateLayout prim) ∧
  (preserves skeleton (GridPanelLayoutEngine.updateLayout prim) ∧
   keeps_sizes (GridPanelLayoutEngine.updateLayout prim)).
Proof.
  split; [|split]; [split| |split].
  - by apply preserves_Canvas.
  - apply Canvas_keeps_sizes.
  - by apply preserves_Stack.
  - by apply preserves_Grid.
  - apply Grid_keeps_sizes.
Qed.

(** X2. [CanvasLayoutEngine.updateLayout] positions nothing: the
    layoutAreaPos of every node is what it was, whether the call completes
    normally or throws. *)
Theorem Canvas_updateLayout_keeps_positions prim :
  preserves layoutAreaPos (CanvasLayoutEngine.updateLayout prim).
Proof. by apply preserves_Canvas. Qed.

(** ** Stack layout, further *)

(** X4. What [StackPanelLayoutEngine.updateLayout] leaves alone, whether
    it completes normally or throws: a node that is neither the node laid
    out nor one of its children is afterwards what it was; a Size object
    that is not the layoutArea object of a child of the node reads
    afterwards what it read before; and no Size object has gone. The
    layoutArea objects of the children are rewritten in place, whoever
    else holds them. *)
Theorem Stack_updateLayout_frame (s : State StackPanelLayoutEngine.t) prim p :
  prims s !! prim = Some p →
  let s' := (StackPanelLayoutEngine.updateLayout prim s).2 in
  (∀ r, r ≠ prim → r ∉ children p → prims s' !! r = prims s !! r) ∧
  (∀ r a, sizes s !! r = Some a →
          (∀ c n, c ∈ children p → prims s !! c = Some n → layoutArea n ≠ r) →
          sizes s' !! r = Some a) ∧
  (length (sizes s) ≤ length (sizes s'))%nat.
Proof.
  intros Hp s'. unfold s'. rewrite Stack_updateLayout_loops.
  rewrite (bind_run _ _ _ _ _ (_isFlagSet_Some _ _ _ _ Hp)).
  destruct (negb _); [|done].
  rewrite (bind_run _ _ _ _ _ (get_this_run s)). cbn zeta.
  rewrite (bind_run _ _ _ _ _ (deref_Some _ _ _ Hp)).
  destruct (Stack_loops_frame s prim p (StackPanelLayoutEngine.isHorizontal (this s)) Hp)
    as (Hnodes & Hsizes & Hlen).
  split; [done|]. split; [|done].
  intros r a Ha Hr. rewrite <- Ha. apply Hsizes; [done|]. by eapply lookup_lt_Some.
Qed.

(** X5. A vertical StackPanelLayoutEngine applied to a dirty node whose
    children have layout areas of their own (the layoutArea objects of the
    children are pairwise distinct Size objects, and none of them is the
    actualSize object of a child) completes normally, leaves the engine as
    it was, and leaves the first child at y = 0, every other child at the
    y of the child before it plus that child's height, every child at
    x = 0 with its margin-adjusted height, and every child with the width
    max(0, w0..wN-1). *)
Theorem vertical_stack_layout_from_zero (s : State StackPanelLayoutEngine.t) prim p :
  StackPanelLayoutEngine.isHorizontal (this s) = false →
  prims s !! prim = Some p → layoutDirty p = true →
  unshared s (children p) →
  ∃ s',
    StackPanelLayoutEngine.updateLayout prim s = (Normal tt, s') ∧ this s' = this s ∧
    vertical_stack_layout
      (fold_left Math_max (Size.width <$> adjustedAreas s (children p)) (num 0))
      s s' (children p).
Proof.
  intros Hh Hp Hd Hun.
  destruct (Stack_updateLayout_result s prim p Hp Hd Hun) as (s' & Hrun & Hthis & Hres).
  exists s'. split; [done|]. split; [done|]. rewrite Hh in Hres.
  intros i c Hi.
  destruct (Hres i c Hi) as (old & adjusted & new & Hold & Hadj & Hnew & Hpos & Harea).
  exists old, adjusted, new, (stretched false
    (fold_left Math_max (Size.width <$> adjustedAreas s (children p)) (num 0)) adjusted).
  rewrite Hpos. simpl.
  split; [done|]. split; [done|]. split; [done|]. split; [exact Harea|].
  split; [apply advance_vertical|]. split; [done|]. split; [done|].
  destruct i as [|j]; [done|].
  destruct (lookup_lt_is_Some_2 (children p) j) as [c' Hj].
  { apply lookup_lt_Some in Hi. lia. }
  destruct (Hres j c' Hj) as (old' & adjusted' & prev & Hold' & Hadj' & Hprev & Hpos' & Harea').
  exists c', prev, (Size.height adjusted'). rewrite Hpos', Harea'. simpl.
  split; [done|]. split; [done|]. split; [done|].
  rewrite (take_S_r _ _ _ Hj), (adjustedAreas_snoc _ _ _ _ _ Hold' Hadj'), fold_left_app.
  simpl. by destruct (fold_left _ _ _).
Qed.

(** ** Canvas layout, further *)

(** X6. [CanvasLayoutEngine.updateLayout] on a dirty Canvas2D whose
    children are distinct nodes, none of them a Canvas2D, each with the
    canvas as parent and owner: the call completes normally, writes no
    Size object, and every child holds the actualSize object of the canvas
    as its layoutArea, so that its layoutArea reads what the actualSize of
    the canvas reads. *)
Theorem Canvas_children_get_canvas_size e (s : gmap nat Prim2DBase) (zs : list Size.t) prim p :
  s !! prim = Some p → isCanvas2D p = true → layoutDirty p = true →
  NoDup (children p) →
  (∀ c, c ∈ children p →
        ∃ n, s !! c = Some n ∧ isCanvas2D n = false ∧
             parent n = Some prim ∧ owner n = Some prim) →
  ∃ s' : gmap nat Prim2DBase,
    CanvasLayoutEngine.updateLayout prim {| this := e; prims := s; sizes := zs |}
      = (Normal tt, {| this := e; prims := s'; sizes := zs |}) ∧
    (∀ c, c ∈ children p → layoutArea <$> s' !! c = Some (actualSize p)) ∧
    (∀ c, c ∈ children p →
          ∃ new, s' !! c = Some new ∧ zs !! layoutArea new = zs !! actualSize p).
Proof.
  intros Hp Hcanvas Hd Hnd Hin.
  assert (Harea : ∀ c, c ∈ children p →
            ∃ n a, s !! c = Some n ∧ canvas_area s n = Some a ∧ a = actualSize p).
  { intros c Hc. destruct (Hin c Hc) as (n & Hn & Hnc & Hpar & Hown).
    exists n, (actualSize p). split; [done|]. split; [|done].
    unfold canvas_area. rewrite Hnc, Hpar, Hown. simpl. by rewrite Hp; simpl; rewrite Hcanvas. }
  destruct (Canvas_updateLayout_children e s zs prim p Hp Hd Hnd) as (s' & Hrun & Hres).
  { intros c Hc. destruct (Harea c Hc) as (n & a & Hn & Ha & _). by exists n, a. }
  exists s'. split; [done|].
  assert (Hobj : ∀ c, c ∈ children p →
            ∃ new, s' !! c = Some new ∧ layoutArea new = actualSize p).
  { intros c Hc. destruct (Hres c Hc) as (n & new & Hn & Hnew & Hget).
    destruct (Harea c Hc) as (n' & a & Hn' & Ha & ->).
    exists new. split; [done|]. congruence. }
  split; intros c Hc; destruct (Hobj c Hc) as (new & Hnew & Harea').
  - by rewrite Hnew; simpl; rewrite Harea'.
  - exists new. by rewrite Harea'.
Qed.

(** X7. [CanvasLayoutEngine.updateLayout] on a dirty node that is no
    Canvas2D, whose children are distinct nodes, none of them a Canvas2D,
    each with the node as parent: the call completes normally, writes no
    Size object, and every child holds the contentArea object of the node
    as its layoutArea, so that its layoutArea reads what the contentArea
    of the node reads. *)
Theorem Canvas_children_get_contentArea e (s : gmap nat Prim2DBase) (zs : list Size.t) prim p :
  s !! prim = Some p → isCanvas2D p = false → layoutDirty p = true →
  NoDup (children p) →
  (∀ c, c ∈ children p →
        ∃ n, s !! c = Some n ∧ isCanvas2D n = false ∧ parent n = Some prim) →
  ∃ s' : gmap nat Prim2DBase,
    CanvasLayoutEngine.updateLayout prim {| this := e; prims := s; sizes := zs |}
      = (Normal tt, {| this := e; prims := s'; sizes := zs |}) ∧
    (∀ c, c ∈ children p → layoutArea <$> s' !! c = Some (contentArea p)) ∧
    (∀ c, c ∈ children p →
          ∃ new, s' !! c = Some new ∧ zs !! layoutArea new = zs !! contentArea p).
Proof.
  intros Hp Hcanvas Hd Hnd Hin.
  assert (Harea : ∀ c, c ∈ children p →
            ∃ n a, s !! c = Some n ∧ canvas_area s n = Some a ∧ a = contentArea p).
  { intros c Hc. destruct (Hin c Hc) as (n & Hn & Hnc & Hpar).
    exists n, (contentArea p). split; [done|]. split; [|done].
    unfold canvas_area. rewrite Hnc, Hpar. simpl. by rewrite Hp; simpl; rewrite Hcanvas. }
  destruct (Canvas_updateLayout_children e s zs prim p Hp Hd Hnd) as (s' & Hrun & Hres).
  { intros c Hc. destruct (Harea c Hc) as (n & a & Hn & Ha & _). by exists n, a. }
  exists s'. split; [done|].
  assert (Hobj : ∀ c, c ∈ children p →
            ∃ new, s' !! c = Some new ∧ layoutArea new = contentArea p).
  { intros c Hc. destruct (Hres c Hc) as (n & new & Hn & Hnew & Hget).
    destruct (Harea c Hc) as (n' & a & Hn' & Ha & ->).
    exists new. split; [done|]. congruence. }
  split; intros c Hc; destruct (Hobj c Hc) as (new & Hnew & Harea').
  - by rewrite Hnew; simpl; rewrite Harea'.
  - exists new. by rewrite Harea'.
Qed.

(** ** Grid layout, further *)

(** X8. The first call of [GridPanelLayoutEngine.updateLayout] on a dirty
    node builds the cell table, whether the call then completes or throws:
    afterwards the engine holds a table of as many rows as it has row
    definitions, each of as many cells as it has column definitions, and
    nothing else in the engine has changed. *)
Theorem Grid_first_call_builds_table e (s : gmap nat Prim2DBase) (zs : list Size.t) prim p :
  s !! prim = Some p → layoutDirty p = true →
  GridPanelLayoutEngine._cells e = None →
  this (GridPanelLayoutEngine.updateLayout prim {| this := e; prims := s; sizes := zs |}).2
    = with_table e.
Proof.
  intros Hp Hd Hcells. rewrite (Grid_first_call e s zs prim p Hp Hd Hcells). cbn zeta.
  by destruct (forM_ (children p) placement_body _).1.
Qed.

(** X9. The first call of [GridPanelLayoutEngine.updateLayout] on a dirty
    node completes normally exactly when every child of the node exists,
    carries a ["grid"] entry, and the row of that entry is one of the rows
    of the grid. The column of the entry is not looked at: a column outside
    of the grid does not make the call fail. *)
Theorem Grid_first_call_succeeds_iff e (s : gmap nat Prim2DBase) (zs : list Size.t) prim p :
  s !! prim = Some p → layoutDirty p = true →
  GridPanelLayoutEngine._cells e = None →
  (GridPanelLayoutEngine.updateLayout prim {| this := e; prims := s; sizes := zs |}).1
    = Normal tt
  ↔ ∀ c, c ∈ children p → placeable s (length (GridPanelLayoutEngine._rows e)) c.
Proof.
  intros Hp Hd Hcells. rewrite (Grid_first_call e s zs prim p Hp Hd Hcells). cbn zeta.
  pose proof (placement_loop_Normal (length (GridPanelLayoutEngine._rows e))
                (length (GridPanelLayoutEngine._columns e)) (children p)
                {| this := with_table e; prims := s; sizes := zs |} eq_refl) as Hloop.
  simpl in Hloop. rewrite <- Hloop.
  by destruct (forM_ (children p) placement_body _).1 as [[]|err].
Qed.

(** X10. Once the cell table exists, [GridPanelLayoutEngine.updateLayout]
    on a dirty node reads no child: whatever the children and their
    placements, the call completes normally, the engine and the Size
    objects are unchanged, and the nodes are what they were with the dirty
    flag of the node cleared. *)
Theorem Grid_later_calls_skip_children e (s : gmap nat Prim2DBase) (zs : list Size.t)
    prim p table :
  s !! prim = Some p → layoutDirty p = true →
  GridPanelLayoutEngine._cells e = Some table →
  GridPanelLayoutEngine.updateLayout prim {| this := e; prims := s; sizes := zs |}
    = (Normal tt, {| this := e; prims := <[prim := cleared p]> s; sizes := zs |}).
Proof.
  intros Hp Hd Hcells.
  by apply (Grid_later_call {| this := e; prims := s; sizes := zs |} prim p table).
Qed.

(** X11. A first call of [GridPanelLayoutEngine.updateLayout] that throws
    is not repeated by the next one: the same call made again on the state
    that the failure left completes normally and clears the dirty flag of
    the node, with no child looked at and none placed. *)
Theorem Grid_call_after_failure e (s : gmap nat Prim2DBase) (zs : list Size.t) prim p err :
  s !! prim = Some p → layoutDirty p = true →
  GridPanelLayoutEngine._cells e = None →
  (GridPanelLayoutEngine.updateLayout prim {| this := e; prims := s; sizes := zs |}).1
    = Throw err →
  GridPanelLayoutEngine.updateLayout prim
    (GridPanelLayoutEngine.updateLayout prim {| this := e; prims := s; sizes := zs |}).2
    = (Normal tt, {| this := with_table e; prims := <[prim := cleared p]> s; sizes := zs |}).
Proof.
  intros Hp Hd Hcells. rewrite (Grid_first_call e s zs prim p Hp Hd Hcells). cbn zeta.
  destruct (forM_ (children p) placement_body _).1 as [[]|err']; [done|]. intros _. simpl.
  by apply (Grid_later_call {| this := with_table e; prims := s; sizes := zs |} prim p
              (full_table (length (GridPanelLayoutEngine._rows e))
                          (length (GridPanelLayoutEngine._columns e)))).
Qed.

(** ** Parsing a grid dimension, further *)

Lemma indexOf_from_spec pat s : ∀ i,
  (startsWith pat s = true → indexOf_from pat s i = i) ∧
  (startsWith pat s = false → indexOf_from pat s i = -1 ∨ i < indexOf_from pat s i).
Proof.
  induction s as [|c r IH]; intros i.
  - simpl. destruct (startsWith pat ""); split; try done. by left.
  - cbn [indexOf_from]. destruct (startsWith pat (String c r)); split; try done.
    intros _. destruct (startsWith pat r) eqn:Hr.
    + right. rewrite (proj1 (IH (i + 1)) eq_refl). lia.
    + destruct (proj2 (IH (i + 1)) eq_refl) as [->|Hlt]; [by left | right; lia].
Qed.

Lemma indexOf_zero s pat : (indexOf s pat =? 0) = startsWith pat s.
Proof.
  unfold indexOf. destruct (indexOf_from_spec pat s 0) as [Hyes Hno].
  destruct (startsWith pat s).
  - by rewrite Hyes.
  - destruct (Hno eq_refl) as [->|Hlt]; [done|]. apply Z.eqb_neq. lia.
Qed.

(** X12. A dimension string is Auto exactly when its trimmed lower-case
    form begins with ["auto"]: what follows is not looked at, so that
    ["Automatic"] and ["auto*"] are Auto as well, and a string that only
    contains ["auto"] further on is not. *)
Theorem _parse_Auto_iff (s : string) :
  let v := trim (toLocaleLowerCase s) in
  (startsWith "auto" v = true →
   ∀ (A : Type) (res : option number -> option number -> Z -> A),
     GridDimensionDefinition._parse s res = res None None GridDimensionDefinition.Auto) ∧
  (startsWith "auto" v = false →
   GridDimensionDefinition._parse s (fun _ _ t => t) ≠ GridDimensionDefinition.Auto).
Proof.
  intros v. unfold GridDimensionDefinition._parse. fold v.
  rewrite indexOf_zero. split; intros ->; [done|].
  by destruct (negb _).
Qed.

Lemma trimStart_all_blank s : blank s = true → trimStart s = EmptyString.
Proof.
  induction s as [|c r IH]; simpl; [done|]. by intros [-> Hr]%andb_prop; apply IH.
Qed.

(** X13. A dimension string that is empty or made of white space only is
    a Pixels dimension whose length is NaN: it is not rejected. *)
Theorem _parse_blank (s : string) {A : Type} (res : option number -> option number -> Z -> A) :
  blank s = true →
  GridDimensionDefinition._parse s res
    = res (Some NaN) (Some NaN) GridDimensionDefinition.Pixels.
Proof.
  intros Hs. unfold GridDimensionDefinition._parse.
  rewrite <- lower_blank in Hs. unfold trim.
  by rewrite (trimStart_all_blank _ Hs).
Qed.

(** X14. A star with no weight in front of it is a Stars dimension whose
    weight is NaN, not 1: so it is for every string whose trimmed
    lower-case form begins with ["*"]. *)
Theorem _parse_star_without_weight (s rest : string) {A : Type}
    (res : option number -> option number -> Z -> A) :
  trim (toLocaleLowerCase s) = String "*" rest →
  GridDimensionDefinition._parse s res
    = res (Some NaN) None GridDimensionDefinition.Stars.
Proof.
  intros Hv. unfold GridDimensionDefinition._parse. rewrite Hv.
  rewrite indexOf_zero.
  change (startsWith "auto" (String "*" rest)) with false. cbn match.
  assert (Hstar : indexOf (String "*" rest) "*" = 0) by reflexivity.
  by rewrite Hstar.
Qed.

Lemma _parse_shape (s : string) :
  GridDimensionDefinition._parse s dimension_shape.
Proof.
  unfold GridDimensionDefinition._parse, dimension_shape.
  destruct (_ =? 0); [by left|].
  destruct (negb _); [right; left | right; right]; by eauto.
Qed.

(** X15. The definitions that the constructor of GridPanelLayoutEngine
    derives from its settings: one row definition per row string and one
    column definition per column string, none when the array is missing;
    each is Auto with no value and no pixels, or Stars with a weight and no
    pixels, or Pixels with a length that is also its pixels; and the cell
    table is not built yet. *)
Theorem Grid_new_definitions (settings : GridPanelLayoutEngine.settings) :
  let e := GridPanelLayoutEngine.new settings in
  GridPanelLayoutEngine._cells e = None ∧
  length (GridPanelLayoutEngine._rows e)
    = length (default [] (GridPanelLayoutEngine.rows settings)) ∧
  length (GridPanelLayoutEngine._columns e)
    = length (default [] (GridPanelLayoutEngine.columns settings)) ∧
  Forall (fun r => dimension_shape (RowDefinition.width r) (RowDefinition.widthPixels r)
                     (RowDefinition.widthType r))
         (GridPanelLayoutEngine._rows e) ∧
  Forall (fun c => dimension_shape (ColumnDefinition.height c) (ColumnDefinition.heightPixels c)
                     (ColumnDefinition.heightType c))
         (GridPanelLayoutEngine._columns e).
Proof.
  intros e. unfold e, GridPanelLayoutEngine.new. simpl.
  split; [done|].
  destruct (GridPanelLayoutEngine.rows settings) as [rs|],
           (GridPanelLayoutEngine.columns settings) as [cs|]; simpl;
    rewrite ?length_map; repeat split; try done; try apply Forall_nil_2.
  all: apply Forall_forall; intros d (str & -> & _)%list_elem_of_fmap_1.
  all: pose proof (_parse_shape str) as Hshape;
       unfold GridDimensionDefinition._parse in *;
       destruct (_ =? 0); [done|]; by destruct (negb _).
Qed.

(** *** Decimal strings *)

Lemma digit_not_space c : isDigit c = true → isWhiteSpace c = false.
Proof. by destruct c as [[] [] [] [] [] [] [] []]. Qed.

Lemma digit_lower c : isDigit c = true → toLowerChar c = c.
Proof. by destruct c as [[] [] [] [] [] [] [] []]. Qed.

Lemma digit_not_star c : isDigit c = true → Ascii.eqb "*" c = false.
Proof. by destruct c as [[] [] [] [] [] [] [] []]. Qed.

Lemma digit_not_a c : isDigit c = true → Ascii.eqb "a" c = false.
Proof. by destruct c as [[] [] [] [] [] [] [] []]. Qed.

Lemma digit_not_I c : isDigit c = true → Ascii.eqb "I" c = false.
Proof. by destruct c as [[] [] [] [] [] [] [] []]. Qed.

Lemma digit_no_sign c r : isDigit c = true → sign_split (String c r) = (false, String c r).
Proof. by destruct c as [[] [] [] [] [] [] [] []]. Qed.

Lemma digits_solid s : digits s = true → solid s = true.
Proof.
  induction s as [|c r IH]; simpl; [done|].
  intros [Hc Hr]%andb_prop. by rewrite (digit_not_space _ Hc), IH.
Qed.

Lemma digits_lower s : digits s = true → toLocaleLowerCase s = s.
Proof.
  induction s as [|c r IH]; simpl; [done|].
  intros [Hc Hr]%andb_prop. by rewrite (digit_lower _ Hc), IH.
Qed.

Lemma solid_app s t : solid (s +:+ t) = solid s && solid t.
Proof. induction s as [|c r IH]; simpl; [done|]. by rewrite IH, andb_assoc. Qed.

Lemma solid_trimEnd s : solid s = true → trimEnd s = s.
Proof.
  induction s as [|c r IH]; simpl; [done|].
  intros [Hc Hr]%andb_prop. rewrite (IH Hr).
  destruct r; [|done]. apply negb_true_iff in Hc. by rewrite Hc.
Qed.

Lemma solid_trim s : solid s = true → trim s = s.
Proof.
  intros Hs. unfold trim. destruct s as [|c r]; [done|]. simpl in *.
  apply andb_prop in Hs as [Hc Hr]. apply negb_true_iff in Hc. rewrite Hc.
  apply solid_trimEnd. simpl. by rewrite Hc, Hr.
Qed.

Lemma digits_no_star s i : digits s = true → indexOf_from "*" s i = -1.
Proof.
  revert i. induction s as [|c r IH]; intros i; [done|].
  cbn [indexOf_from startsWith digits].
  intros [Hc Hr]%andb_prop. rewrite (digit_not_star _ Hc). by apply IH.
Qed.

Lemma digits_then_star s t i :
  digits s = true →
  indexOf_from "*" (s +:+ String "*" t) i = i + Z.of_nat (String.length s).
Proof.
  revert i. induction s as [|c r IH]; intros i.
  - intros _. simpl. lia.
  - change (String c r +:+ String "*" t) with (String c (r +:+ String "*" t)).
    cbn [indexOf_from startsWith digits String.length].
    intros [Hc Hr]%andb_prop. rewrite (digit_not_star _ Hc), (IH _ Hr). lia.
Qed.

Lemma substring_app s t : String.substring 0 (String.length s) (s +:+ t) = s.
Proof.
  induction s as [|c r IH]; simpl.
  - by destruct t.
  - by rewrite IH.
Qed.

Lemma takeDigits_digits s : ∀ acc n,
  digits s = true →
  takeDigits s acc n =
    (acc * 10 ^ Z.of_nat (String.length s) + decimalValue s,
     n + Z.of_nat (String.length s), EmptyString).
Proof.
  induction s as [|c r IH]; intros acc n.
  - intros _. simpl. do 2 f_equal; lia.
  - intros [Hc Hr]%andb_prop. cbn [takeDigits]. rewrite Hc, (IH _ _ Hr).
    cbn [String.length decimalValue]. rewrite Nat2Z.inj_succ, Z.pow_succ_r by lia.
    do 2 f_equal; lia.
Qed.

Lemma parseFloat_sign_split s :
  parseFloat s =
    (let '(neg, s) := sign_split (trimStart s) in
     if startsWith "Infinity" s then Infinity neg
     else
       let '(ip, ni, s1) := takeDigits s 0 0 in
       let '(m, nf, s2) :=
         match s1 with
         | String "." r => takeDigits r ip 0
         | _ => (ip, 0, s1)
         end in
       if ni + nf =? 0 then NaN
       else
         let q := decimal m (exponentPart s2 - nf) in
         round64 (if neg : bool then Qopp q else q)).
Proof. reflexivity. Qed.

(** [parseFloat] of a string of decimal digits is the binary64 number
    nearest to the number they denote. *)
Lemma parseFloat_digits s :
  s ≠ EmptyString → digits s = true → parseFloat s = num (decimalValue s).
Proof.
  intros Hne Hs. destruct s as [|c r]; [done|].
  pose proof Hs as [Hc Hr]%andb_prop.
  rewrite parseFloat_sign_split.
  assert (Htrim : trimStart (String c r) = String c r)
    by (simpl; by rewrite (digit_not_space _ Hc)).
  rewrite Htrim, (digit_no_sign _ _ Hc).
  assert (Hinf : startsWith "Infinity" (String c r) = false)
    by (cbn [startsWith]; by rewrite (digit_not_I _ Hc)).
  rewrite Hinf, (takeDigits_digits _ 0 0 Hs).
  assert (Hlen : (0 + Z.of_nat (String.length (String c r)) + 0 =? 0) = false)
    by (apply Z.eqb_neq; simpl; lia).
  rewrite Hlen. unfold num, decimal, exponentPart. simpl (0 - 0).
  change (0 <=? 0) with true. cbn match. do 2 f_equal. lia.
Qed.

(** *** Rounding to binary64 *)

Lemma Qred_reduced (q : Q) : Z.gcd (Qnum q) (Zpos (Qden q)) = 1 → Qred q = q.
Proof.
  destruct q as [a d]. simpl. intros Hg. unfold Qred.
  pose proof (Z.ggcd_gcd a (Zpos d)) as H1.
  pose proof (Z.ggcd_correct_divisors a (Zpos d)) as H2.
  destruct (Z.ggcd a (Zpos d)) as [g [aa bb]]. simpl in *. subst g.
  rewrite Hg, !Z.mul_1_l in H2. destruct H2 as [<- <-]. done.
Qed.

Lemma Qred_inject_Z (z : Z) : Qred (inject_Z z) = inject_Z z.
Proof. apply Qred_reduced. simpl. apply Z.gcd_1_r. Qed.

Lemma round_half_even_exact (a : Z) : round_half_even a 1 = a.
Proof. unfold round_half_even. by rewrite Z.div_1_r, Z.mod_1_r. Qed.

Lemma round64_pos_exact (n : positive) :
  Zpos n ≤ 2 ^ 53 → round64_pos n 1 = Some (inject_Z (Zpos n)).
Proof.
  intros Hn. unfold round64_pos, floor_log2.
  change (Z.log2 1) with 0. rewrite Z.sub_0_r.
  pose proof (Z.log2_nonneg (Zpos n)) as Hk0.
  pose proof (Z.log2_spec (Zpos n) eq_refl) as [Hlo Hhi].
  assert (Hk : Z.log2 (Zpos n) ≤ 53).
  { change 53 with (Z.log2 (2 ^ 53)). by apply Z.log2_le_mono. }
  set (k := Z.log2 (Zpos n)) in *.
  destruct (Z.leb_spec 0 k) as [_|?]; [|lia].
  rewrite Z.mul_1_l. destruct (Z.leb_spec (2 ^ k) (Zpos n)) as [_|?]; [|lia].
  assert (Hcases : k ≤ 51 ∨ k = 52 ∨ k = 53) by lia.
  destruct Hcases as [Hsmall | [-> | ->]].
  - rewrite Z.max_l by lia.
    destruct (Z.leb_spec 0 (k - 52)) as [?|_]; [lia|].
    destruct (Z.ltb_spec 971 (k - 52)) as [?|_]; [lia|].
    destruct (Z.eqb_spec (k - 52) 971) as [?|_]; [lia|]. simpl.
    rewrite round_half_even_exact. f_equal.
    rewrite <- Qred_inject_Z. apply Qred_complete. unfold Qeq. simpl.
    rewrite Z2Pos.id by (apply Z.pow_pos_nonneg; lia). lia.
  - change (Z.max (52 - 52) (-1074)) with 0. cbn [Z.leb Z.compare Z.ltb Z.eqb orb andb].
    change (1 * 2 ^ 0) with 1. rewrite round_half_even_exact.
    change (2 ^ 0) with 1. by rewrite Z.mul_1_r.
  - assert (Zpos n = 2 ^ 53) as -> by (change (Z.succ 53) with 54 in Hhi; lia).
    reflexivity.
Qed.

(** An integer of magnitude at most 2^53 is a binary64 number: rounding
    leaves it as it is. *)
Lemma num_exact (z : Z) : Z.abs z ≤ 2 ^ 53 → num z = Finite (inject_Z z).
Proof.
  intros Hz. unfold num, round64. destruct z as [|n|n]; simpl.
  - done.
  - by rewrite round64_pos_exact by lia.
  - rewrite round64_pos_exact by lia. f_equal. apply (Qred_inject_Z (Zneg n)).
Qed.

Lemma digitValue_nonneg c : isDigit c = true → 0 ≤ digitValue c.
Proof. destruct c as [[] [] [] [] [] [] [] []]; by vm_compute. Qed.

Lemma decimalValue_nonneg s : digits s = true → 0 ≤ decimalValue s.
Proof.
  induction s as [|c r IH]; simpl; [done|].
  intros [Hc Hr]%andb_prop. pose proof (digitValue_nonneg _ Hc). pose proof (IH Hr).
  assert (0 ≤ 10 ^ Z.of_nat (String.length r)) by (apply Z.pow_nonneg; lia). nia.
Qed.

(** X16. A non-empty string of decimal digits is a Pixels dimension whose
    length is the number that the digits denote, rounded to binary64 (to
    nearest, ties to even), and followed by a star it is a Stars dimension
    of that weight. When the digits denote at most 2^53, the rounding
    leaves the number as it is. *)
Theorem _parse_decimal (s : string) {A : Type}
    (res : option number -> option number -> Z -> A) :
  s ≠ EmptyString → digits s = true →
  GridDimensionDefinition._parse s res
    = res (Some (num (decimalValue s))) (Some (num (decimalValue s)))
          GridDimensionDefinition.Pixels ∧
  GridDimensionDefinition._parse (s +:+ "*") res
    = res (Some (num (decimalValue s))) None GridDimensionDefinition.Stars ∧
  (decimalValue s ≤ 2 ^ 53 → num (decimalValue s) = Finite (inject_Z (decimalValue s))).
Proof.
  intros Hne Hs. unfold GridDimensionDefinition._parse.
  assert (Hauto : ∀ t, startsWith "auto" (s +:+ t) = false).
  { intros t. destruct s as [|c r]; [done|].
    change (String c r +:+ t) with (String c (r +:+ t)).
    cbn [startsWith digits] in *.
    apply andb_prop in Hs as [Hc _]. by rewrite (digit_not_a _ Hc). }
  split; [|split].
  - rewrite (digits_lower _ Hs), (solid_trim _ (digits_solid _ Hs)), indexOf_zero.
    assert (Ha' : startsWith "auto" s = false).
    { destruct s as [|c r]; [done|]. cbn [startsWith digits] in *.
      apply andb_prop in Hs as [Hc _]. by rewrite (digit_not_a _ Hc). }
    rewrite Ha'. unfold indexOf. rewrite (digits_no_star _ _ Hs). cbn match.
    by rewrite (parseFloat_digits _ Hne Hs).
  - rewrite lower_app, (digits_lower _ Hs).
    change (toLocaleLowerCase "*") with "*".
    rewrite solid_trim by (by rewrite solid_app, (digits_solid _ Hs)).
    rewrite indexOf_zero, Hauto. unfold indexOf.
    rewrite (digits_then_star s EmptyString 0 Hs). cbn match.
    assert (Hstar : negb (0 + Z.of_nat (String.length s) =? -1) = true)
      by (apply negb_true_iff, Z.eqb_neq; lia).
    rewrite Hstar. unfold substr.
    rewrite Z.add_0_l, Nat2Z.id. change (Z.to_nat 0) with 0%nat.
    by rewrite substring_app, (parseFloat_digits _ Hne Hs).
  - intros Hle. apply num_exact. pose proof (decimalValue_nonneg _ Hs). lia.
Qed.

(** ** Configuring a stack panel *)

Lemma call_locked m e :
  StackPanelLayoutEngine.isLocked e = Some true → call m e = e.
Proof.
  intros He. destruct m as [|val]; simpl.
  - unfold StackPanelLayoutEngine.lock. rewrite (lock_locked _ He). by destruct e.
  - unfold StackPanelLayoutEngine.set_isHorizontal. by rewrite He.
Qed.

Lemma calls_locked ms e :
  StackPanelLayoutEngine.isLocked e = Some true → calls ms e = e.
Proof.
  intros He. unfold calls. induction ms as [|m ms IH]; simpl; [done|].
  by rewrite (call_locked _ _ He).
Qed.

Lemma calls_assignments vals e :
  StackPanelLayoutEngine.isLocked e ≠ Some true →
  calls (SetIsHorizontal <$> vals) e =
    {| StackPanelLayoutEngine.super := StackPanelLayoutEngine.super e;
       StackPanelLayoutEngine._isHorizontal :=
         default (StackPanelLayoutEngine.isHorizontal e) (last vals) |}.
Proof.
  revert e. induction vals as [|val vals IH]; intros e He.
  - by destruct e.
  - unfold calls in *. cbn [fmap list_fmap fold_left call].
    assert (Hset : (StackPanelLayoutEngine.set_isHorizontal val e).2 =
                   {| StackPanelLayoutEngine.super := StackPanelLayoutEngine.super e;
                      StackPanelLayoutEngine._isHorizontal := val |}).
    { unfold StackPanelLayoutEngine.set_isHorizontal.
      by destruct (StackPanelLayoutEngine.isLocked e) as [[|]|]. }
    rewrite Hset, IH by exact He. simpl. f_equal.
    destruct vals as [|val' vals]; [done|]. rewrite last_cons_cons.
    destruct (last (val' :: vals)) eqn:Hl; [done|]. by apply last_None in Hl.
Qed.

(** X17. Configuring a stack panel: on an instance that is not locked, any
    assignments of [isHorizontal] followed by [lock()] leave the instance
    locked with the orientation last assigned (its own when none was), and
    whatever is called after that, [lock()] or assignments, changes
    nothing. *)
Theorem configuration_freezes_at_lock (vals : list bool) (later : list method) e :
  StackPanelLayoutEngine.isLocked e ≠ Some true →
  let e' := calls ((SetIsHorizontal <$> vals) ++ Lock :: later) e in
  StackPanelLayoutEngine.isLocked e' = Some true ∧
  StackPanelLayoutEngine.isHorizontal e'
    = default (StackPanelLayoutEngine.isHorizontal e) (last vals) ∧
  e' = calls ((SetIsHorizontal <$> vals) ++ [Lock]) e.
Proof.
  intros He e'. unfold e', calls. rewrite !fold_left_app. fold (calls (SetIsHorizontal <$> vals) e).
  rewrite (calls_assignments _ _ He). cbn [fold_left call].
  set (locked := (StackPanelLayoutEngine.lock _).2).
  assert (Hl : StackPanelLayoutEngine.isLocked locked = Some true).
  { unfold locked, StackPanelLayoutEngine.lock, LayoutEngineBase.lock,
      StackPanelLayoutEngine.isLocked, LayoutEngineBase.isLocked in *. simpl.
    by destruct (LayoutEngineBase._isLocked (StackPanelLayoutEngine.super e)) as [[|]|]. }
  fold (calls later locked). rewrite (calls_locked _ _ Hl).
  split; [done|]. split; [|done].
  unfold locked, StackPanelLayoutEngine.lock. simpl.
  by destruct (LayoutEngineBase.lock _).
Qed.

(** ** The singletons, further *)

(** X18. The two singletons are two objects: in any state the class can
    be in, reading [Horizontal] and then [Vertical] returns two different
    references. *)
Theorem singletons_are_distinct (before : list action) :
  let c := after before StackPanelLayoutEngine.loaded in
  ∃ rh rv c1 c2,
    StackPanelLayoutEngine.Horizontal c = (Normal (Some rh), c1) ∧
    StackPanelLayoutEngine.Vertical c1 = (Normal (Some rv), c2) ∧
    rh ≠ rv.
Proof.
  intros c.
  assert (Hok : singletons_ok c).
  { apply after_ok. split; by intros r. }
  destruct (Horizontal_ok c Hok) as (rh & c1 & Hrun1 & Hh1 & Hok1 & _).
  destruct (Vertical_ok c1 Hok1) as (rv & c2 & Hrun2 & Hv2 & [Hdh Hdv] & [Hkh _]).
  exists rh, rv, c1, c2. split; [done|]. split; [done|].
  intros <-.
  destruct (Hdh rh (Hkh _ Hh1)) as (eh & Heh & _ & Hhor).
  destruct (Hdv rh Hv2) as (ev & Hev & _ & Hver).
  congruence.
Qed.

(** ** Canvas layout, the nodes left alone *)

(** X19. [CanvasLayoutEngine.updateLayout] writes the children of the node
    and the node itself, nothing else: a node that is neither the node laid
    out nor one of its children is afterwards what it was, whether the call
    completes normally or throws. *)
Theorem Canvas_updateLayout_frame (s : State CanvasLayoutEngine.t) prim p r :
  prims s !! prim = Some p → r ≠ prim → r ∉ children p →
  prims (CanvasLayoutEngine.updateLayout prim s).2 !! r = prims s !! r.
Proof.
  intros Hp Hne Hr. unfold CanvasLayoutEngine.updateLayout.
  rewrite (bind_run _ _ _ _ _ (_isFlagSet_Some _ _ _ _ Hp)).
  destruct (negb _); [|done].
  rewrite (bind_run _ _ _ _ _ (deref_Some _ _ _ Hp)).
  apply (within_bind (fun c => c = prim ∨ c ∈ children p)); [| |tauto].
  - apply within_foldM. intros _ c Hc. apply _doUpdate_within. by right.
  - intros _. apply within_assign. by left.
Qed.

End Coverage.

(** * The further properties on the concrete scenes *)

(** X4, on the scene: the stack layout of the group leaves the canvas as
    it was, and the contentArea of the group, a Size object that no child
    holds as its layoutArea, still reads 380 x 280. *)
Lemma Stack_updateLayout_frame_witness :
  let s := Scene.start Scene.horizontal in
  let s' := (StackPanelLayoutEngine.updateLayout (H := Scene.host) 1%nat s).2 in
  prims s' !! 0%nat = Some Scene.canvas ∧
  sizes s' !! contentArea Scene.group = Some (Scene.size 380 280).
Proof.
  intros s s'.
  destruct (Stack_updateLayout_frame (H := Scene.host) s 1%nat Scene.group eq_refl)
    as (Hnodes & Hsizes & _).
  split.
  - apply (Hnodes 0%nat); [discriminate|].
    apply (bool_decide_unpack _). vm_compute. exact I.
  - apply Hsizes; [reflexivity|]. intros c n Hc Hn.
    apply list_elem_of_In in Hc. simpl in Hc. destruct Hc as [<-|[<-|[]]].
    + change (Some Scene.first = Some n) in Hn. injection Hn as <-. discriminate.
    + change (Some Scene.second = Some n) in Hn. injection Hn as <-. discriminate.
Defined.

(** X20. Where the layout areas are shared: on the tree as the canvas
    layout of the group leaves it, both children hold the contentArea
    object of the group, 380 x 280, as their layoutArea. The measure pass
    of the stack layout rewrites that one object for each child in turn,
    so both children end with the area of the last one, 30 x 40, at x = 0
    and x = 30, and the contentArea of the group reads 30 x 40. *)
Lemma stack_layout_of_shared_areas :
  let out := StackPanelLayoutEngine.updateLayout (H := Scene.host) 1%nat Scene.shared in
  (layoutArea <$> prims Scene.shared !! 2%nat = Some (contentArea Scene.group) ∧
   layoutArea <$> prims Scene.shared !! 3%nat = Some (contentArea Scene.group) ∧
   sizes Scene.shared !! contentArea Scene.group = Some (Scene.size 380 280)) ∧
  out.1 = Normal tt ∧
  (∃ new, prims out.2 !! 2%nat = Some new ∧
          layoutAreaPos new = Vector2.new (num 0) (num 0) ∧
          sizes out.2 !! layoutArea new = Some (Scene.size 30 40)) ∧
  (∃ new, prims out.2 !! 3%nat = Some new ∧
          layoutAreaPos new = Vector2.new (num 30) (num 0) ∧
          sizes out.2 !! layoutArea new = Some (Scene.size 30 40)) ∧
  sizes out.2 !! contentArea Scene.group = Some (Scene.size 30 40).
Proof.
  intros out. split; [by vm_compute|]. split; [reflexivity|].
  split; [|split].
  - eexists. split; [vm_compute; reflexivity|]. by vm_compute.
  - eexists. split; [vm_compute; reflexivity|]. by vm_compute.
  - by vm_compute.
Qed.

(** X5, on the scene: stacked vertically, the two children of 50 x 20 and
    30 x 40 end at (0, 0) and (0, 20), both with the width 50. *)
Lemma vertical_stack_layout_from_zero_witness :
  ∃ s',
    StackPanelLayoutEngine.updateLayout (H := Scene.host) 1%nat (Scene.start Scene.vertical)
      = (Normal tt, s') ∧ this s' = Scene.vertical ∧
    vertical_stack_layout (H := Scene.host) (num 50) (Scene.start Scene.vertical) s' [2%nat; 3%nat].
Proof.
  apply (vertical_stack_layout_from_zero (H := Scene.host)
           (Scene.start Scene.vertical) 1%nat Scene.group).
  - reflexivity.
  - reflexivity.
  - reflexivity.
  - apply Scene_unshared.
Defined.

(** X6, on the scene: the group, direct child of the canvas, holds the
    actualSize object of the canvas, which reads 800 x 600. *)
Lemma Canvas_children_get_canvas_size_witness :
  ∃ s' : gmap nat Prim2DBase,
    CanvasLayoutEngine.updateLayout (H := Scene.host) 0%nat
      (Scene.start CanvasLayoutEngine.Singleton)
      = (Normal tt, {| this := CanvasLayoutEngine.Singleton; prims := s';
                       sizes := Scene.tree_sizes |}) ∧
    (∀ c, c ∈ [1%nat] → layoutArea <$> s' !! c = Some (actualSize Scene.canvas)) ∧
    (∀ c, c ∈ [1%nat] →
          ∃ new, s' !! c = Some new ∧
                 Scene.tree_sizes !! layoutArea new = Some (Scene.size 800 600)).
Proof.
  apply (Canvas_children_get_canvas_size (H := Scene.host)
           CanvasLayoutEngine.Singleton Scene.tree Scene.tree_sizes 0%nat Scene.canvas).
  - reflexivity.
  - reflexivity.
  - reflexivity.
  - apply (bool_decide_unpack _). vm_compute. exact I.
  - intros c Hc. apply list_elem_of_In in Hc. simpl in Hc.
    destruct Hc as [<-|[]]. exists Scene.group. repeat split; reflexivity.
Defined.

(** X7, on the scene: the two children of the group hold its contentArea
    object, which reads 380 x 280. *)
Lemma Canvas_children_get_contentArea_witness :
  ∃ s' : gmap nat Prim2DBase,
    CanvasLayoutEngine.updateLayout (H := Scene.host) 1%nat
      (Scene.start CanvasLayoutEngine.Singleton)
      = (Normal tt, {| this := CanvasLayoutEngine.Singleton; prims := s';
                       sizes := Scene.tree_sizes |}) ∧
    (∀ c, c ∈ [2%nat; 3%nat] → layoutArea <$> s' !! c = Some (contentArea Scene.group)) ∧
    (∀ c, c ∈ [2%nat; 3%nat] →
          ∃ new, s' !! c = Some new ∧
                 Scene.tree_sizes !! layoutArea new = Some (Scene.size 380 280)).
Proof.
  apply (Canvas_children_get_contentArea (H := Scene.host)
           CanvasLayoutEngine.Singleton Scene.tree Scene.tree_sizes 1%nat Scene.group).
  - reflexivity.
  - reflexivity.
  - reflexivity.
  - apply (bool_decide_unpack _). vm_compute. exact I.
  - intros c Hc. apply list_elem_of_In in Hc. simpl in Hc.
    destruct Hc as [<-|[<-|[]]].
    + exists Scene.first. repeat split; reflexivity.
    + exists Scene.second. repeat split; reflexivity.
Defined.

(** X8, on the scene: the grid of one row and two columns holds a table of
    one row of two cells after its first call, here a call that throws. *)
Lemma Grid_first_call_builds_table_witness :
  this (GridPanelLayoutEngine.updateLayout (H := Scene.host) 1%nat
          (Scene.start_without_grid Scene.grid)).2
    = GridPanelLayoutEngine.set_cells
        (Some [Some [Some new_CellInfo; Some new_CellInfo]]) Scene.grid.
Proof.
  apply (Grid_first_call_builds_table (H := Scene.host)
           Scene.grid Scene.tree_without_grid Scene.tree_sizes 1%nat Scene.group);
    reflexivity.
Defined.

(** X9, on the scene: the two children sit in row 0 of the one-row grid,
    so the first call completes normally. *)
Lemma Grid_first_call_succeeds_iff_witness :
  (GridPanelLayoutEngine.updateLayout (H := Scene.host) 1%nat
     (Scene.start Scene.grid)).1 = Normal tt.
Proof.
  apply (Grid_first_call_succeeds_iff (H := Scene.host)
           Scene.grid Scene.tree Scene.tree_sizes 1%nat Scene.group); try reflexivity.
  intros c Hc. apply list_elem_of_In in Hc. simpl in Hc.
  destruct Hc as [<-|[<-|[]]].
  - exists Scene.first, (PrimitiveGridInfo.new 0 0 None None).
    repeat split; try reflexivity; vm_compute; congruence.
  - exists Scene.second, (PrimitiveGridInfo.new 0 1 None None).
    repeat split; try reflexivity; vm_compute; congruence.
Defined.

(** X10, on the scene: with its table built, the grid lays out the group
    whose second child has no ["grid"] entry without a throw. *)
Lemma Grid_later_calls_skip_children_witness :
  GridPanelLayoutEngine.updateLayout (H := Scene.host) 1%nat
    (Scene.start_without_grid (with_table Scene.grid))
  = (Normal tt, {| this := with_table Scene.grid;
                   prims := <[1%nat := cleared (H := Scene.host) Scene.group]>
                              Scene.tree_without_grid;
                   sizes := Scene.tree_sizes |}).
Proof.
  apply (Grid_later_calls_skip_children (H := Scene.host) (with_table Scene.grid)
           Scene.tree_without_grid Scene.tree_sizes 1%nat Scene.group
           (full_table 1 2)); reflexivity.
Defined.

(** X11, on the scene: the call that threw on the missing entry, made
    again, completes normally. *)
Lemma Grid_call_after_failure_witness :
  GridPanelLayoutEngine.updateLayout (H := Scene.host) 1%nat
    (GridPanelLayoutEngine.updateLayout (H := Scene.host) 1%nat
       (Scene.start_without_grid Scene.grid)).2
  = (Normal tt, {| this := with_table Scene.grid;
                   prims := <[1%nat := cleared (H := Scene.host) Scene.group]>
                              Scene.tree_without_grid;
                   sizes := Scene.tree_sizes |}).
Proof.
  apply (Grid_call_after_failure (H := Scene.host) Scene.grid
           Scene.tree_without_grid Scene.tree_sizes 1%nat Scene.group TypeError);
    reflexivity.
Defined.

(** X12, on two inputs: ["Auto*"] is Auto, and [" 2 auto"] is not. *)
Lemma _parse_Auto_iff_witness :
  GridDimensionDefinition._parse "Auto*" (fun v vp t => (v, vp, t))
    = (None, None, GridDimensionDefinition.Auto) ∧
  GridDimensionDefinition._parse " 2 auto" (fun _ _ t => t) ≠ GridDimensionDefinition.Auto.
Proof.
  split.
  - apply (proj1 (_parse_Auto_iff "Auto*")). reflexivity.
  - apply (proj2 (_parse_Auto_iff " 2 auto")). reflexivity.
Defined.

(** X13, on an input: three blanks. *)
Lemma _parse_blank_witness :
  GridDimensionDefinition._parse "   " (fun v vp t => (v, vp, t))
    = (Some NaN, Some NaN, GridDimensionDefinition.Pixels).
Proof. apply (_parse_blank "   " (fun v vp t => (v, vp, t))). reflexivity. Defined.

(** X14, on an input: a lone star between blanks. *)
Lemma _parse_star_without_weight_witness :
  GridDimensionDefinition._parse " * " (fun v vp t => (v, vp, t))
    = (Some NaN, None, GridDimensionDefinition.Stars).
Proof.
  apply (_parse_star_without_weight " * " "" (fun v vp t => (v, vp, t))). reflexivity.
Defined.

(** X16, on two inputs: ["250"] is 250, and ["9007199254740993"], which
    denotes 2^53 + 1, is 2^53. *)
Lemma _parse_decimal_witness :
  (GridDimensionDefinition._parse "250" (fun v vp t => (v, vp, t))
     = (Some (num 250), Some (num 250), GridDimensionDefinition.Pixels) ∧
   GridDimensionDefinition._parse "250*" (fun v vp t => (v, vp, t))
     = (Some (num 250), None, GridDimensionDefinition.Stars) ∧
   (250 ≤ 2 ^ 53 → num 250 = Finite (inject_Z 250))) ∧
  GridDimensionDefinition._parse "9007199254740993" (fun v vp t => (v, vp, t))
    = (Some (Finite (inject_Z (2 ^ 53))), Some (Finite (inject_Z (2 ^ 53))),
       GridDimensionDefinition.Pixels).
Proof.
  split.
  - apply (_parse_decimal "250" (fun v vp t => (v, vp, t))); [discriminate | reflexivity].
  - destruct (_parse_decimal "9007199254740993" (fun v vp t => (v, vp, t)))
      as (Hpixels & _); [discriminate | reflexivity |].
    exact Hpixels.
Defined.

(** X17, on the scene: a new panel made vertical, horizontal, vertical,
    then locked, stays vertical and locked through a later assignment and a
    later [lock()]. *)
Lemma configuration_freezes_at_lock_witness :
  let e' := calls [SetIsHorizontal false; SetIsHorizontal true; SetIsHorizontal false;
                   Lock; SetIsHorizontal true; Lock]
              (StackPanelLayoutEngine.new (H := Scene.host)) in
  StackPanelLayoutEngine.isLocked e' = Some true ∧
  StackPanelLayoutEngine.isHorizontal e' = false ∧
  e' = Scene.vertical.
Proof.
  apply (configuration_freezes_at_lock [false; true; false] [SetIsHorizontal true; Lock]
           (StackPanelLayoutEngine.new (H := Scene.host))).
  discriminate.
Defined.

(** X19, on the scene: the canvas layout of the group leaves the canvas as
    it was. *)
Lemma Canvas_updateLayout_frame_witness :
  prims (CanvasLayoutEngine.updateLayout (H := Scene.host) 1%nat
           (Scene.start CanvasLayoutEngine.Singleton)).2 !! 0%nat
    = Some Scene.canvas.
Proof.
  apply (Canvas_updateLayout_frame (H := Scene.host)
           (Scene.start CanvasLayoutEngine.Singleton)
           1%nat Scene.group 0%nat); [reflexivity | discriminate |].
  apply (bool_decide_unpack _). vm_compute. exact I.
Defined.
